(** * webgpu-blackhole: the ray-tracing kernel and its frame driver

    A shallow embedding of the parts of the repository that the
    specification talks about:

    - [Vector3D] and [SchwarzschildBlackHoleEquation]
      (models/Vector3D.ts, physics/SchwarzschildBlackHoleEquation.ts);
    - the WGSL compute shader held in the string [rayTracingShader] of
      RayProcessor.ts ([Shader]);
    - the class [RayProcessor] of RayProcessor.ts, with the GPU objects it
      owns and the order of the GPU calls it issues ([Driver]);
    - the CPU code around them: [Matrix4x4] (models/Matrix4x4.ts),
      [ArgbColor] with JavaScript's 32-bit operators ([Int32]), [Utils],
      the texture mappings [DiscMapping] and [SphericalMapping], the camera
      fields of the class Scene ([SceneClass]) and the bisection of the
      class Disk ([DiskClass]).

    Numbers.  The source computes with IEEE floats (JavaScript [number],
    WGSL [f32]).  Here every float is a real number and every operation is
    exact: the development is about the formulas and the control flow of the
    program, not about rounding.  Integer-valued quantities that the driver
    stores in float slots (width, height, frame count, iteration budget)
    are kept as [nat] and injected with [INR] where the shader reads them
    as floats. *)

From Stdlib Require Import Reals Lra Lia ZArith Psatz List Bool String.
Import ListNotations.
Open Scope R_scope.

(** ** Comparisons on floats as booleans *)

Definition Rltb (a b : R) : bool := if Rlt_dec a b then true else false.
Definition Rleb (a b : R) : bool := if Rle_dec a b then true else false.
Definition Reqb (a b : R) : bool := if Req_dec_T a b then true else false.

Notation "a <? b" := (Rltb a b) (at level 70, no associativity) : R_scope.
Notation "a <=? b" := (Rleb a b) (at level 70, no associativity) : R_scope.
Notation "a >? b" := (Rltb b a) (at level 70, no associativity) : R_scope.
Notation "a >=? b" := (Rleb b a) (at level 70, no associativity) : R_scope.
Notation "a =? b" := (Reqb a b) (at level 70, no associativity) : R_scope.

(** ** The numeric library both languages share *)

Module Math.

(** [Math.pow(x, y)] and WGSL [pow(x, y)]: [exp (y * ln x)] on a positive
    base.  At base [0] both give [0] for a positive exponent.  A negative
    base with a fractional exponent has no real value (the source yields
    NaN); the program only ever passes a squared norm. *)
Definition pow (x y : R) : R := if Rlt_dec 0 x then Rpower x y else 0.

(** [Math.floor], WGSL [floor]. *)
Definition floor (x : R) : R := IZR (Zfloor x).

(** [Math.trunc], WGSL [trunc]: rounding towards zero. *)
Definition trunc (x : R) : R := if Rle_dec 0 x then floor x else - floor (- x).

(** [Math.atan2(y, x)], WGSL [atan2(y, x)]. *)
Definition atan2 (y x : R) : R :=
  if Rlt_dec 0 x then atan (y / x)
  else if Rlt_dec x 0 then
         (if Rle_dec 0 y then atan (y / x) + PI else atan (y / x) - PI)
  else if Rlt_dec 0 y then PI / 2
  else if Rlt_dec y 0 then - (PI / 2)
  else 0.

End Math.

(** ** Exceptions *)

(** A JavaScript call either returns a value or throws [new Error(msg)]. *)
Inductive result (A : Type) : Type :=
| Ok (a : A)
| Throw (msg : string).
Arguments Ok {A} a.
Arguments Throw {A} msg.

(** The object [{ r, theta, phi }] that the two [toSpherical] functions
    return. *)
Module Spherical.

Record t : Type := mk { r : R; theta : R; phi : R }.

End Spherical.

(** ** models/Vector3D.ts *)

Module Vector3D.

Record t : Type := mk { x : R; y : R; z : R }.

Definition add (this v : t) : t := mk (x this + x v) (y this + y v) (z this + z v).

Definition subtract (this v : t) : t := mk (x this - x v) (y this - y v) (z this - z v).

Definition multiply (this : t) (scalar : R) : t :=
  mk (x this * scalar) (y this * scalar) (z this * scalar).

Definition divide (this : t) (scalar : R) : result t :=
  if scalar =? 0 then Throw "Cannot divide by zero"
  else
    let invScalar := 1 / scalar in
    Ok (mk (x this * invScalar) (y this * invScalar) (z this * invScalar)).

Definition dot (this v : t) : R := x this * x v + y this * y v + z this * z v.

Definition cross (this v : t) : t :=
  mk (y this * z v - z this * y v)
     (z this * x v - x this * z v)
     (x this * y v - y this * x v).

Definition norm2 (this : t) : R := x this * x this + y this * y this + z this * z this.

Definition norm (this : t) : R := sqrt (norm2 this).

Definition normalize (this : t) : result t :=
  let length := norm this in
  if length =? 0 then Ok (mk 0 0 0)
  else divide this length.

Definition clone (this : t) : t := mk (x this) (y this) (z this).

Definition fromSpherical (r theta phi : R) : t :=
  mk (r * sin theta * cos phi) (r * sin theta * sin phi) (r * cos theta).

Definition toSpherical (this : t) : Spherical.t :=
  let r := norm this in
  if r =? 0 then Spherical.mk 0 0 0
  else
    let theta := acos (z this / r) in
    let phi := Math.atan2 (y this) (x this) in
    Spherical.mk r theta phi.

End Vector3D.

(** ** models/Matrix4x4.ts *)

Module Matrix4x4.

(** The private field [data]: sixteen numbers, row after row. *)
Record t : Type := mk { data : list R }.

Definition identity : list R :=
  [1; 0; 0; 0;
   0; 1; 0; 0;
   0; 0; 1; 0;
   0; 0; 0; 1].

(** [new Matrix4x4(data)]; [None] is the call without argument. *)
Definition new (data : option (list R)) : t :=
  match data with
  | Some data => if Nat.eqb (List.length data) 16 then mk data else mk identity
  | None => mk identity
  end.

(** [this.data[i * 4 + j]].  The class reads and writes its array at
    indices below 16 only: every call has [i] and [j] below 4, and [0] here
    stands for the [undefined] that JavaScript returns beyond the end. *)
Definition get (this : t) (i j : nat) : R := nth (i * 4 + j) (data this) 0.

Fixpoint update (l : list R) (n : nat) (value : R) : list R :=
  match l, n with
  | [], _ => []
  | _ :: l', O => value :: l'
  | a :: l', S n' => a :: update l' n' value
  end.

(** [this.data[i * 4 + j] = value], the matrix after the assignment. *)
Definition set (this : t) (i j : nat) (value : R) : t :=
  mk (update (data this) (i * 4 + j) value).

Definition call (this : t) (i j : nat) : R := get this i j.

(** The three nested [for] loops, each over 0, 1, 2, 3. *)
Definition multiply (this other : t) : t :=
  let result := new None in
  fold_left
    (fun result i =>
       fold_left
         (fun result j =>
            let sum :=
              fold_left (fun sum k => sum + get this i k * get other k j) (seq 0 4) 0 in
            set result i j sum)
         (seq 0 4) result)
    (seq 0 4) result.

Definition transform (this : t) (v : Vector3D.t) : Vector3D.t :=
  Vector3D.mk
    (Vector3D.x v * get this 0 0 + Vector3D.y v * get this 1 0
     + Vector3D.z v * get this 2 0 + get this 3 0)
    (Vector3D.x v * get this 0 1 + Vector3D.y v * get this 1 1
     + Vector3D.z v * get this 2 1 + get this 3 1)
    (Vector3D.x v * get this 0 2 + Vector3D.y v * get this 1 2
     + Vector3D.z v * get this 2 2 + get this 3 2).

Definition translation (x y z : R) : t :=
  new (Some [1; 0; 0; 0;
             0; 1; 0; 0;
             0; 0; 1; 0;
             x; y; z; 1]).

Definition scaling (x y z : R) : t :=
  new (Some [x; 0; 0; 0;
             0; y; 0; 0;
             0; 0; z; 0;
             0; 0; 0; 1]).

Definition rotationX (angle : R) : t :=
  let c := cos angle in
  let s := sin angle in
  new (Some [1; 0; 0; 0;
             0; c; - s; 0;
             0; s; c; 0;
             0; 0; 0; 1]).

Definition rotationY (angle : R) : t :=
  let c := cos angle in
  let s := sin angle in
  new (Some [c; 0; s; 0;
             0; 1; 0; 0;
             - s; 0; c; 0;
             0; 0; 0; 1]).

Definition rotationZ (angle : R) : t :=
  let c := cos angle in
  let s := sin angle in
  new (Some [c; - s; 0; 0;
             s; c; 0; 0;
             0; 0; 1; 0;
             0; 0; 0; 1]).

(** [lookAt] calls [normalize] twice; an exception of either call leaves
    [lookAt]. *)
Definition lookAt (eye target up : Vector3D.t) : result t :=
  match Vector3D.normalize (Vector3D.subtract eye target) with
  | Throw msg => Throw msg
  | Ok zAxis =>
      match Vector3D.normalize (Vector3D.cross up zAxis) with
      | Throw msg => Throw msg
      | Ok xAxis =>
          let yAxis := Vector3D.cross zAxis xAxis in
          Ok (new (Some
                [Vector3D.x xAxis; Vector3D.x yAxis; Vector3D.x zAxis; 0;
                 Vector3D.y xAxis; Vector3D.y yAxis; Vector3D.y zAxis; 0;
                 Vector3D.z xAxis; Vector3D.z yAxis; Vector3D.z zAxis; 0;
                 - Vector3D.dot xAxis eye; - Vector3D.dot yAxis eye;
                 - Vector3D.dot zAxis eye; 1]))
      end
  end.

Definition perspective (fovY aspect near far : R) : t :=
  let f := 1 / tan (fovY / 2) in
  let rangeInv := 1 / (near - far) in
  new (Some [f / aspect; 0; 0; 0;
             0; f; 0; 0;
             0; 0; (near + far) * rangeInv; -1;
             0; 0; near * far * rangeInv * 2; 0]).

End Matrix4x4.

(** ** physics/SchwarzschildBlackHoleEquation.ts *)

Module SchwarzschildBlackHoleEquation.

Record t : Type := mk {
  stepSize : R;
  potentialCoefficient : R;
  h2 : R
}.

Definition defaultStepSize : R := 16 / 100.

(** [new SchwarzschildBlackHoleEquation(potentialCoefficient)] *)
Definition new (potentialCoefficient : R) : t := mk defaultStepSize potentialCoefficient 0.

Definition setInitialConditions (this : t) (point velocity : Vector3D.t) : t :=
  let c := Vector3D.cross point velocity in
  mk (stepSize this) (potentialCoefficient this) (Vector3D.norm2 c).

(** [functionWithStep] overwrites the coordinates of [point] and of
    [velocity]; the pair returned here is their content on return. *)
Definition functionWithStep (this : t) (point velocity : Vector3D.t) (step : R)
  : Vector3D.t * Vector3D.t :=
  let newPoint := Vector3D.add point (Vector3D.multiply velocity step) in
  let point := newPoint in
  let pointNorm2 := Vector3D.norm2 point in
  let accel :=
    Vector3D.multiply point
      (potentialCoefficient this * h2 this / Math.pow pointNorm2 (5 / 2)) in
  let newVelocity := Vector3D.add velocity (Vector3D.multiply accel step) in
  (point, newVelocity).


Definition clone (this : t) : t :=
  let equation := new (potentialCoefficient this) in
  let equation := mk (stepSize this) (potentialCoefficient equation) (h2 equation) in
  let equation := mk (stepSize equation) (potentialCoefficient equation) (h2 this) in
  equation.

End SchwarzschildBlackHoleEquation.

(** ** The compute shader [rayTracingShader] of RayProcessor.ts *)

Module Shader.

(** *** Vectors and the WGSL built-ins the shader calls *)

Record vec2 : Type := mkVec2 { x2 : R; y2 : R }.
Record vec3 : Type := mkVec3 { x : R; y : R; z : R }.
Record vec4 : Type := mkVec4 { r : R; g : R; b : R; a : R }.

Definition add2 (p q : vec2) : vec2 := mkVec2 (x2 p + x2 q) (y2 p + y2 q).
Definition scale2 (p : vec2) (s : R) : vec2 := mkVec2 (x2 p * s) (y2 p * s).
Definition dot2 (p q : vec2) : R := x2 p * x2 q + y2 p * y2 q.

Definition add3 (p q : vec3) : vec3 := mkVec3 (x p + x q) (y p + y q) (z p + z q).
Definition sub3 (p q : vec3) : vec3 := mkVec3 (x p - x q) (y p - y q) (z p - z q).
Definition scale3 (p : vec3) (s : R) : vec3 := mkVec3 (x p * s) (y p * s) (z p * s).
Definition dot (p q : vec3) : R := x p * x q + y p * y q + z p * z q.
Definition length (p : vec3) : R := sqrt (dot p p).

(** WGSL [normalize(v)] is [v / length(v)]. *)
Definition normalize (p : vec3) : vec3 :=
  mkVec3 (x p / length p) (y p / length p) (z p / length p).

(** WGSL [fract(e)] is [e - floor(e)]. *)
Definition fract (e : R) : R := e - Math.floor e.

(** WGSL [e1 % e2] on floats is [e1 - e2 * trunc(e1 / e2)]. *)
Definition fmod (e1 e2 : R) : R := e1 - e2 * Math.trunc (e1 / e2).

(** WGSL [clamp(e, low, high)] is [min(max(e, low), high)]. *)
Definition clamp (e low high : R) : R := Rmin (Rmax e low) high.

(** The literal the shader writes for pi. *)
Definition pi_literal : R := 314159 / 100000.

(** A texture together with the sampler it is read through:
    [textureSampleLevel(t, s, uv, 0.0)] is [t uv]. *)
Definition Texture : Type := vec2 -> vec4.

(** *** Uniforms *)

Record Camera : Type := mkCamera {
  position : vec3;
  lookAt : vec3;
  up : vec3;
  fov : R;
  tanFov : R
}.

Record BlackHoleParams : Type := mkBlackHoleParams {
  potentialCoefficient : R;
  stepSize : R
}.

Record Ray : Type := mkRay {
  origin : vec3;
  direction : vec3;
  h2 : R
}.

(** [width], [height], [frameCount] and [maxIterations] are [f32] slots that
    the driver fills with non-negative integers; the shader's [u32(...)]
    of them is that integer. *)
Record Uniforms : Type := mkUniforms {
  camera : Camera;
  blackHole : BlackHoleParams;
  width : nat;
  height : nat;
  frameCount : nat;
  raysPerFrame : nat;
  diskInnerRadius : R;
  diskOuterRadius : R;
  skyRadius : R;
  horizonRadius : R;
  randomSeed : R;
  maxIterations : nat;
  jitterScale : R
}.

(** *** Random numbers *)

Definition hash (p : vec2) : R :=
  fract (sin (dot2 p (mkVec2 (129898 / 10000) (78233 / 1000))) * (437585453 / 10000)).

Definition random (seed : vec2) : R := hash seed.

Definition randomInUnitDisk (seed : vec2) : vec2 :=
  let theta := random seed * 2 * pi_literal in
  let r := sqrt (random (add2 seed (mkVec2 1 2))) in
  mkVec2 (r * cos theta) (r * sin theta).

(** *** Geometry *)

Definition toSpherical (p : vec3) : vec3 :=
  let r := length p in
  if r =? 0 then mkVec3 0 0 0
  else
    let theta := acos (z p / r) in
    let phi := Math.atan2 (y p) (x p) in
    mkVec3 r theta phi.

Definition cross3 (a b : vec3) : vec3 :=
  mkVec3 (y a * z b - z a * y b)
         (z a * x b - x a * z b)
         (x a * y b - y a * x b).

Definition setInitialConditions (ray : Ray) : Ray :=
  let c := cross3 (origin ray) (direction ray) in
  mkRay (origin ray) (direction ray) (dot c c).

Definition applyEquation (uniforms : Uniforms) (ray : Ray) (step : R) : Ray :=
  let origin' := add3 (origin ray) (scale3 (direction ray) step) in
  let r2 := dot origin' origin' in
  let accel :=
    scale3 origin'
      (potentialCoefficient (blackHole uniforms) * h2 ray / Math.pow r2 (5 / 2)) in
  mkRay origin' (add3 (direction ray) (scale3 accel step)) (h2 ray).

(** *** Texture coordinates *)

Definition mapDiskCoords (uniforms : Uniforms) (r phi : R) : vec2 :=
  let innerRadius := diskInnerRadius uniforms in
  let outerRadius := diskOuterRadius uniforms in
  if (r <? innerRadius) || (r >? outerRadius) then mkVec2 0 1
  else
    let x := fmod (phi / (2 * pi_literal)) 1 in
    let x := if x <? 0 then x + 1 else x in
    let x := if x <? 5 / 10 then 49 / 100 else 51 / 100 in
    let y := (r - innerRadius) / (outerRadius - innerRadius) in
    let y := clamp y 0 1 in
    mkVec2 x y.

Definition mapSkyCoords (theta phi : R) : vec2 :=
  let x := fmod (phi / (2 * pi_literal)) 1 in
  let x := if x <? 0 then x + 1 else x in
  let y := fmod (theta / pi_literal) 1 in
  let y := if y <? 0 then y + 1 else y in
  mkVec2 x y.

(** *** Compositing *)

Definition mixColor (hitColor tintColor : vec4) : vec4 :=
  if a tintColor =? 0 then hitColor
  else
    let r' := (r hitColor + r tintColor) / 2 in
    let g' := (g hitColor + g tintColor) / 2 in
    let b' := (b hitColor + b tintColor) / 2 in
    mkVec4 (Rmin r' 1) (Rmin g' 1) (Rmin b' 1) 1.

Definition remap (x inMin inMax outMin outMax : R) : R :=
  outMin + (x - inMin) * (outMax - outMin) / (inMax - inMin).

Definition addColor (hitColor tintColor : vec4) : vec4 :=
  if a tintColor =? 0 then hitColor
  else
    let brightness :=
      (Rmax (Rmax (r tintColor) (g tintColor)) (b tintColor) +
       Rmin (Rmin (r tintColor) (g tintColor)) (b tintColor)) / 2 in
    let r' := (1 - brightness) * r hitColor + Rmax (r tintColor) 0 * 255 / 205 in
    let g' := (1 - brightness) * g hitColor + Rmax (g tintColor) 0 * 255 / 205 in
    let b' := (1 - brightness) * b hitColor + Rmax (b tintColor) 0 * 255 / 205 in
    mkVec4 (Rmin r' 1) (Rmin g' 1) (Rmin b' 1) 1.

(** *** The horizon refinement inside [traceRay] *)

(** The variables the inner [for] loop of [traceRay] updates. *)
Record Bisection : Type := mkBisection {
  stepLow : R;
  stepHigh : R;
  intersectionPoint : vec3;
  tempVelocity : vec3
}.

(** One pass through the body of [for (var i = 0u; i < 10u; i++)].
    [ray] is the ray as [applyEquation] left it: its [direction] is the
    velocity after the step. *)
Definition bisectionRound (uniforms : Uniforms) (ray : Ray) (prevPoint : vec3)
    (s : Bisection) : Bisection :=
  let stepMid := (stepLow s + stepHigh s) / 2 in
  let intersectionPoint := prevPoint in
  let tempVelocity := direction ray in
  let intersectionPoint := add3 intersectionPoint (scale3 tempVelocity stepMid) in
  let r2 := dot intersectionPoint intersectionPoint in
  let accel :=
    scale3 intersectionPoint
      (potentialCoefficient (blackHole uniforms) * h2 ray / Math.pow r2 (5 / 2)) in
  let tempVelocity := add3 tempVelocity (scale3 accel stepMid) in
  let distance := length intersectionPoint in
  if distance <? horizonRadius uniforms
  then mkBisection (stepLow s) stepMid intersectionPoint tempVelocity
  else mkBisection stepMid (stepHigh s) intersectionPoint tempVelocity.

Definition bisectionRounds (n : nat) (uniforms : Uniforms) (ray : Ray) (prevPoint : vec3)
    (step : R) : Bisection :=
  Nat.iter n (bisectionRound uniforms ray prevPoint)
    (mkBisection 0 step prevPoint (direction ray)).

Definition horizonBisection (uniforms : Uniforms) (ray : Ray) (prevPoint : vec3)
    (step : R) : Bisection :=
  bisectionRounds 10 uniforms ray prevPoint step.

(** *** The seam mitigation inside [traceRay] *)

Definition seamMitigation (diskTexture : Texture) (diskCoords : vec2) (diskColor : vec4)
  : vec4 :=
  let diskSeamLowerBound := 52 / 100 in
  let diskSeamUpperBound := 99 / 100 in
  let seamRange := (diskSeamUpperBound - diskSeamLowerBound) / 3 in
  if (x2 diskCoords >? diskSeamLowerBound)
     && (x2 diskCoords <? diskSeamLowerBound + seamRange) then
    let sampleColor := diskTexture (mkVec2 diskSeamLowerBound (y2 diskCoords)) in
    let diskColor := mixColor diskColor sampleColor in
    let diskColor := sampleColor in
    diskColor
  else if (x2 diskCoords >? diskSeamLowerBound + seamRange)
          && (x2 diskCoords <? diskSeamLowerBound + 2 * seamRange) then
    let sampleColor1 := diskTexture (mkVec2 diskSeamLowerBound (y2 diskCoords)) in
    let sampleColor2 := diskTexture (mkVec2 diskSeamUpperBound (y2 diskCoords)) in
    let sampleColor := mixColor sampleColor1 sampleColor2 in
    let diskColor := mixColor diskColor sampleColor in
    let diskColor := sampleColor in
    diskColor
  else if (x2 diskCoords >? diskSeamLowerBound + 2 * seamRange)
          && (x2 diskCoords <? diskSeamUpperBound) then
    let sampleColor := diskTexture (mkVec2 diskSeamUpperBound (y2 diskCoords)) in
    let diskColor := mixColor diskColor sampleColor in
    let diskColor := sampleColor in
    diskColor
  else diskColor.

(** *** The integration loop of [traceRay] *)

(** The variables of [traceRay] that the outer [for] loop updates. *)
Record Trace : Type := mkTrace {
  ray : Ray;
  color : vec4;
  stop : bool
}.

(** The colour the horizon branch leaves in [color], given the refined
    crossing. *)
Definition horizonColor (uniforms : Uniforms) (diskTexture : Texture)
    (intersectionPoint : vec3) (color : vec4) : vec4 :=
  let diskY := y intersectionPoint in
  let diskSqrNorm :=
    x intersectionPoint * x intersectionPoint + z intersectionPoint * z intersectionPoint in
  if (Rabs diskY <? 1 / 10)
     && (diskSqrNorm >=? diskInnerRadius uniforms * diskInnerRadius uniforms)
     && (diskSqrNorm <=? diskOuterRadius uniforms * diskOuterRadius uniforms) then
    let diskCoords :=
      mapDiskCoords uniforms (sqrt diskSqrNorm)
        (Math.atan2 (z intersectionPoint) (x intersectionPoint)) in
    let diskColor := diskTexture diskCoords in
    diskColor
  else
    let blackColor := mkVec4 0 0 0 1 in
    addColor blackColor color.

(** The disk test of one iteration: the new value of [color]. *)
Definition diskCheck (uniforms : Uniforms) (diskTexture : Texture)
    (prevPoint : vec3) (ray : Ray) (phi : R) (color : vec4) : vec4 :=
  let side :=
    if y prevPoint >? 0 then -1
    else if y prevPoint <? 0 then 1
    else 0 in
  if y (origin ray) * side >=? 0 then
    let diskSqrNorm :=
      x (origin ray) * x (origin ray) + z (origin ray) * z (origin ray) in
    if (diskSqrNorm >=? diskInnerRadius uniforms * diskInnerRadius uniforms)
       && (diskSqrNorm <=? diskOuterRadius uniforms * diskOuterRadius uniforms) then
      let diskCoords := mapDiskCoords uniforms (sqrt diskSqrNorm) phi in
      let diskColor := diskTexture diskCoords in
      let diskColor := seamMitigation diskTexture diskCoords diskColor in
      addColor diskColor color
    else color
  else color.

(** One pass through the body of [for (var iter = 0u; ...)], entered with
    [stop] false. *)
Definition iteration (uniforms : Uniforms) (diskTexture skyTexture : Texture)
    (st : Trace) : Trace :=
  let prevPoint := origin (ray st) in
  let prevSqrNorm := dot prevPoint prevPoint in
  let step := (length (origin (ray st)) / 30) * stepSize (blackHole uniforms) in
  let ray := applyEquation uniforms (ray st) step in
  let sqrNorm := dot (origin ray) (origin ray) in
  let spherical := toSpherical (origin ray) in
  let r := x spherical in
  let theta := y spherical in
  let phi := z spherical in
  if (sqrNorm <? horizonRadius uniforms * horizonRadius uniforms)
     && (prevSqrNorm >? horizonRadius uniforms * horizonRadius uniforms) then
    let s := horizonBisection uniforms ray prevPoint step in
    mkTrace ray (horizonColor uniforms diskTexture (intersectionPoint s) (color st)) true
  else
    let color := diskCheck uniforms diskTexture prevPoint ray phi (color st) in
    if sqrNorm >? skyRadius uniforms * skyRadius uniforms then
      let skyCoords := mapSkyCoords theta phi in
      let skyColor := skyTexture skyCoords in
      mkTrace ray (addColor skyColor color) true
    else mkTrace ray color false.

(** [n] is what remains of the iteration budget. *)
Fixpoint loop (n : nat) (uniforms : Uniforms) (diskTexture skyTexture : Texture)
    (st : Trace) : Trace :=
  match n with
  | O => st
  | S n' =>
      if stop st then st
      else loop n' uniforms diskTexture skyTexture
             (iteration uniforms diskTexture skyTexture st)
  end.

(** *** [traceRay] *)

Definition traceRay (uniforms : Uniforms) (diskTexture skyTexture : Texture)
    (rayIndex : nat) (pixelCoord : nat * nat) : vec4 :=
  let W := INR (width uniforms) in
  let H := INR (height uniforms) in
  let F := INR (frameCount uniforms) in
  let px := INR (fst pixelCoord) in
  let py := INR (snd pixelCoord) in
  let aspect := W / H in
  let x := (px / W - 5 / 10) * tanFov (camera uniforms) in
  let y := ((- (py / H) + 5 / 10) * aspect) * tanFov (camera uniforms) in
  let front := normalize (sub3 (lookAt (camera uniforms)) (position (camera uniforms))) in
  let left := normalize (cross3 (up (camera uniforms)) front) in
  let up := cross3 front left in
  let seed :=
    mkVec2 (px + 5 * randomSeed uniforms + 7 * F)
           (py + 3 * randomSeed uniforms + 11 * F) in
  let jitterScale := jitterScale uniforms / (1 + F * (1 / 10)) in
  let jitter := scale2 (randomInUnitDisk seed) jitterScale in
  let jitteredX := x + x2 jitter * tanFov (camera uniforms) / W in
  let jitteredY := y + y2 jitter * tanFov (camera uniforms) * aspect / H in
  let viewDir :=
    normalize (add3 (add3 (scale3 left jitteredX) (scale3 up jitteredY)) front) in
  let ray := setInitialConditions (mkRay (position (camera uniforms)) viewDir 0) in
  color (loop (maxIterations uniforms) uniforms diskTexture skyTexture
           (mkTrace ray (mkVec4 0 0 0 0) false)).

(** *** The entry point [main] *)

(** What the shader can write: the storage buffer bound at 6 and the
    storage texture bound at 1.  [textureStore] is recorded with the value
    it is handed. *)
Record Memory : Type := mkMemory {
  accumulationBuffer : nat -> R;
  outputTexture : nat * nat -> vec4
}.

Definition store (buffer : nat -> R) (i : nat) (v : R) : nat -> R :=
  fun j => if Nat.eqb j i then v else buffer j.

Definition textureStore (t : nat * nat -> vec4) (coords : nat * nat) (v : vec4)
  : nat * nat -> vec4 :=
  fun c => if Nat.eqb (fst c) (fst coords) && Nat.eqb (snd c) (snd coords) then v else t c.

Definition pixelIndexOf (uniforms : Uniforms) (global_id : nat * nat) : nat :=
  ((snd global_id * width uniforms + fst global_id) * 4)%nat.

(** One invocation, for [global_id.xy]. *)
Definition main (uniforms : Uniforms) (diskTexture skyTexture : Texture)
    (global_id : nat * nat) (mem : Memory) : Memory :=
  if Nat.leb (width uniforms) (fst global_id) || Nat.leb (height uniforms) (snd global_id)
  then mem
  else
    let pixelIndex := pixelIndexOf uniforms global_id in
    let rayColor :=
      traceRay uniforms diskTexture skyTexture
        (fst global_id + snd global_id * width uniforms)%nat global_id in
    if INR (frameCount uniforms) >? 0 then
      let prevR := accumulationBuffer mem pixelIndex in
      let prevG := accumulationBuffer mem (pixelIndex + 1)%nat in
      let prevB := accumulationBuffer mem (pixelIndex + 2)%nat in
      let prevA := accumulationBuffer mem (pixelIndex + 3)%nat in
      let weight := INR (frameCount uniforms) / (INR (frameCount uniforms) + 1) in
      let r' := prevR * weight + r rayColor * (1 - weight) in
      let g' := prevG * weight + g rayColor * (1 - weight) in
      let b' := prevB * weight + b rayColor * (1 - weight) in
      let a' := prevA * weight + a rayColor * (1 - weight) in
      let buf := accumulationBuffer mem in
      let buf := store buf pixelIndex r' in
      let buf := store buf (pixelIndex + 1)%nat g' in
      let buf := store buf (pixelIndex + 2)%nat b' in
      let buf := store buf (pixelIndex + 3)%nat a' in
      mkMemory buf (textureStore (outputTexture mem) global_id (mkVec4 r' g' b' a'))
    else
      let buf := accumulationBuffer mem in
      let buf := store buf pixelIndex (r rayColor) in
      let buf := store buf (pixelIndex + 1)%nat (g rayColor) in
      let buf := store buf (pixelIndex + 2)%nat (b rayColor) in
      let buf := store buf (pixelIndex + 3)%nat (a rayColor) in
      mkMemory buf (textureStore (outputTexture mem) global_id rayColor).

(** The invocations of [dispatchWorkgroups(countX, countY)] with workgroup
    size 16 x 16.  Each one touches only the four floats and the texel of
    its own pixel, so running them one after the other, in any order, gives
    what the parallel dispatch gives. *)
Definition invocations (countX countY : nat) : list (nat * nat) :=
  list_prod (seq 0 (16 * countX)) (seq 0 (16 * countY)).

Definition dispatchWorkgroups (uniforms : Uniforms) (diskTexture skyTexture : Texture)
    (countX countY : nat) (mem : Memory) : Memory :=
  fold_left (fun m id => main uniforms diskTexture skyTexture id m)
    (invocations countX countY) mem.

End Shader.

(** ** The bitwise operators of JavaScript *)

(** [&], [|], [<<] and [>>] convert their operands with ToInt32: the number
    is truncated towards zero and wrapped modulo 2^32 into the range from
    -2^31 to 2^31 - 1.  The result of [<<] is wrapped again, and a shift
    count is taken modulo 32. *)
Module Int32.

Definition wrap (z : Z) : Z :=
  let m := (z mod 4294967296)%Z in
  if (m <? 2147483648)%Z then m else (m - 4294967296)%Z.

Definition ToInt32 (x : R) : Z :=
  wrap (if Rle_dec 0 x then Zfloor x else (- Zfloor (- x))%Z).

Definition and (x y : R) : R := IZR (Z.land (ToInt32 x) (ToInt32 y)).

Definition or (x y : R) : R := IZR (Z.lor (ToInt32 x) (ToInt32 y)).

Definition shiftLeft (x : R) (count : Z) : R :=
  IZR (wrap (Z.shiftl (ToInt32 x) (count mod 32))).

Definition shiftRight (x : R) (count : Z) : R :=
  IZR (Z.shiftr (ToInt32 x) (count mod 32)).

End Int32.

(** ** ArgbColor.ts and the colour functions of Utils.ts *)

Module ArgbColor.

Record t : Type := mk { r : R; g : R; b : R; a : R }.

Definition Transparent : t := mk 0 0 0 0.

Definition equals (this other : t) : bool :=
  (r this =? r other) && (g this =? g other) && (b this =? b other) && (a this =? a other).

Definition Black : t := mk 0 0 0 255.
Definition White : t := mk 255 255 255 255.

(** The argument of [fromArgb]: a number or a [Uint8ClampedArray]. *)
Inductive Argb : Type :=
| Number (argb : R)
| Uint8ClampedArray (argb : list R).

(** An index beyond the end of the array reads [undefined], and the
    constructor replaces an [undefined] argument by its default: 0 for the
    three colours and 255 for alpha. *)
Definition fromArgb (argb : Argb) : t :=
  match argb with
  | Number argb =>
      let a := Int32.and (Int32.shiftRight argb 24) 255 in
      let r := Int32.and (Int32.shiftRight argb 16) 255 in
      let g := Int32.and (Int32.shiftRight argb 8) 255 in
      let b := Int32.and argb 255 in
      mk r g b a
  | Uint8ClampedArray argb =>
      mk (nth 0 argb 0) (nth 1 argb 0) (nth 2 argb 0) (nth 3 argb 255)
  end.

Definition toArgb (this : t) : R :=
  Int32.or
    (Int32.or
       (Int32.or (Int32.shiftLeft (Int32.and (a this) 255) 24)
                 (Int32.shiftLeft (Int32.and (r this) 255) 16))
       (Int32.shiftLeft (Int32.and (g this) 255) 8))
    (Int32.and (b this) 255).

Definition clone (this : t) : t := mk (r this) (g this) (b this) (a this).

End ArgbColor.

Module Utils.

Definition getBrightness (color : ArgbColor.t) : R :=
  let r := ArgbColor.r color / 255 in
  let g := ArgbColor.g color / 255 in
  let b := ArgbColor.b color / 255 in
  let max := Rmax (Rmax r g) b in
  let min := Rmin (Rmin r g) b in
  (max + min) / 2.

Definition cap (x max : R) : R := if x >? max then max else x.

Definition capMin (x min : R) : R := if x <? min then min else x.

Definition addColor (hitColor tintColor : ArgbColor.t) : ArgbColor.t :=
  if ArgbColor.equals tintColor ArgbColor.Transparent then hitColor
  else
    let brightness := getBrightness tintColor in
    let r :=
      cap (Math.floor ((1 - brightness) * ArgbColor.r hitColor
                       + capMin (ArgbColor.r tintColor) 0 * 255 / 205)) 255 in
    let g :=
      cap (Math.floor ((1 - brightness) * ArgbColor.g hitColor
                       + capMin (ArgbColor.g tintColor) 0 * 255 / 205)) 255 in
    let b :=
      cap (Math.floor ((1 - brightness) * ArgbColor.b hitColor
                       + capMin (ArgbColor.b tintColor) 0 * 255 / 205)) 255 in
    ArgbColor.mk r g b 255.

Definition toSpherical (x y z : R) : Spherical.t :=
  let r := sqrt (x * x + y * y + z * z) in
  if r =? 0 then Spherical.mk 0 0 0
  else
    let theta := acos (z / r) in
    let phi := Math.atan2 y x in
    Spherical.mk r theta phi.

Definition toCartesian (r theta phi : R) : Vector3D.t :=
  let x := r * sin theta * cos phi in
  let y := r * sin theta * sin phi in
  let z := r * cos theta in
  Vector3D.mk x y z.

Definition transform (v : Vector3D.t) (matrix : Matrix4x4.t) : Vector3D.t :=
  Matrix4x4.transform matrix v.

(** JavaScript's [%] on numbers is the remainder of the truncated division,
    as WGSL's is: [Shader.fmod]. *)
Definition doubleMod (n m : R) : R := Shader.fmod (Shader.fmod n m + m) m.

End Utils.

(** ** mappings/DiscMapping.ts and mappings/SphericalMapping.ts *)

(** The objects [{ x, y }] and [{ u, v }] that the mappings return. *)
Module TextureCoordinates.

Record t : Type := mk { x : R; y : R }.

End TextureCoordinates.

Module DiscMapping.

Record t : Type := mk { rMin : R; rMax : R; sizeX : R; sizeY : R }.

Definition new (rMin rMax sizeX sizeY : R) : result t :=
  if (sizeX =? 0) || (sizeY =? 0) then Throw "Invalid texture dimensions"
  else Ok (mk rMin rMax sizeX sizeY).

Definition map (this : t) (r theta phi : R) : TextureCoordinates.t :=
  if (r <? rMin this) || (r >? rMax this) then TextureCoordinates.mk 0 (sizeY this - 1)
  else
    let x := Shader.fmod (Math.floor ((phi / (2 * PI)) * sizeX this)) (sizeX this) in
    let x := if x <? 0 then sizeX this + x else x in
    let y := Math.floor (((r - rMin this) / (rMax this - rMin this)) * sizeY this) in
    let y := if y >? sizeY this - 1 then sizeY this - 1 else y in
    TextureCoordinates.mk x y.

End DiscMapping.

Module SphericalMapping.

Record t : Type := mk { sizeX : R; sizeY : R }.

Definition new (sizeX sizeY : R) : result t :=
  if (sizeX =? 0) || (sizeY =? 0) then Throw "Invalid texture dimensions"
  else Ok (mk sizeX sizeY).

Definition map (this : t) (r theta phi : R) : TextureCoordinates.t :=
  let x := Shader.fmod (Math.floor ((phi / (2 * PI)) * sizeX this)) (sizeX this) in
  let x := if x <? 0 then sizeX this + x else x in
  let y := Shader.fmod (Math.floor ((theta / PI) * sizeY this)) (sizeY this) in
  let y := if y <? 0 then sizeY this + y else y in
  TextureCoordinates.mk x y.

(** [Math.asin] is [asin] on the arguments between -1 and 1; beyond them
    the source computes with NaN. *)
Definition mapCartesian (this : t) (x y z : R) : TextureCoordinates.t :=
  let u :=
    Shader.fmod (Math.floor ((5 / 10 + Math.atan2 z x / (2 * PI)) * sizeX this))
      (sizeX this) in
  let u := if u <? 0 then sizeX this + u else u in
  let v :=
    Shader.fmod (Math.floor ((5 / 10 - asin y / PI) * sizeY this)) (sizeY this) in
  let v := if v <? 0 then sizeY this + v else v in
  TextureCoordinates.mk u v.

End SphericalMapping.

(** ** Scene.ts and the hitables *)

(** The classes that implement [IHitable]; [updateUniforms] looks at
    [constructor.name] only. *)
Inductive IHitable : Type :=
| Disk (radiusInner radiusOuter : R)
| TexturedDisk (radiusInner radiusOuter : R)
| Horizon
| Sky (radius textureOffset : R).

Definition constructor_name (h : IHitable) : string :=
  match h with
  | Disk _ _ => "Disk"
  | TexturedDisk _ _ => "TexturedDisk"
  | Horizon => "Horizon"
  | Sky _ _ => "Sky"
  end.

Record Scene : Type := mkScene {
  cameraPosition : Vector3D.t;
  cameraLookAt : Vector3D.t;
  upVector : Vector3D.t;
  fov : R;
  hitables : list IHitable;
  schwarzschildEquation : SchwarzschildBlackHoleEquation.t
}.

(** ** The class [Scene] of Scene.ts, with its spherical camera fields *)

Module SceneClass.

(** [scene] holds the fields that the processor reads. *)
Record t : Type := mk {
  scene : Scene;
  cameraDistance : R;
  cameraAngleHorz : R;
  cameraAngleVert : R;
  cameraTilt : R
}.

Definition new (cameraPosition cameraLookAt upVector : Vector3D.t) (fov : R)
    (hitables : list IHitable) (curvatureCoefficient : R) : t :=
  let spherical :=
    Utils.toSpherical (Vector3D.x cameraPosition) (Vector3D.y cameraPosition)
      (Vector3D.z cameraPosition) in
  mk (mkScene cameraPosition cameraLookAt upVector fov hitables
        (SchwarzschildBlackHoleEquation.new curvatureCoefficient))
     (Spherical.r spherical)
     (Spherical.phi spherical - 1 / 10)
     (Spherical.theta spherical)
     0.

Definition clone (this : t) : t :=
  new (Vector3D.clone (cameraPosition (scene this)))
      (Vector3D.clone (cameraLookAt (scene this)))
      (Vector3D.clone (upVector (scene this)))
      (fov (scene this))
      (hitables (scene this))
      (SchwarzschildBlackHoleEquation.potentialCoefficient
         (schwarzschildEquation (scene this))).

Definition updateCameraFromSpherical (this : t) : t :=
  let x := cameraDistance this * sin (cameraAngleVert this) * cos (cameraAngleHorz this) in
  let y := cameraDistance this * cos (cameraAngleVert this) in
  let z := cameraDistance this * sin (cameraAngleVert this) * sin (cameraAngleHorz this) in
  mk (mkScene (Vector3D.mk x y z) (cameraLookAt (scene this)) (upVector (scene this))
        (fov (scene this)) (hitables (scene this)) (schwarzschildEquation (scene this)))
     (cameraDistance this) (cameraAngleHorz this) (cameraAngleVert this) (cameraTilt this).

(** What [App.updateCameraPosition] does to the scene: the three slider
    values are stored, then the camera is placed. *)
Definition App_updateCameraPosition (this : t) (distance angleHorz angleVert : R) : t :=
  updateCameraFromSpherical (mk (scene this) distance angleHorz angleVert (cameraTilt this)).

End SceneClass.

(** ** The class [Disk] of hitables/Disk.ts *)

Module DiskClass.

(** The [while (true)] loop of [intersectionSearch], entered with the given
    [stepLow] and [stepHigh]; [fuel] bounds the number of passes, and
    [None] is a loop that has not left within them. *)
Fixpoint intersectionSearchLoop (fuel : nat) (side : R) (prevPoint velocity : Vector3D.t)
    (equation : SchwarzschildBlackHoleEquation.t) (stepLow stepHigh : R)
  : option Vector3D.t :=
  match fuel with
  | O => None
  | S fuel' =>
      let stepMid := (stepLow + stepHigh) / 2 in
      let newPoint := Vector3D.clone prevPoint in
      let tempVelocity := Vector3D.clone velocity in
      let newPoint :=
        fst (SchwarzschildBlackHoleEquation.functionWithStep equation newPoint tempVelocity
               stepMid) in
      if Rabs (stepHigh - stepLow) <? 1 / 100000 then Some newPoint
      else if side * Vector3D.y newPoint >? 0 then
        intersectionSearchLoop fuel' side prevPoint velocity equation stepLow stepMid
      else
        intersectionSearchLoop fuel' side prevPoint velocity equation stepMid stepHigh
  end.

Definition intersectionSearch (fuel : nat) (side : R) (prevPoint velocity : Vector3D.t)
    (equation : SchwarzschildBlackHoleEquation.t) : option Vector3D.t :=
  let stepLow := 0 in
  let stepHigh := SchwarzschildBlackHoleEquation.stepSize equation in
  intersectionSearchLoop fuel side prevPoint velocity equation stepLow stepHigh.

End DiskClass.

(** ** The class [RayProcessor] of RayProcessor.ts *)

Module Driver.

(** *** The GPU objects the processor owns *)

(** Textures are named by the order of their creation. *)
Definition TextureId : Type := nat.

(** The texture views a compute bind group holds (bindings 1, 2 and 3). *)
Record GPUBindGroup : Type := mkBindGroup {
  boundOutput : TextureId;
  boundDisk : TextureId;
  boundSky : TextureId
}.

(** The calls on textures and bind groups, as the device receives them. *)
Inductive GPUCall : Type :=
| CreateTexture (id : TextureId)
| WriteTexture (id : TextureId)
| CopyExternalImageToTexture (id : TextureId)
| Destroy (id : TextureId)
| CreateBindGroup (bg : GPUBindGroup).

Record GPUDevice : Type := mkDevice {
  nextTexture : TextureId;
  destroyed : list TextureId;
  content : TextureId -> Shader.Texture;
  memory : Shader.Memory;
  calls : list GPUCall
}.

Definition setContent (content : TextureId -> Shader.Texture) (id : TextureId)
    (t : Shader.Texture) : TextureId -> Shader.Texture :=
  fun j => if Nat.eqb j id then t else content j.

Definition isDestroyed (d : GPUDevice) (id : TextureId) : bool :=
  existsb (Nat.eqb id) (destroyed d).

(** [device.createTexture(...)]: a fresh texture, all texels zero. *)
Definition device_createTexture (d : GPUDevice) : TextureId * GPUDevice :=
  let id := nextTexture d in
  (id, mkDevice (S id) (destroyed d)
         (setContent (content d) id (fun _ => Shader.mkVec4 0 0 0 0))
         (memory d) (calls d ++ [CreateTexture id])).

(** [device.queue.writeTexture] and [copyExternalImageToTexture]. *)
Definition queue_writeTexture (d : GPUDevice) (id : TextureId) (t : Shader.Texture)
  : GPUDevice :=
  mkDevice (nextTexture d) (destroyed d) (setContent (content d) id t)
    (memory d) (calls d ++ [WriteTexture id]).

Definition queue_copyExternalImageToTexture (d : GPUDevice) (id : TextureId)
    (source : Shader.Texture) : GPUDevice :=
  mkDevice (nextTexture d) (destroyed d) (setContent (content d) id source)
    (memory d) (calls d ++ [CopyExternalImageToTexture id]).

(** [texture.destroy()] *)
Definition texture_destroy (d : GPUDevice) (id : TextureId) : GPUDevice :=
  mkDevice (nextTexture d) (id :: destroyed d) (content d) (memory d)
    (calls d ++ [Destroy id]).

Definition device_createBindGroup (d : GPUDevice) (bg : GPUBindGroup) : GPUDevice :=
  mkDevice (nextTexture d) (destroyed d) (content d) (memory d)
    (calls d ++ [CreateBindGroup bg]).

Definition setMemory (d : GPUDevice) (m : Shader.Memory) : GPUDevice :=
  mkDevice (nextTexture d) (destroyed d) (content d) m (calls d).

(** The two formats a canvas can prefer; the placeholder textures are
    created in the canvas format from four bytes. *)
Inductive CanvasFormat : Type := bgra8unorm | rgba8unorm.

Definition texel (format : CanvasFormat) (b0 b1 b2 b3 : R) : Shader.vec4 :=
  match format with
  | rgba8unorm => Shader.mkVec4 (b0 / 255) (b1 / 255) (b2 / 255) (b3 / 255)
  | bgra8unorm => Shader.mkVec4 (b2 / 255) (b1 / 255) (b0 / 255) (b3 / 255)
  end.

(** *** The processor *)

Record RayProcessor : Type := mkRayProcessor {
  width : nat;
  height : nat;
  scene : Scene;
  device : GPUDevice;
  canvasFormat : CanvasFormat;
  uniformBindGroup : GPUBindGroup;
  outputTexture : TextureId;
  diskTexture : TextureId;
  skyTexture : TextureId;
  frameCount : nat;
  maxIterations : nat;
  jitterScale : R
}.

Definition setDevice (this : RayProcessor) (d : GPUDevice) : RayProcessor :=
  mkRayProcessor (width this) (height this) (scene this) d (canvasFormat this)
    (uniformBindGroup this) (outputTexture this) (diskTexture this) (skyTexture this)
    (frameCount this) (maxIterations this) (jitterScale this).

Definition setFrameCount (this : RayProcessor) (n : nat) : RayProcessor :=
  mkRayProcessor (width this) (height this) (scene this) (device this) (canvasFormat this)
    (uniformBindGroup this) (outputTexture this) (diskTexture this) (skyTexture this)
    n (maxIterations this) (jitterScale this).

(** [createBindGroup()]: views of the textures the fields name now. *)
Definition createBindGroup (this : RayProcessor) : GPUBindGroup * RayProcessor :=
  let bg := mkBindGroup (outputTexture this) (diskTexture this) (skyTexture this) in
  (bg, setDevice this (device_createBindGroup (device this) bg)).

Definition setUniformBindGroup (this : RayProcessor) (bg : GPUBindGroup) : RayProcessor :=
  mkRayProcessor (width this) (height this) (scene this) (device this) (canvasFormat this)
    bg (outputTexture this) (diskTexture this) (skyTexture this)
    (frameCount this) (maxIterations this) (jitterScale this).

Definition zeroMemory : Shader.Memory :=
  Shader.mkMemory (fun _ => 0) (fun _ => Shader.mkVec4 0 0 0 0).

(** A device on which nothing has been created yet. *)
Definition freshDevice : GPUDevice :=
  mkDevice 0%nat [] (fun _ _ => Shader.mkVec4 0 0 0 0) zeroMemory [].

(** The constructor: output texture, then the 1x1 placeholder disk and sky
    textures, then the bind group. *)
Definition new (width height : nat) (scene : Scene) (device : GPUDevice)
    (canvasFormat : CanvasFormat) : RayProcessor :=
  let '(outputTexture, device) := device_createTexture device in
  let device := setMemory device zeroMemory in
  let '(diskTexture, device) := device_createTexture device in
  let device :=
    queue_writeTexture device diskTexture (fun _ => texel canvasFormat 255 255 255 255) in
  let '(skyTexture, device) := device_createTexture device in
  let device :=
    queue_writeTexture device skyTexture (fun _ => texel canvasFormat 0 0 255 255) in
  let this :=
    mkRayProcessor width height scene device canvasFormat
      (mkBindGroup outputTexture diskTexture skyTexture)
      outputTexture diskTexture skyTexture 0%nat (Z.to_nat 100000) 20 in
  let '(bg, this) := createBindGroup this in
  setUniformBindGroup this bg.

(** *** Uniforms *)

Definition toVec3 (v : Vector3D.t) : Shader.vec3 :=
  Shader.mkVec3 (Vector3D.x v) (Vector3D.y v) (Vector3D.z v).

(** [updateUniforms(raysPerFrame)]; [randomSeed] is what
    [Math.random() * 1000] returned.  The two [find] calls look for a disk
    and a sky among the hitables, and their results are not used: the radii
    are the literals below.

    The uniforms are what the shader reads from the [Float32Array] that the
    method writes.  In the WGSL layout of [struct Camera] the vector [up]
    occupies bytes 32 to 43, so [fov] lies at byte 44 and [tanFov] at byte
    48.  The array holds the fourth, zero, entry of its "Camera up" row at
    byte 44, [fovRadians] at byte 48 and [tanFov] at byte 52, which is
    padding of the struct: the shader reads [fov = 0] and
    [tanFov = fovRadians], and the tangent that the method computes
    reaches no field.  All other entries lie where the struct has their
    fields. *)
Definition updateUniforms (this : RayProcessor) (raysPerFrame : nat) (randomSeed : R)
  : Shader.Uniforms :=
  let fovRadians := (fov (scene this) * PI) / 180 in
  let tanFov := tan (fovRadians / 2) in
  let diskInnerRadius := 26 / 10 in
  let diskOuterRadius := 12 in
  let disk :=
    find (fun h => String.eqb (constructor_name h) "TexturedDisk"
                   || String.eqb (constructor_name h) "Disk")
         (hitables (scene this)) in
  let skyRadius := 30 in
  let sky :=
    find (fun h => String.eqb (constructor_name h) "Sky") (hitables (scene this)) in
  Shader.mkUniforms
    (Shader.mkCamera (toVec3 (cameraPosition (scene this)))
       (toVec3 (cameraLookAt (scene this)))
       (toVec3 (upVector (scene this)))
       0 fovRadians)
    (Shader.mkBlackHoleParams
       (SchwarzschildBlackHoleEquation.potentialCoefficient
          (schwarzschildEquation (scene this)))
       (SchwarzschildBlackHoleEquation.stepSize (schwarzschildEquation (scene this))))
    (width this) (height this) (frameCount this) raysPerFrame
    diskInnerRadius diskOuterRadius skyRadius 2
    randomSeed (maxIterations this) (jitterScale this).

(** *** Frames *)

(** [Math.ceil(n / 16)] *)
Definition ceilDiv16 (n : nat) : nat := ((n + 15) / 16)%nat.

(** The device refuses a submission that uses a destroyed texture. *)
Definition bindGroupUsable (d : GPUDevice) (bg : GPUBindGroup) : bool :=
  negb (isDestroyed d (boundOutput bg))
  && negb (isDestroyed d (boundDisk bg))
  && negb (isDestroyed d (boundSky bg)).

(** [processFrame(raysPerFrame)]: the new state and the number returned.
    The render pass that copies the output texture to the canvas reads
    [memory] and changes nothing here. *)
Definition processFrame (this : RayProcessor) (raysPerFrame : nat) (randomSeed : R)
  : RayProcessor * nat :=
  let uniforms := updateUniforms this raysPerFrame randomSeed in
  let bg := uniformBindGroup this in
  let d := device this in
  let d :=
    if bindGroupUsable d bg then
      setMemory d
        (Shader.dispatchWorkgroups uniforms (content d (boundDisk bg))
           (content d (boundSky bg))
           (ceilDiv16 (width this)) (ceilDiv16 (height this)) (memory d))
    else d in
  let this := setDevice this d in
  let this := setFrameCount this (S (frameCount this)) in
  (this, (width this * height this)%nat).

(** *** The mutators *)

Definition reset (this : RayProcessor) : RayProcessor := setFrameCount this 0%nat.

(** [resize(width, height)]: the old output texture is destroyed, a new one
    and a new accumulation buffer are created (both start out zero), then
    the bind group, and the frame counter is set to zero. *)
Definition resize (this : RayProcessor) (width height : nat) : RayProcessor :=
  let d := texture_destroy (device this) (outputTexture this) in
  let '(outputTexture, d) := device_createTexture d in
  let d := setMemory d zeroMemory in
  let this :=
    mkRayProcessor width height (scene this) d (canvasFormat this)
      (uniformBindGroup this) outputTexture (diskTexture this) (skyTexture this)
      (frameCount this) (maxIterations this) (jitterScale this) in
  let '(bg, this) := createBindGroup this in
  let this := setUniformBindGroup this bg in
  setFrameCount this 0%nat.

Definition setScene (this : RayProcessor) (scene : Scene) : RayProcessor :=
  let this :=
    mkRayProcessor (width this) (height this) scene (device this) (canvasFormat this)
      (uniformBindGroup this) (outputTexture this) (diskTexture this) (skyTexture this)
      (frameCount this) (maxIterations this) (jitterScale this) in
  reset this.

Definition setDiskTexture (this : RayProcessor) (id : TextureId) : RayProcessor :=
  mkRayProcessor (width this) (height this) (scene this) (device this) (canvasFormat this)
    (uniformBindGroup this) (outputTexture this) id (skyTexture this)
    (frameCount this) (maxIterations this) (jitterScale this).

Definition setSkyTexture (this : RayProcessor) (id : TextureId) : RayProcessor :=
  mkRayProcessor (width this) (height this) (scene this) (device this) (canvasFormat this)
    (uniformBindGroup this) (outputTexture this) (diskTexture this) id
    (frameCount this) (maxIterations this) (jitterScale this).

(** [loadDiskTexture(imageUrl)].  [fetched] is the outcome of everything
    the method awaits before it touches the device: the fetch, the decoding
    and the drawing of the mirrored copies into the canvas give the bitmap
    [newImageBitmap], or one of them throws.  What follows the last [await]
    runs without interruption. *)
Definition loadDiskTexture (this : RayProcessor) (fetched : result Shader.Texture)
  : result RayProcessor :=
  match fetched with
  | Throw msg => Throw msg
  | Ok newImageBitmap =>
      let '(texture, d) := device_createTexture (device this) in
      let d := queue_copyExternalImageToTexture d texture newImageBitmap in
      let d := texture_destroy d (diskTexture this) in
      let this := setDevice this d in
      let this := setDiskTexture this texture in
      let '(bg, this) := createBindGroup this in
      let this := setUniformBindGroup this bg in
      Ok (reset this)
  end.

(** [loadSkyTexture(imageUrl)], with [fetched] the decoded image. *)
Definition loadSkyTexture (this : RayProcessor) (fetched : result Shader.Texture)
  : result RayProcessor :=
  match fetched with
  | Throw msg => Throw msg
  | Ok imageBitmap =>
      let '(texture, d) := device_createTexture (device this) in
      let d := queue_copyExternalImageToTexture d texture imageBitmap in
      let d := texture_destroy d (skyTexture this) in
      let this := setDevice this d in
      let this := setSkyTexture this texture in
      let '(bg, this) := createBindGroup this in
      let this := setUniformBindGroup this bg in
      Ok (reset this)
  end.

Definition getFrameCount (this : RayProcessor) : nat := frameCount this.

Definition setMaxIterations (this : RayProcessor) (iterations : nat) : RayProcessor :=
  mkRayProcessor (width this) (height this) (scene this) (device this) (canvasFormat this)
    (uniformBindGroup this) (outputTexture this) (diskTexture this) (skyTexture this)
    (frameCount this) iterations (jitterScale this).

Definition setJitterScale (this : RayProcessor) (scale : R) : RayProcessor :=
  mkRayProcessor (width this) (height this) (scene this) (device this) (canvasFormat this)
    (uniformBindGroup this) (outputTexture this) (diskTexture this) (skyTexture this)
    (frameCount this) (maxIterations this) scale.

(** What [App.updateParameters] does, seen from the processor.  The scene
    the processor holds is the object the application holds ([setScene]
    received that very object), so the three assignments to the scene's
    fields reach the processor; then come the two setters and [reset]. *)
Definition App_updateParameters (this : RayProcessor)
    (potentialCoefficient stepSize fov : R) (qualityValue : nat) : RayProcessor :=
  let sc := scene this in
  let eq := schwarzschildEquation sc in
  let eq :=
    SchwarzschildBlackHoleEquation.mk stepSize potentialCoefficient
      (SchwarzschildBlackHoleEquation.h2 eq) in
  let sc :=
    mkScene (cameraPosition sc) (cameraLookAt sc) (upVector sc) fov (hitables sc) eq in
  let this :=
    mkRayProcessor (width this) (height this) sc (device this) (canvasFormat this)
      (uniformBindGroup this) (outputTexture this) (diskTexture this) (skyTexture this)
      (frameCount this) (maxIterations this) (jitterScale this) in
  let this := setMaxIterations this (Z.to_nat (20000 + Z.of_nat qualityValue * 5000)) in
  let this := setJitterScale this 20 in
  reset this.

End Driver.

(** ** Notions the statements below use *)

(** [occursAfter p q cs]: some call that satisfies [q] comes later in [cs]
    than some call that satisfies [p]. *)
Fixpoint occursAfter (p q : Driver.GPUCall -> bool) (cs : list Driver.GPUCall) : bool :=
  match cs with
  | [] => false
  | c :: cs' => (p c && existsb q cs') || occursAfter p q cs'
  end.

Definition isDestroyOf (id : Driver.TextureId) (c : Driver.GPUCall) : bool :=
  match c with
  | Driver.Destroy id' => Nat.eqb id' id
  | _ => false
  end.

(** A bind group is created that holds a view of texture [id]. *)
Definition isBindGroupOver (id : Driver.TextureId) (c : Driver.GPUCall) : bool :=
  match c with
  | Driver.CreateBindGroup bg =>
      Nat.eqb (Driver.boundOutput bg) id
      || Nat.eqb (Driver.boundDisk bg) id
      || Nat.eqb (Driver.boundSky bg) id
  | _ => false
  end.

(** The processor's bind group is the one over its current textures; these
    are three different textures, created and not destroyed; and only
    textures that were created have been destroyed. *)
Definition consistent (this : Driver.RayProcessor) : Prop :=
  let d := Driver.device this in
  Driver.uniformBindGroup this
  = Driver.mkBindGroup (Driver.outputTexture this) (Driver.diskTexture this)
      (Driver.skyTexture this)
  /\ Driver.bindGroupUsable d (Driver.uniformBindGroup this) = true
  /\ (Driver.outputTexture this <> Driver.diskTexture this
      /\ Driver.outputTexture this <> Driver.skyTexture this
      /\ Driver.diskTexture this <> Driver.skyTexture this)
  /\ (Driver.outputTexture this < Driver.nextTexture d
      /\ Driver.diskTexture this < Driver.nextTexture d
      /\ Driver.skyTexture this < Driver.nextTexture d)%nat
  /\ (forall id, In id (Driver.destroyed d) -> (id < Driver.nextTexture d)%nat).

(** The processor with the hitable list of its scene replaced. *)
Definition withHitables (this : Driver.RayProcessor) (hs : list IHitable)
  : Driver.RayProcessor :=
  let sc := Driver.scene this in
  Driver.mkRayProcessor (Driver.width this) (Driver.height this)
    (mkScene (cameraPosition sc) (cameraLookAt sc) (upVector sc) (fov sc) hs
       (schwarzschildEquation sc))
    (Driver.device this) (Driver.canvasFormat this) (Driver.uniformBindGroup this)
    (Driver.outputTexture this) (Driver.diskTexture this) (Driver.skyTexture this)
    (Driver.frameCount this) (Driver.maxIterations this) (Driver.jitterScale this).

(** The three colour channels lie between 0 and 1. *)
Definition inRange (v : Shader.vec4) : Prop :=
  0 <= Shader.r v <= 1 /\ 0 <= Shader.g v <= 1 /\ 0 <= Shader.b v <= 1.

(** The channels of a colour, numbered as they lie in the accumulation
    buffer. *)
Definition channel (c : nat) (v : Shader.vec4) : R :=
  match c with
  | 0%nat => Shader.r v
  | 1%nat => Shader.g v
  | 2%nat => Shader.b v
  | _ => Shader.a v
  end.

(** [n] calls of [processFrame] in a row; the call made when the frame
    counter is [F] draws the seed [seeds F]. *)
Fixpoint frames (n : nat) (raysPerFrame : nat) (seeds : nat -> R)
    (this : Driver.RayProcessor) : Driver.RayProcessor :=
  match n with
  | O => this
  | S n' =>
      let this' := frames n' raysPerFrame seeds this in
      fst (Driver.processFrame this' raysPerFrame (seeds (Driver.frameCount this')))
  end.

(** The value [main] leaves for one channel, given the value it found. *)
Definition blend (F : nat) (prev rayChannel : R) : R :=
  if INR F >? 0 then
    prev * (INR F / (INR F + 1)) + rayChannel * (1 - INR F / (INR F + 1))
  else rayChannel.

(** What a run of frames leaves as it was. *)
Definition sameSetup (p q : Driver.RayProcessor) : Prop :=
  Driver.scene p = Driver.scene q
  /\ Driver.width p = Driver.width q
  /\ Driver.height p = Driver.height q
  /\ Driver.maxIterations p = Driver.maxIterations q
  /\ Driver.jitterScale p = Driver.jitterScale q
  /\ Driver.uniformBindGroup p = Driver.uniformBindGroup q
  /\ Driver.destroyed (Driver.device p) = Driver.destroyed (Driver.device q)
  /\ Driver.content (Driver.device p) = Driver.content (Driver.device q).

(** The colour [traceRay] computes at pixel (px, py) in the frame drawn when
    the counter is [F]. *)
Definition frameRayColor (this : Driver.RayProcessor) (raysPerFrame : nat)
    (seeds : nat -> R) (px py F : nat) : Shader.vec4 :=
  Shader.traceRay
    (Driver.updateUniforms (Driver.setFrameCount this F) raysPerFrame (seeds F))
    (Driver.content (Driver.device this) (Driver.diskTexture this))
    (Driver.content (Driver.device this) (Driver.skyTexture this))
    (px + py * Driver.width this)%nat (px, py).

(** The ray with which [traceRay] enters its loop: the camera basis, the
    jittered position on the image plane, the view direction and the
    initial conditions. *)
Definition primaryRay (uniforms : Shader.Uniforms) (pixelCoord : nat * nat) : Shader.Ray :=
  let W := INR (Shader.width uniforms) in
  let H := INR (Shader.height uniforms) in
  let F := INR (Shader.frameCount uniforms) in
  let px := INR (fst pixelCoord) in
  let py := INR (snd pixelCoord) in
  let aspect := W / H in
  let x := (px / W - 5 / 10) * Shader.tanFov (Shader.camera uniforms) in
  let y := ((- (py / H) + 5 / 10) * aspect) * Shader.tanFov (Shader.camera uniforms) in
  let front :=
    Shader.normalize
      (Shader.sub3 (Shader.lookAt (Shader.camera uniforms))
         (Shader.position (Shader.camera uniforms))) in
  let left := Shader.normalize (Shader.cross3 (Shader.up (Shader.camera uniforms)) front) in
  let up := Shader.cross3 front left in
  let seed :=
    Shader.mkVec2 (px + 5 * Shader.randomSeed uniforms + 7 * F)
                  (py + 3 * Shader.randomSeed uniforms + 11 * F) in
  let jitterScale := Shader.jitterScale uniforms / (1 + F * (1 / 10)) in
  let jitter := Shader.scale2 (Shader.randomInUnitDisk seed) jitterScale in
  let jitteredX := x + Shader.x2 jitter * Shader.tanFov (Shader.camera uniforms) / W in
  let jitteredY :=
    y + Shader.y2 jitter * Shader.tanFov (Shader.camera uniforms) * aspect / H in
  let viewDir :=
    Shader.normalize
      (Shader.add3 (Shader.add3 (Shader.scale3 left jitteredX) (Shader.scale3 up jitteredY))
         front) in
  Shader.setInitialConditions
    (Shader.mkRay (Shader.position (Shader.camera uniforms)) viewDir 0).

(** The calls a client can make on a processor.  A load whose fetch or
    decoding throws rejects its promise and leaves the processor as it
    was. *)
Inductive Operation : Type :=
| ProcessFrame (raysPerFrame : nat) (randomSeed : R)
| Resize (width height : nat)
| Reset
| SetScene (scene : Scene)
| LoadDiskTexture (fetched : result Shader.Texture)
| LoadSkyTexture (fetched : result Shader.Texture)
| SetMaxIterations (iterations : nat)
| SetJitterScale (scale : R)
| UpdateParameters (potentialCoefficient stepSize fov : R) (qualityValue : nat).

Definition perform (this : Driver.RayProcessor) (op : Operation) : Driver.RayProcessor :=
  match op with
  | ProcessFrame raysPerFrame randomSeed =>
      fst (Driver.processFrame this raysPerFrame randomSeed)
  | Resize width height => Driver.resize this width height
  | Reset => Driver.reset this
  | SetScene scene => Driver.setScene this scene
  | LoadDiskTexture fetched =>
      match Driver.loadDiskTexture this fetched with
      | Ok this' => this'
      | Throw _ => this
      end
  | LoadSkyTexture fetched =>
      match Driver.loadSkyTexture this fetched with
      | Ok this' => this'
      | Throw _ => this
      end
  | SetMaxIterations iterations => Driver.setMaxIterations this iterations
  | SetJitterScale scale => Driver.setJitterScale this scale
  | UpdateParameters potentialCoefficient stepSize fov qualityValue =>
      Driver.App_updateParameters this potentialCoefficient stepSize fov qualityValue
  end.

(** A sequence of calls, made one after the other. *)
Definition run (ops : list Operation) (this : Driver.RayProcessor) : Driver.RayProcessor :=
  fold_left perform ops this.

(** A number that is an integer. *)
Definition isInteger (x : R) : Prop := exists k : Z, x = IZR k.

(** The pixel [(x, y)] of an image of [sizeX] by [sizeY] pixels. *)
Definition isPixel (sizeX sizeY : R) (p : TextureCoordinates.t) : Prop :=
  isInteger (TextureCoordinates.x p) /\ isInteger (TextureCoordinates.y p)
  /\ 0 <= TextureCoordinates.x p <= sizeX - 1
  /\ 0 <= TextureCoordinates.y p <= sizeY - 1.
(** A colour of the CPU code, with channels counted from 0 to 255, on the
    scale of the shader. *)
Definition toUnit (c : ArgbColor.t) : Shader.vec4 :=
  Shader.mkVec4 (ArgbColor.r c / 255) (ArgbColor.g c / 255) (ArgbColor.b c / 255)
    (ArgbColor.a c / 255).
(** The point reached from [prevPoint] along [velocity] in the time [t]. *)
Definition pointAt (prevPoint velocity : Vector3D.t) (t : R) : Vector3D.t :=
  Vector3D.add prevPoint (Vector3D.multiply velocity t).

(** ** The specification's formulas, for comparison with the code *)

Module Spec.

(** [t mod 1], wrapped to be non-negative. *)
Definition wrap (t : R) : R := t - IZR (Zfloor t).

(** The disk UV mapping in the words of the specification: [(0, 1)] outside
    the annulus; otherwise [u] is 0.49 when [(phi / 2 pi) mod 1] is below 0.5
    and 0.51 otherwise, and [v] is the clamped radial fraction.  [pi] is the
    parameter: the number pi in the specification. *)
Definition mapDiskCoords (pi rInner rOuter r phi : R) : Shader.vec2 :=
  if (r <? rInner) || (r >? rOuter) then Shader.mkVec2 0 1
  else
    Shader.mkVec2
      (if wrap (phi / (2 * pi)) <? 5 / 10 then 49 / 100 else 51 / 100)
      (Shader.clamp ((r - rInner) / (rOuter - rInner)) 0 1).

(** The additive compositing in the words of the specification, for the
    new sample [S] and the existing colour [C].  [full] is the top of the
    channel scale: 255 as the specification counts, 1 as the shader does. *)
Definition addColor (full : R) (S C : Shader.vec4) : Shader.vec4 :=
  if Shader.a S =? 0 then C
  else
    let b :=
      (Rmax (Rmax (Shader.r S) (Shader.g S)) (Shader.b S)
       + Rmin (Rmin (Shader.r S) (Shader.g S)) (Shader.b S)) / 2 in
    Shader.mkVec4
      (Shader.clamp ((1 - b) * Shader.r C + Rmax (Shader.r S) 0 * 255 / 205) 0 full)
      (Shader.clamp ((1 - b) * Shader.g C + Rmax (Shader.g S) 0 * 255 / 205) 0 full)
      (Shader.clamp ((1 - b) * Shader.b C + Rmax (Shader.b S) 0 * 255 / 205) 0 full)
      full.

(** A colour of the shader on the scale 0..255. *)
Definition bytes (v : Shader.vec4) : Shader.vec4 :=
  Shader.mkVec4 (255 * Shader.r v) (255 * Shader.g v) (255 * Shader.b v) (255 * Shader.a v).

End Spec.

(** ** Concrete inputs *)

Module Example.

Definition origin3 : Vector3D.t := Vector3D.mk 0 0 0.

(** The camera of the flat-space scenario: at (0, 3, -20), looking at the
    origin, no hitables, potential coefficient 0. *)
Definition flatScene (stepSize : R) : Scene :=
  mkScene (Vector3D.mk 0 3 (-20)) origin3 (Vector3D.mk 0 1 0) 80 []
    (SchwarzschildBlackHoleEquation.mk stepSize 0 0).

Definition processor : Driver.RayProcessor :=
  Driver.new 256 256 (flatScene (16 / 100)) Driver.freshDevice Driver.bgra8unorm.

Definition white : Shader.Texture := fun _ => Shader.mkVec4 1 1 1 1.

(** The processor after its first frame. *)
Definition afterOneFrame : Driver.RayProcessor :=
  fst (Driver.processFrame processor 1000 0).

(** The uniforms of the first frame, drawn with the seed 0. *)
Definition uniforms : Shader.Uniforms := Driver.updateUniforms processor 1000 0.

(** A ray at the camera, heading along the z axis. *)
Definition ray : Shader.Ray := Shader.mkRay (Shader.mkVec3 0 3 (-20)) (Shader.mkVec3 0 0 1) 9.

(** A uniformly grey sky. *)
Definition grey : Shader.Texture := fun _ => Shader.mkVec4 (2 / 10) (2 / 10) (2 / 10) 1.

(** A ray close to the sky sphere that has met nothing yet. *)
Definition nearSky : Shader.Trace :=
  Shader.mkTrace
    (Shader.mkRay (Shader.mkVec3 0 0 (299 / 10)) (Shader.mkVec3 0 0 1) 0)
    (Shader.mkVec4 0 0 0 0) false.

(** A ray falling straight in along the x axis, one step before it crosses
    the horizon, and the same ray after that step of size 2/187. *)
Definition atHorizon : Shader.Ray :=
  Shader.mkRay (Shader.mkVec3 (375 / 187) 0 0) (Shader.mkVec3 (-1) 0 0) 0.

Definition pastHorizon : Shader.Ray := Shader.applyEquation uniforms atHorizon (2 / 187).

(** The flat-space processor with the jitter switched off, and the
    uniforms of its first frame. *)
Definition flatProcessor : Driver.RayProcessor := Driver.setJitterScale processor 0.

Definition flatUniforms : Shader.Uniforms := Driver.updateUniforms flatProcessor 1000 0.

(** The ray of the centre pixel heads for the origin.  It stays on the line
    through the camera: at [t] times the camera position, with the unit
    velocity [inward]. *)
Definition inward : Shader.vec3 := Shader.mkVec3 0 (-3 / sqrt 409) (20 / sqrt 409).

Definition radialRay (t : R) : Shader.Ray :=
  Shader.mkRay (Shader.mkVec3 0 (3 * t) (-20 * t)) inward 0.

(** The factor by which one step of size 0.16 shrinks the distance. *)
Definition shrink : R := 373 / 375.

(** The scene with the potential coefficient at the top of its slider, 5,
    and the default step size 0.16; the uniforms of its first frame. *)
Definition repulsiveScene : Scene :=
  mkScene (Vector3D.mk 0 3 (-20)) origin3 (Vector3D.mk 0 1 0) 80 []
    (SchwarzschildBlackHoleEquation.mk (16 / 100) 5 0).

Definition repulsiveUniforms : Shader.Uniforms :=
  Driver.updateUniforms
    (Driver.new 256 256 repulsiveScene Driver.freshDevice Driver.bgra8unorm) 1000 0.

(** A ray that grazes the horizon: at (0.01, 1.9999875, 0), at the distance
    2.0000125 from the centre, moving along -x at the speed 150000/160001,
    with the angular momentum of that motion.  Its step has the size
    160001/15000000 and ends at (0, 1.9999875, 0), inside the horizon. *)
Definition grazing : Shader.Ray :=
  Shader.setInitialConditions
    (Shader.mkRay (Shader.mkVec3 (1 / 100) (159999 / 80000) 0)
       (Shader.mkVec3 (-150000 / 160001) 0 0) 0).

Definition grazingStep : R := 160001 / 15000000.

Definition grazed : Shader.Ray :=
  Shader.applyEquation repulsiveUniforms grazing grazingStep.

End Example.

(** * Properties *)

(** ** Comparisons *)

Lemma Rltb_true a b : a < b -> (a <? b) = true.
Proof. unfold Rltb; destruct (Rlt_dec a b); tauto. Qed.

Lemma Rltb_false a b : ~ a < b -> (a <? b) = false.
Proof. unfold Rltb; destruct (Rlt_dec a b); tauto. Qed.

Lemma Rleb_true a b : a <= b -> (a <=? b) = true.
Proof. unfold Rleb; destruct (Rle_dec a b); tauto. Qed.

Lemma Rleb_false a b : ~ a <= b -> (a <=? b) = false.
Proof. unfold Rleb; destruct (Rle_dec a b); tauto. Qed.

Lemma Reqb_true a b : a = b -> (a =? b) = true.
Proof. unfold Reqb; destruct (Req_dec_T a b); tauto. Qed.

Lemma Reqb_false a b : a <> b -> (a =? b) = false.
Proof. unfold Reqb; destruct (Req_dec_T a b); tauto. Qed.

Lemma Rltb_spec a b : (a <? b) = true <-> a < b.
Proof. unfold Rltb; destruct (Rlt_dec a b); split; intros; try tauto; discriminate. Qed.

Lemma Rleb_spec a b : (a <=? b) = true <-> a <= b.
Proof. unfold Rleb; destruct (Rle_dec a b); split; intros; try tauto; discriminate. Qed.

Lemma Reqb_spec a b : (a =? b) = true <-> a = b.
Proof. unfold Reqb; destruct (Req_dec_T a b); split; intros; try tauto; discriminate. Qed.

(** ** The frame counter *)

Lemma frameCount_processFrame this raysPerFrame randomSeed :
  Driver.frameCount (fst (Driver.processFrame this raysPerFrame randomSeed))
  = S (Driver.frameCount this).
Proof. reflexivity. Qed.

Lemma frameCount_reset this : Driver.frameCount (Driver.reset this) = 0%nat.
Proof. reflexivity. Qed.

(** C1, as stated, fails: after one frame the counter is 1, and neither
    [setMaxIterations] nor [setJitterScale] brings it back to 0. *)
Lemma C1_setters_keep_frame_count :
  Driver.frameCount (Driver.setMaxIterations Example.afterOneFrame (Z.to_nat 25000)) = 1%nat
  /\ Driver.frameCount (Driver.setJitterScale Example.afterOneFrame 20) = 1%nat.
Proof. split; reflexivity. Qed.

(** C1, amended: [setScene], [loadDiskTexture] and [loadSkyTexture] leave the
    frame counter at 0 when they complete; a load whose fetch or decoding
    throws changes nothing; [setMaxIterations] and [setJitterScale] leave
    the counter as it was, and the caller [App.updateParameters] calls
    [reset] itself after them. *)
Theorem C1_mutators_and_frame_count (this : Driver.RayProcessor) :
  (forall scene, Driver.frameCount (Driver.setScene this scene) = 0%nat)
  /\ (forall bitmap, exists this',
        Driver.loadDiskTexture this (Ok bitmap) = Ok this'
        /\ Driver.frameCount this' = 0%nat)
  /\ (forall bitmap, exists this',
        Driver.loadSkyTexture this (Ok bitmap) = Ok this'
        /\ Driver.frameCount this' = 0%nat)
  /\ (forall msg, Driver.loadDiskTexture this (Throw msg) = Throw msg)
  /\ (forall msg, Driver.loadSkyTexture this (Throw msg) = Throw msg)
  /\ (forall iterations,
        Driver.frameCount (Driver.setMaxIterations this iterations)
        = Driver.frameCount this)
  /\ (forall scale,
        Driver.frameCount (Driver.setJitterScale this scale) = Driver.frameCount this)
  /\ (forall k h fov q,
        Driver.frameCount (Driver.App_updateParameters this k h fov q) = 0%nat).
Proof.
  repeat split; try reflexivity.
  - intro bitmap. eexists. split; reflexivity.
  - intro bitmap. eexists. split; reflexivity.
Qed.

(** ** Replacing a texture *)

Lemma existsb_eqb_false (id : nat) (l : list nat) :
  (forall j, In j l -> j <> id) -> existsb (Nat.eqb id) l = false.
Proof.
  induction l as [|j l IH]; intro H; simpl; [reflexivity|].
  rewrite IH by (intros k Hk; apply H; right; exact Hk).
  destruct (Nat.eqb_spec id j) as [->|]; [|reflexivity].
  exfalso. apply (H j); [left|]; reflexivity.
Qed.

Lemma isDestroyed_false_iff d id :
  Driver.isDestroyed d id = false <-> ~ In id (Driver.destroyed d).
Proof.
  unfold Driver.isDestroyed. split.
  - intros H Hin.
    assert (existsb (Nat.eqb id) (Driver.destroyed d) = true) as E.
    { apply existsb_exists. exists id. split; [exact Hin | apply Nat.eqb_refl]. }
    congruence.
  - intro H. apply existsb_eqb_false. intros j Hj ->. exact (H Hj).
Qed.

(** C5, as stated, fails.  On a processor fresh from its constructor the
    placeholder disk texture is texture 1 and the loaded one is texture 3:
    [destroy] of texture 1 is not issued after the bind group over texture 3
    is created, it is issued before. *)
Lemma C5_old_texture_destroyed_before_rebind :
  match Driver.loadDiskTexture Example.processor (Ok Example.white) with
  | Ok this' =>
      Driver.diskTexture Example.processor = 1%nat
      /\ Driver.diskTexture this' = 3%nat
      /\ occursAfter (isBindGroupOver 3%nat) (isDestroyOf 1%nat)
           (Driver.calls (Driver.device this')) = false
      /\ occursAfter (isDestroyOf 1%nat) (isBindGroupOver 3%nat)
           (Driver.calls (Driver.device this')) = true
  | Throw _ => False
  end.
Proof. simpl. repeat split; reflexivity. Qed.

Lemma app4 (l : list Driver.GPUCall) (a b c d : Driver.GPUCall) :
  (((l ++ [a]) ++ [b]) ++ [c]) ++ [d] = l ++ [a; b; c; d].
Proof. repeat rewrite <- app_assoc. reflexivity. Qed.

Lemma usable_after_swap (d : Driver.GPUDevice) (old fresh keep1 keep2 : nat)
    (l : list nat) :
  l = old :: Driver.destroyed d ->
  fresh = Driver.nextTexture d ->
  (forall id, In id (Driver.destroyed d) -> (id < Driver.nextTexture d)%nat) ->
  Driver.isDestroyed d keep1 = false ->
  Driver.isDestroyed d keep2 = false ->
  keep1 <> old -> keep2 <> old -> (old < fresh)%nat ->
  existsb (Nat.eqb keep1) l = false
  /\ existsb (Nat.eqb keep2) l = false
  /\ existsb (Nat.eqb fresh) l = false.
Proof.
  intros -> -> Hdead H1 H2 N1 N2 Hlt. unfold Driver.isDestroyed in H1, H2. simpl.
  rewrite H1, H2.
  rewrite (existsb_eqb_false (Driver.nextTexture d))
    by (intros j Hj; apply Hdead in Hj; lia).
  destruct (Nat.eqb_spec keep1 old); [contradiction|].
  destruct (Nat.eqb_spec keep2 old); [contradiction|].
  destruct (Nat.eqb_spec (Driver.nextTexture d) old); [lia|].
  repeat split; reflexivity.
Qed.

(** C5, amended: [loadDiskTexture] and [loadSkyTexture] issue, in this order,
    the creation of the new texture, the copy of the image into it, the
    [destroy] of the old texture and the creation of the bind group over the
    new texture; nothing runs in between.  On a consistent processor the
    result is consistent again: when the method returns, the installed bind
    group is over the new texture and holds no destroyed texture. *)
Theorem C5_texture_replacement_order (this : Driver.RayProcessor)
    (bitmap : Shader.Texture) :
  consistent this ->
  let fresh := Driver.nextTexture (Driver.device this) in
  (exists this',
      Driver.loadDiskTexture this (Ok bitmap) = Ok this'
      /\ Driver.calls (Driver.device this')
         = Driver.calls (Driver.device this)
           ++ [Driver.CreateTexture fresh;
               Driver.CopyExternalImageToTexture fresh;
               Driver.Destroy (Driver.diskTexture this);
               Driver.CreateBindGroup
                 (Driver.mkBindGroup (Driver.outputTexture this) fresh
                    (Driver.skyTexture this))]
      /\ Driver.diskTexture this' = fresh
      /\ Driver.content (Driver.device this') fresh = bitmap
      /\ consistent this')
  /\ (exists this',
      Driver.loadSkyTexture this (Ok bitmap) = Ok this'
      /\ Driver.calls (Driver.device this')
         = Driver.calls (Driver.device this)
           ++ [Driver.CreateTexture fresh;
               Driver.CopyExternalImageToTexture fresh;
               Driver.Destroy (Driver.skyTexture this);
               Driver.CreateBindGroup
                 (Driver.mkBindGroup (Driver.outputTexture this)
                    (Driver.diskTexture this) fresh)]
      /\ Driver.skyTexture this' = fresh
      /\ Driver.content (Driver.device this') fresh = bitmap
      /\ consistent this').
Proof.
  intros (Hbg & Huse & (Nod & Nos & Nds) & (Lo & Ld & Ls) & Hdead) fresh.
  unfold Driver.bindGroupUsable in Huse. rewrite Hbg in Huse. simpl in Huse.
  apply andb_prop in Huse. destruct Huse as [Huse Hs].
  apply andb_prop in Huse. destruct Huse as [Ho Hd].
  apply negb_true_iff in Ho, Hd, Hs.
  split.
  - eexists. split; [reflexivity|]. simpl. rewrite app4.
    split; [reflexivity|]. split; [reflexivity|].
    split; [unfold Driver.setContent; rewrite Nat.eqb_refl; reflexivity|].
    unfold consistent; simpl.
    destruct (usable_after_swap (Driver.device this) (Driver.diskTexture this) fresh
                (Driver.outputTexture this) (Driver.skyTexture this) _
                eq_refl eq_refl Hdead Ho Hs Nod (not_eq_sym Nds) Ld) as (E1 & E2 & E3).
    split; [reflexivity|]. split.
    { unfold Driver.bindGroupUsable, Driver.isDestroyed. simpl.
      simpl in E1, E2, E3. fold fresh. rewrite E1, E2, E3. reflexivity. }
    split; [unfold fresh; repeat split; lia|].
    split; [unfold fresh; repeat split; lia|].
    intros id [<- | Hin]; [lia | apply Hdead in Hin; lia].
  - eexists. split; [reflexivity|]. simpl. rewrite app4.
    split; [reflexivity|]. split; [reflexivity|].
    split; [unfold Driver.setContent; rewrite Nat.eqb_refl; reflexivity|].
    unfold consistent; simpl.
    destruct (usable_after_swap (Driver.device this) (Driver.skyTexture this) fresh
                (Driver.outputTexture this) (Driver.diskTexture this) _
                eq_refl eq_refl Hdead Ho Hd Nos Nds Ls) as (E1 & E2 & E3).
    split; [reflexivity|]. split.
    { unfold Driver.bindGroupUsable, Driver.isDestroyed. simpl.
      simpl in E1, E2, E3. fold fresh. rewrite E1, E2, E3. reflexivity. }
    split; [unfold fresh; repeat split; lia|].
    split; [unfold fresh; repeat split; lia|].
    intros id [<- | Hin]; [lia | apply Hdead in Hin; lia].
Qed.

Lemma consistent_new width height scene canvasFormat :
  consistent (Driver.new width height scene Driver.freshDevice canvasFormat).
Proof.
  unfold consistent; simpl. repeat split; try lia; try discriminate.
Qed.

Lemma C5_texture_replacement_order_witness :
  consistent Example.processor
  /\ exists this',
      Driver.loadDiskTexture Example.processor (Ok Example.white) = Ok this'
      /\ Driver.calls (Driver.device this')
         = Driver.calls (Driver.device Example.processor)
           ++ [Driver.CreateTexture 3%nat;
               Driver.CopyExternalImageToTexture 3%nat;
               Driver.Destroy 1%nat;
               Driver.CreateBindGroup (Driver.mkBindGroup 0%nat 3%nat 2%nat)]
      /\ Driver.diskTexture this' = 3%nat
      /\ Driver.content (Driver.device this') 3%nat = Example.white
      /\ consistent this'.
Proof.
  split.
  - apply consistent_new.
  - exact (proj1 (C5_texture_replacement_order Example.processor Example.white
                    (consistent_new _ _ _ _))).
Defined.

(** ** Vector3D: division and normalisation *)

Lemma norm2_nonneg (v : Vector3D.t) : 0 <= Vector3D.norm2 v.
Proof. unfold Vector3D.norm2. nra. Qed.

(** C6, as stated, fails for [divide]: dividing by zero does not return the
    zero vector, it throws. *)
Lemma C6_divide_by_zero_throws :
  Vector3D.divide (Vector3D.mk 1 2 3) 0 = Throw "Cannot divide by zero"
  /\ Vector3D.divide (Vector3D.mk 1 2 3) 0 <> Ok (Vector3D.mk 0 0 0).
Proof.
  assert (Vector3D.divide (Vector3D.mk 1 2 3) 0 = Throw "Cannot divide by zero") as E.
  { unfold Vector3D.divide. rewrite Reqb_true by reflexivity. reflexivity. }
  split; [exact E | rewrite E; discriminate].
Qed.

(** C6, amended: [normalize] of a vector of length zero returns (0, 0, 0),
    and [normalize] never throws, because it calls [divide] only with a
    non-zero length; [divide] by the scalar zero throws the error
    "Cannot divide by zero", and by any other scalar it returns the
    vector scaled by the inverse. *)
Theorem C6_normalize_and_divide (v : Vector3D.t) :
  (Vector3D.norm v = 0 -> Vector3D.normalize v = Ok (Vector3D.mk 0 0 0))
  /\ (exists w, Vector3D.normalize v = Ok w)
  /\ Vector3D.divide v 0 = Throw "Cannot divide by zero"
  /\ (forall scalar, scalar <> 0 ->
        Vector3D.divide v scalar
        = Ok (Vector3D.mk (Vector3D.x v * (1 / scalar)) (Vector3D.y v * (1 / scalar))
                (Vector3D.z v * (1 / scalar)))).
Proof.
  repeat split.
  - intro H. unfold Vector3D.normalize. rewrite Reqb_true by exact H. reflexivity.
  - unfold Vector3D.normalize.
    destruct (Req_dec_T (Vector3D.norm v) 0) as [E|E].
    + rewrite Reqb_true by exact E. eexists; reflexivity.
    + rewrite Reqb_false by exact E. unfold Vector3D.divide.
      rewrite Reqb_false by exact E. eexists; reflexivity.
  - unfold Vector3D.divide. rewrite Reqb_true by reflexivity. reflexivity.
  - intros scalar H. unfold Vector3D.divide. rewrite Reqb_false by exact H. reflexivity.
Qed.

Lemma C6_normalize_and_divide_witness :
  Vector3D.norm (Vector3D.mk 0 0 0) = 0
  /\ Vector3D.normalize (Vector3D.mk 0 0 0) = Ok (Vector3D.mk 0 0 0).
Proof.
  assert (Vector3D.norm (Vector3D.mk 0 0 0) = 0) as E.
  { unfold Vector3D.norm, Vector3D.norm2; simpl.
    replace (0 * 0 + 0 * 0 + 0 * 0) with 0 by ring. exact sqrt_0. }
  split; [exact E | exact (proj1 (C6_normalize_and_divide (Vector3D.mk 0 0 0)) E)].
Defined.

(** ** The substep of the integration *)

Lemma sum_squares_zero (a b c : R) : ~ 0 < a * a + b * b + c * c -> a * a + b * b + c * c = 0.
Proof. intro H. nra. Qed.

(** [pow(r2, 2.5)] is the fifth power of the square root of [r2]. *)
Lemma pow_five_halves (d : R) : 0 <= d -> Math.pow d (5 / 2) = sqrt d ^ 5.
Proof.
  intro Hd. unfold Math.pow. destruct (Rlt_dec 0 d) as [Hpos|Hn].
  - replace (5 / 2) with (/ 2 * INR 5) by (simpl; lra).
    rewrite <- Rpower_mult, Rpower_sqrt by exact Hpos.
    apply Rpower_pow. apply sqrt_lt_R0. exact Hpos.
  - assert (d = 0) as -> by lra. rewrite sqrt_0. simpl. ring.
Qed.

Lemma dot_self_nonneg (p : Shader.vec3) : 0 <= Shader.dot p p.
Proof. unfold Shader.dot. nra. Qed.

Lemma vec3_eq (p q : Shader.vec3) :
  Shader.x p = Shader.x q -> Shader.y p = Shader.y q -> Shader.z p = Shader.z q -> p = q.
Proof. destruct p, q; simpl; intros -> -> ->; reflexivity. Qed.

Lemma Vector3D_eq (p q : Vector3D.t) :
  Vector3D.x p = Vector3D.x q -> Vector3D.y p = Vector3D.y q ->
  Vector3D.z p = Vector3D.z q -> p = q.
Proof. destruct p, q; simpl; intros -> -> ->; reflexivity. Qed.

(** Every pass through the loop body advances the ray by [applyEquation]
    with the step [(length(origin) / 30) * stepSize]. *)
Lemma ray_iteration uniforms diskTexture skyTexture st :
  Shader.ray (Shader.iteration uniforms diskTexture skyTexture st)
  = Shader.applyEquation uniforms (Shader.ray st)
      ((Shader.length (Shader.origin (Shader.ray st)) / 30)
       * Shader.stepSize (Shader.blackHole uniforms)).
Proof.
  unfold Shader.iteration.
  repeat match goal with |- context [if ?c then _ else _] => destruct c end;
    reflexivity.
Qed.



(** ** The disk texture coordinates *)

(** The two steps by which the shader wraps an angular fraction, [% 1.0]
    and the correction of a negative remainder, give the fractional part. *)
Lemma fmod_wrap (t : R) :
  (if Shader.fmod t 1 <? 0 then Shader.fmod t 1 + 1 else Shader.fmod t 1) = Spec.wrap t.
Proof.
  unfold Shader.fmod, Math.trunc, Math.floor, Spec.wrap.
  replace (t / 1) with t by field.
  destruct (Rle_dec 0 t) as [Hpos|Hneg].
  - pose proof (Zfloor_bound t) as [Hl Hu].
    rewrite Rltb_false by lra. ring.
  - pose proof (Zfloor_bound (- t)) as [Hl Hu].
    destruct (Rlt_dec (t - 1 * - IZR (Zfloor (- t))) 0) as [Hlt|Hge].
    + rewrite Rltb_true by exact Hlt.
      assert (Zfloor t = (- Zfloor (- t) - 1)%Z) as ->.
      { apply Zfloor_eq. rewrite minus_IZR, opp_IZR. lra. }
      rewrite minus_IZR, opp_IZR. ring.
    + rewrite Rltb_false by exact Hge.
      assert (Zfloor t = (- Zfloor (- t))%Z) as ->.
      { apply Zfloor_eq. rewrite opp_IZR. lra. }
      rewrite opp_IZR. ring.
Qed.

Lemma mapDiskCoords_inside (uniforms : Shader.Uniforms) (r phi : R) :
  (r <? Shader.diskInnerRadius uniforms) || (r >? Shader.diskOuterRadius uniforms) = false ->
  Shader.mapDiskCoords uniforms r phi
  = Shader.mkVec2
      (if Spec.wrap (phi / (2 * Shader.pi_literal)) <? 5 / 10 then 49 / 100 else 51 / 100)
      (Shader.clamp
         ((r - Shader.diskInnerRadius uniforms)
          / (Shader.diskOuterRadius uniforms - Shader.diskInnerRadius uniforms)) 0 1).
Proof.
  intro H. unfold Shader.mapDiskCoords. rewrite H. cbv zeta.
  rewrite fmod_wrap. reflexivity.
Qed.

Lemma mapDiskCoords_u (uniforms : Shader.Uniforms) (r phi : R) :
  Shader.x2 (Shader.mapDiskCoords uniforms r phi) = 0
  \/ Shader.x2 (Shader.mapDiskCoords uniforms r phi) = 49 / 100
  \/ Shader.x2 (Shader.mapDiskCoords uniforms r phi) = 51 / 100.
Proof.
  destruct ((r <? Shader.diskInnerRadius uniforms) || (r >? Shader.diskOuterRadius uniforms))
    eqn:E.
  - left. unfold Shader.mapDiskCoords. rewrite E. reflexivity.
  - right. rewrite mapDiskCoords_inside by exact E. simpl.
    destruct (Spec.wrap (phi / (2 * Shader.pi_literal)) <? 5 / 10); [left | right];
      reflexivity.
Qed.

Lemma seamMitigation_outside_band (diskTexture : Shader.Texture) (diskCoords : Shader.vec2)
    (diskColor : Shader.vec4) :
  Shader.x2 diskCoords <= 52 / 100 ->
  Shader.seamMitigation diskTexture diskCoords diskColor = diskColor.
Proof.
  intro H. unfold Shader.seamMitigation. cbv zeta.
  rewrite (Rltb_false (52 / 100) (Shader.x2 diskCoords)) by lra.
  rewrite (Rltb_false (52 / 100 + (99 / 100 - 52 / 100) / 3) (Shader.x2 diskCoords)) by lra.
  rewrite (Rltb_false (52 / 100 + 2 * ((99 / 100 - 52 / 100) / 3)) (Shader.x2 diskCoords))
    by lra.
  reflexivity.
Qed.

(** C10: [mapDiskCoords] only returns [u] in {0, 0.49, 0.51}; hence none of
    the three seam-mitigation branches is taken on its result, and the
    colour the plane-crossing test composites is the texture sample at the
    snapped coordinate, unmodified. *)
Theorem C10_seam_branches_never_taken (uniforms : Shader.Uniforms) (r phi : R)
    (diskTexture : Shader.Texture) :
  (Shader.x2 (Shader.mapDiskCoords uniforms r phi) = 0
   \/ Shader.x2 (Shader.mapDiskCoords uniforms r phi) = 49 / 100
   \/ Shader.x2 (Shader.mapDiskCoords uniforms r phi) = 51 / 100)
  /\ (forall diskColor,
        Shader.seamMitigation diskTexture (Shader.mapDiskCoords uniforms r phi) diskColor
        = diskColor)
  /\ (forall prevPoint ray color,
        let diskSqrNorm :=
          Shader.x (Shader.origin ray) * Shader.x (Shader.origin ray)
          + Shader.z (Shader.origin ray) * Shader.z (Shader.origin ray) in
        Shader.diskCheck uniforms diskTexture prevPoint ray phi color = color
        \/ Shader.diskCheck uniforms diskTexture prevPoint ray phi color
           = Shader.addColor
               (diskTexture (Shader.mapDiskCoords uniforms (sqrt diskSqrNorm) phi)) color).
Proof.
  assert (forall r' phi' diskColor,
             Shader.seamMitigation diskTexture (Shader.mapDiskCoords uniforms r' phi')
               diskColor = diskColor) as Hseam.
  { intros r' phi' diskColor. apply seamMitigation_outside_band.
    destruct (mapDiskCoords_u uniforms r' phi') as [E | [E | E]]; rewrite E; lra. }
  split; [apply mapDiskCoords_u|]. split; [apply Hseam|].
  intros prevPoint ray color diskSqrNorm. unfold Shader.diskCheck. cbv zeta.
  fold diskSqrNorm. rewrite Hseam.
  repeat match goal with |- context [if ?c then _ else _] => destruct c end;
    (left; reflexivity) || (right; reflexivity).
Qed.

(** The shader's literal is smaller than pi. *)
Lemma pi_literal_lt_PI : 3141592 / 1000000 < PI.
Proof.
  pose proof (PI_2_3_7_ineq 4) as [H _].
  unfold sum_f_R0, tg_alt, PI_2_3_7_tg, Ratan_seq in H. simpl in H. lra.
Qed.

Lemma wrap_small (t : R) : 0 <= t < 1 -> Spec.wrap t = t.
Proof.
  intro H. unfold Spec.wrap. rewrite (Zfloor_eq 0 t) by (simpl; lra). simpl. ring.
Qed.

(** C7, as stated, fails.  At radius 5 and angle 3.141591, which lies
    between the shader's 3.14159 and pi, the fraction [phi / (2 pi)] is below
    one half, so the formula of the claim gives u = 0.49; the shader divides
    by [2.0 * 3.14159], finds a fraction of at least one half, and returns
    u = 0.51. *)
Lemma C7_half_turn_is_not_at_pi :
  Shader.x2 (Spec.mapDiskCoords PI (26 / 10) 12 5 (3141591 / 1000000)) = 49 / 100
  /\ Shader.x2 (Shader.mapDiskCoords Example.uniforms 5 (3141591 / 1000000)) = 51 / 100.
Proof.
  pose proof pi_literal_lt_PI as Hpi.
  split.
  - unfold Spec.mapDiskCoords.
    rewrite (Rltb_false 5 (26 / 10)), (Rltb_false 12 5) by lra. simpl.
    assert (0 < 3141591 / 1000000 / (2 * PI) < 5 / 10) as [H0 H1].
    { split.
      - apply Rdiv_lt_0_compat; lra.
      - apply (Rmult_lt_reg_r (2 * PI)); [lra|].
        unfold Rdiv at 1. rewrite Rmult_assoc, Rinv_l by lra. lra. }
    rewrite wrap_small by lra. rewrite Rltb_true by exact H1. reflexivity.
  - rewrite mapDiskCoords_inside.
    + simpl. unfold Shader.pi_literal.
      rewrite wrap_small by lra. rewrite Rltb_false by lra. reflexivity.
    + simpl. rewrite (Rltb_false 5 (26 / 10)), (Rltb_false 12 5) by lra. reflexivity.
Qed.

(** C7, amended: for every radius and angle the disk UV mapping returns
    (0, 1) whenever [r < rInner] or [r > rOuter]; otherwise [u] is 0.49 when
    the wrapped fraction [(phi / (2 * 3.14159)) mod 1] is below 0.5 and 0.51
    otherwise, with the shader's literal 3.14159 in the place of pi, and
    [v = clamp((r - rInner) / (rOuter - rInner), 0, 1)]. *)
Theorem C7_disk_uv_mapping (uniforms : Shader.Uniforms) (r phi : R) :
  let rInner := Shader.diskInnerRadius uniforms in
  let rOuter := Shader.diskOuterRadius uniforms in
  (r < rInner \/ r > rOuter ->
   Shader.mapDiskCoords uniforms r phi = Shader.mkVec2 0 1)
  /\ (~ (r < rInner \/ r > rOuter) ->
      Shader.mapDiskCoords uniforms r phi
      = Shader.mkVec2
          (if Spec.wrap (phi / (2 * (314159 / 100000))) <? 5 / 10
           then 49 / 100 else 51 / 100)
          (Shader.clamp ((r - rInner) / (rOuter - rInner)) 0 1))
  /\ Shader.mapDiskCoords uniforms r phi
     = Spec.mapDiskCoords (314159 / 100000) rInner rOuter r phi.
Proof.
  intros rInner rOuter.
  assert (Shader.mapDiskCoords uniforms r phi
          = Spec.mapDiskCoords (314159 / 100000) rInner rOuter r phi) as Hspec.
  { unfold Spec.mapDiskCoords. fold rInner rOuter.
    destruct ((r <? rInner) || (r >? rOuter)) eqn:E.
    - unfold Shader.mapDiskCoords. fold rInner rOuter. rewrite E. reflexivity.
    - apply mapDiskCoords_inside. exact E. }
  split; [|split; [|exact Hspec]].
  - intro H. rewrite Hspec. unfold Spec.mapDiskCoords.
    destruct H as [H | H].
    + rewrite (Rltb_true r rInner) by exact H. reflexivity.
    + rewrite (Rltb_true rOuter r) by exact H. rewrite orb_true_r. reflexivity.
  - intro H. rewrite Hspec. unfold Spec.mapDiskCoords.
    rewrite (Rltb_false r rInner), (Rltb_false rOuter r) by tauto. reflexivity.
Qed.

Lemma C7_disk_uv_mapping_witness :
  (1 < Shader.diskInnerRadius Example.uniforms
   \/ 1 > Shader.diskOuterRadius Example.uniforms)
  /\ Shader.mapDiskCoords Example.uniforms 1 2 = Shader.mkVec2 0 1
  /\ ~ (5 < Shader.diskInnerRadius Example.uniforms
        \/ 5 > Shader.diskOuterRadius Example.uniforms)
  /\ Shader.mapDiskCoords Example.uniforms 5 2
     = Shader.mkVec2
         (if Spec.wrap (2 / (2 * (314159 / 100000))) <? 5 / 10
          then 49 / 100 else 51 / 100)
         (Shader.clamp
            ((5 - Shader.diskInnerRadius Example.uniforms)
             / (Shader.diskOuterRadius Example.uniforms
                - Shader.diskInnerRadius Example.uniforms)) 0 1).
Proof.
  assert (1 < Shader.diskInnerRadius Example.uniforms
          \/ 1 > Shader.diskOuterRadius Example.uniforms) as H1
    by (left; simpl; lra).
  assert (~ (5 < Shader.diskInnerRadius Example.uniforms
             \/ 5 > Shader.diskOuterRadius Example.uniforms)) as H5
    by (simpl; lra).
  split; [exact H1|].
  split; [exact (proj1 (C7_disk_uv_mapping Example.uniforms 1 2) H1)|].
  split; [exact H5|].
  exact (proj1 (proj2 (C7_disk_uv_mapping Example.uniforms 5 2)) H5).
Defined.

(** ** Compositing *)

Lemma length_axis_z (c : R) : 0 <= c -> Shader.length (Shader.mkVec3 0 0 c) = c.
Proof.
  intro H. unfold Shader.length, Shader.dot; simpl.
  replace (0 * 0 + 0 * 0 + c * c) with (c * c) by ring. apply sqrt_square. exact H.
Qed.

(** The step that takes the ray of the example beyond the sky radius. *)
Lemma nearSky_step :
  Shader.applyEquation Example.uniforms (Shader.ray Example.nearSky)
    ((Shader.length (Shader.origin (Shader.ray Example.nearSky)) / 30)
     * Shader.stepSize (Shader.blackHole Example.uniforms))
  = Shader.mkRay (Shader.mkVec3 0 0 (299 / 10 + 299 / 10 / 30 * (16 / 100)))
      (Shader.mkVec3 0 0 1) 0.
Proof.
  unfold Example.nearSky. simpl Shader.ray. simpl Shader.origin.
  rewrite length_axis_z by lra.
  unfold Shader.applyEquation. simpl.
  f_equal; apply vec3_eq; simpl; unfold Rdiv; ring.
Qed.

(** The iteration that leaves the sky sphere composites with the sky sample
    as first argument and the colour accumulated so far as second. *)
Lemma iteration_sky_escape uniforms diskTexture skyTexture st :
  let prevPoint := Shader.origin (Shader.ray st) in
  let ray' := Shader.ray (Shader.iteration uniforms diskTexture skyTexture st) in
  let sqrNorm := Shader.dot (Shader.origin ray') (Shader.origin ray') in
  let spherical := Shader.toSpherical (Shader.origin ray') in
  ~ sqrNorm < Shader.horizonRadius uniforms * Shader.horizonRadius uniforms ->
  Shader.skyRadius uniforms * Shader.skyRadius uniforms < sqrNorm ->
  Shader.iteration uniforms diskTexture skyTexture st
  = Shader.mkTrace ray'
      (Shader.addColor
         (skyTexture (Shader.mapSkyCoords (Shader.y spherical) (Shader.z spherical)))
         (Shader.diskCheck uniforms diskTexture prevPoint ray' (Shader.z spherical)
            (Shader.color st)))
      true.
Proof.
  intros prevPoint ray' sqrNorm spherical Hh Hs.
  unfold spherical, sqrNorm, ray' in *. clear spherical sqrNorm ray'.
  rewrite ray_iteration in *.
  unfold Shader.iteration. cbv zeta.
  rewrite (Rltb_false _ _ Hh). simpl andb. cbv iota.
  rewrite (Rltb_true _ _ Hs). reflexivity.
Qed.

Lemma Rmax_id (c : R) : Rmax c c = c.
Proof. unfold Rmax. destruct (Rle_dec c c); reflexivity. Qed.

Lemma Rmin_id (c : R) : Rmin c c = c.
Proof. unfold Rmin. destruct (Rle_dec c c); reflexivity. Qed.

Lemma clamp_inside (e low high : R) : low <= e <= high -> Shader.clamp e low high = e.
Proof.
  intros [H1 H2]. unfold Shader.clamp.
  rewrite Rmax_left by exact H1. apply Rmin_left. exact H2.
Qed.

Lemma clamp_above (e low high : R) : low <= e -> Shader.clamp e low high = Rmin e high.
Proof. intro H. unfold Shader.clamp. rewrite Rmax_left by exact H. reflexivity. Qed.

Lemma vec4_eq (p q : Shader.vec4) :
  Shader.r p = Shader.r q -> Shader.g p = Shader.g q -> Shader.b p = Shader.b q ->
  Shader.a p = Shader.a q -> p = q.
Proof. destruct p, q; simpl; intros -> -> -> ->; reflexivity. Qed.

(** C8, as stated, fails.  A ray that has met nothing so far (accumulated
    colour (0, 0, 0, 0)) escapes to a grey sky whose sample is
    (0.2, 0.2, 0.2, 1).  The shader returns the sample itself.  The formula
    of the claim, with the sample as [S] and the accumulated colour as [C],
    gives the channel 0.2 * 255 / 205 on the shader's scale, and
    51 * 255 / 205 instead of 51 on the scale 0..255. *)
Lemma C8_first_hit_returns_the_sample :
  Shader.color
    (Shader.iteration Example.uniforms Example.white Example.grey Example.nearSky)
  = Shader.mkVec4 (2 / 10) (2 / 10) (2 / 10) 1
  /\ Spec.addColor 1 (Shader.mkVec4 (2 / 10) (2 / 10) (2 / 10) 1)
       (Shader.color Example.nearSky)
     = Shader.mkVec4 (51 / 205) (51 / 205) (51 / 205) 1
  /\ Spec.addColor 255 (Spec.bytes (Shader.mkVec4 (2 / 10) (2 / 10) (2 / 10) 1))
       (Spec.bytes (Shader.color Example.nearSky))
     = Shader.mkVec4 (13005 / 205) (13005 / 205) (13005 / 205) 255.
Proof.
  split; [|split].
  - assert (Shader.ray
              (Shader.iteration Example.uniforms Example.white Example.grey Example.nearSky)
            = Shader.mkRay (Shader.mkVec3 0 0 (299 / 10 + 299 / 10 / 30 * (16 / 100)))
                (Shader.mkVec3 0 0 1) 0) as Hray
      by (rewrite ray_iteration; exact nearSky_step).
    rewrite iteration_sky_escape;
      [| rewrite Hray; unfold Shader.dot; simpl; lra ..].
    rewrite Hray. simpl.
    unfold Shader.diskCheck. simpl.
    rewrite (Rltb_false 0 0), Rleb_true by lra.
    match goal with
    | |- context [(?u <=? 12 * 12)] => rewrite (Rleb_false u (12 * 12)) by lra
    end.
    rewrite andb_false_r.
    unfold Shader.addColor, Example.grey. simpl.
    rewrite Reqb_true by reflexivity. reflexivity.
  - unfold Spec.addColor. simpl. rewrite Reqb_false by lra.
    rewrite !Rmax_id, !Rmin_id, (Rmax_left (2 / 10) 0) by lra.
    rewrite clamp_inside by lra.
    apply vec4_eq; simpl; lra.
  - unfold Spec.addColor, Spec.bytes. simpl. rewrite Reqb_false by lra.
    rewrite !Rmax_id, !Rmin_id, (Rmax_left (255 * (2 / 10)) 0) by lra.
    rewrite clamp_inside by lra.
    apply vec4_eq; simpl; lra.
Qed.

Lemma diskCheck_cases uniforms diskTexture prevPoint ray phi color :
  Shader.diskCheck uniforms diskTexture prevPoint ray phi color = color
  \/ Shader.diskCheck uniforms diskTexture prevPoint ray phi color
     = Shader.addColor
         (diskTexture
            (Shader.mapDiskCoords uniforms
               (sqrt (Shader.x (Shader.origin ray) * Shader.x (Shader.origin ray)
                      + Shader.z (Shader.origin ray) * Shader.z (Shader.origin ray)))
               phi))
         color.
Proof.
  unfold Shader.diskCheck. cbv zeta.
  rewrite seamMitigation_outside_band.
  - repeat match goal with |- context [if ?c then _ else _] => destruct c end;
      (left; reflexivity) || (right; reflexivity).
  - match goal with
    | |- Shader.x2 (Shader.mapDiskCoords ?u ?r ?p) <= _ =>
        destruct (mapDiskCoords_u u r p) as [E | [E | E]]; rewrite E; lra
    end.
Qed.

Lemma brightness_le_1 (C : Shader.vec4) :
  inRange C ->
  (Rmax (Rmax (Shader.r C) (Shader.g C)) (Shader.b C)
   + Rmin (Rmin (Shader.r C) (Shader.g C)) (Shader.b C)) / 2 <= 1.
Proof.
  intros (Hr & Hg & Hb).
  assert (Rmax (Rmax (Shader.r C) (Shader.g C)) (Shader.b C) <= 1)
    by (repeat apply Rmax_lub; lra).
  assert (Rmin (Rmin (Shader.r C) (Shader.g C)) (Shader.b C) <= 1).
  { eapply Rle_trans; [apply Rmin_r | lra]. }
  lra.
Qed.

(** C8, amended.  The operator is [addColor(hitColor, tintColor)], and every
    call passes the new sample as [hitColor] and the colour accumulated so
    far as [tintColor].  So, for the new sample [S] and the existing colour
    [C]: if [C.a = 0] the result is [S] unchanged; otherwise, with
    [b = (max(C.rgb) + min(C.rgb)) / 2], each channel is
    [min((1 - b) * S.channel + max(C.channel, 0) * 255 / 205, 1)] on the
    shader's scale 0..1 and alpha is 1 (fully opaque).  There is no lower
    clamp; for channels between 0 and 1 the result is what the formula of
    the claim gives once [S] and [C] exchange their roles.  [Utils.addColor]
    has the same argument order; it returns [hitColor] when [tintColor] is
    [Transparent] and always an alpha of 255 otherwise. *)
Theorem C8_additive_compositing (S C : Shader.vec4) :
  let b :=
    (Rmax (Rmax (Shader.r C) (Shader.g C)) (Shader.b C)
     + Rmin (Rmin (Shader.r C) (Shader.g C)) (Shader.b C)) / 2 in
  (Shader.a C = 0 -> Shader.addColor S C = S)
  /\ (Shader.a C <> 0 ->
      Shader.addColor S C
      = Shader.mkVec4
          (Rmin ((1 - b) * Shader.r S + Rmax (Shader.r C) 0 * 255 / 205) 1)
          (Rmin ((1 - b) * Shader.g S + Rmax (Shader.g C) 0 * 255 / 205) 1)
          (Rmin ((1 - b) * Shader.b S + Rmax (Shader.b C) 0 * 255 / 205) 1)
          1)
  /\ (inRange S -> inRange C -> Shader.addColor S C = Spec.addColor 1 C S)
  /\ (forall uniforms diskTexture skyTexture st,
        exists c1,
          (c1 = Shader.color st
           \/ exists uv, c1 = Shader.addColor (diskTexture uv) (Shader.color st))
          /\ (Shader.color (Shader.iteration uniforms diskTexture skyTexture st) = c1
              \/ (exists uv,
                    Shader.color (Shader.iteration uniforms diskTexture skyTexture st)
                    = Shader.addColor (skyTexture uv) c1)
              \/ Shader.color (Shader.iteration uniforms diskTexture skyTexture st)
                 = Shader.addColor (Shader.mkVec4 0 0 0 1) (Shader.color st)
              \/ exists uv,
                   Shader.color (Shader.iteration uniforms diskTexture skyTexture st)
                   = diskTexture uv))
  /\ (forall hitColor, Utils.addColor hitColor ArgbColor.Transparent = hitColor)
  /\ (forall hitColor tintColor,
        ArgbColor.equals tintColor ArgbColor.Transparent = false ->
        ArgbColor.a (Utils.addColor hitColor tintColor) = 255).
Proof.
  intro b. split; [|split; [|split; [|split; [|split]]]].
  - intro H. unfold Shader.addColor. rewrite Reqb_true by exact H. reflexivity.
  - intro H. unfold Shader.addColor. rewrite Reqb_false by exact H. reflexivity.
  - intros HS HC. pose proof (brightness_le_1 C HC) as Hb. fold b in Hb.
    destruct HS as (Sr & Sg & Sb).
    unfold Shader.addColor, Spec.addColor. fold b.
    destruct (Shader.a C =? 0); [reflexivity|].
    assert (forall s c, 0 <= s -> 0 <= (1 - b) * s + Rmax c 0 * 255 / 205) as Hpos.
    { intros s c Hs. pose proof (Rmax_r c 0).
      assert (0 <= (1 - b) * s) by (apply Rmult_le_pos; lra). lra. }
    rewrite !clamp_above by (apply Hpos; lra). reflexivity.
  - intros uniforms diskTexture skyTexture st.
    unfold Shader.iteration. cbv zeta.
    match goal with
    | |- context [if ?c then _ else _] => destruct c
    end.
    + exists (Shader.color st). split; [left; reflexivity|].
      simpl. unfold Shader.horizonColor. cbv zeta.
      match goal with
      | |- context [if ?c then _ else _] => destruct c
      end.
      * right; right; right. eexists; reflexivity.
      * right; right; left. reflexivity.
    + match goal with
      | |- context [Shader.diskCheck ?u ?d ?p ?r ?phi ?c] =>
          exists (Shader.diskCheck u d p r phi c);
          split; [destruct (diskCheck_cases u d p r phi c) as [E | E];
                  [left; exact E | right; eexists; exact E]|]
      end.
      match goal with
      | |- context [if ?c then _ else _] => destruct c
      end; simpl.
      * right; left. eexists; reflexivity.
      * left; reflexivity.
  - intro hitColor. unfold Utils.addColor, ArgbColor.equals, ArgbColor.Transparent. simpl.
    rewrite !Reqb_true by reflexivity. reflexivity.
  - intros hitColor tintColor H. unfold Utils.addColor. rewrite H. reflexivity.
Qed.

Lemma C8_additive_compositing_witness :
  Shader.a (Shader.mkVec4 0 0 0 0) = 0
  /\ Shader.addColor (Shader.mkVec4 0 0 1 1) (Shader.mkVec4 0 0 0 0)
     = Shader.mkVec4 0 0 1 1
  /\ inRange (Shader.mkVec4 0 0 1 1)
  /\ inRange (Shader.mkVec4 (5 / 10) 0 0 1)
  /\ Shader.addColor (Shader.mkVec4 0 0 1 1) (Shader.mkVec4 (5 / 10) 0 0 1)
     = Spec.addColor 1 (Shader.mkVec4 (5 / 10) 0 0 1) (Shader.mkVec4 0 0 1 1).
Proof.
  assert (inRange (Shader.mkVec4 0 0 1 1)) as H1 by (unfold inRange; simpl; lra).
  assert (inRange (Shader.mkVec4 (5 / 10) 0 0 1)) as H2 by (unfold inRange; simpl; lra).
  split; [reflexivity|].
  split; [exact (proj1 (C8_additive_compositing (Shader.mkVec4 0 0 1 1)
                          (Shader.mkVec4 0 0 0 0)) eq_refl)|].
  split; [exact H1|]. split; [exact H2|].
  exact (proj1 (proj2 (proj2 (C8_additive_compositing (Shader.mkVec4 0 0 1 1)
                                (Shader.mkVec4 (5 / 10) 0 0 1)))) H1 H2).
Defined.

(** ** The horizon refinement *)

(** The point through which the refinement passes at the step [t]. *)
Lemma bisectionRound_fields uniforms ray prevPoint s :
  let stepMid := (Shader.stepLow s + Shader.stepHigh s) / 2 in
  let trial := Shader.add3 prevPoint (Shader.scale3 (Shader.direction ray) stepMid) in
  let s' := Shader.bisectionRound uniforms ray prevPoint s in
  Shader.intersectionPoint s' = trial
  /\ (Shader.length trial < Shader.horizonRadius uniforms ->
      Shader.stepLow s' = Shader.stepLow s /\ Shader.stepHigh s' = stepMid)
  /\ (~ Shader.length trial < Shader.horizonRadius uniforms ->
      Shader.stepLow s' = stepMid /\ Shader.stepHigh s' = Shader.stepHigh s).
Proof.
  intros stepMid trial s'. unfold s', Shader.bisectionRound. cbv zeta.
  fold stepMid. fold trial.
  destruct (Rlt_dec (Shader.length trial) (Shader.horizonRadius uniforms)) as [H|H].
  - rewrite Rltb_true by exact H. simpl. tauto.
  - rewrite Rltb_false by exact H. simpl. tauto.
Qed.

(** Every round halves the bracket. *)
Lemma bisectionRounds_width n uniforms ray prevPoint step :
  Shader.stepHigh (Shader.bisectionRounds n uniforms ray prevPoint step)
  - Shader.stepLow (Shader.bisectionRounds n uniforms ray prevPoint step)
  = step / 2 ^ n.
Proof.
  induction n as [|n IH].
  - simpl. field.
  - unfold Shader.bisectionRounds in *. simpl Nat.iter.
    set (s := Nat.iter n _ _) in *.
    destruct (bisectionRound_fields uniforms ray prevPoint s) as (_ & Hin & Hout).
    destruct (Rlt_dec
                (Shader.length
                   (Shader.add3 prevPoint
                      (Shader.scale3 (Shader.direction ray)
                         ((Shader.stepLow s + Shader.stepHigh s) / 2))))
                (Shader.horizonRadius uniforms)) as [H|H].
    + destruct (Hin H) as [-> ->]. simpl pow.
      replace (step / (2 * 2 ^ n)) with (step / 2 ^ n / 2)
        by (field; apply pow_nonzero; lra).
      rewrite <- IH. field.
    + destruct (Hout H) as [-> ->]. simpl pow.
      replace (step / (2 * 2 ^ n)) with (step / 2 ^ n / 2)
        by (field; apply pow_nonzero; lra).
      rewrite <- IH. field.
Qed.

Lemma length_nonneg (p : Shader.vec3) : 0 <= Shader.length p.
Proof. apply sqrt_pos. Qed.

Lemma length_sqr (p : Shader.vec3) : Shader.length p * Shader.length p = Shader.dot p p.
Proof. apply sqrt_sqrt, dot_self_nonneg. Qed.

Lemma dot_le_lengths (p q : Shader.vec3) :
  Shader.dot p q <= Shader.length p * Shader.length q.
Proof.
  pose proof (length_nonneg p) as Hp. pose proof (length_nonneg q) as Hq.
  pose proof (length_sqr p) as Sp. pose proof (length_sqr q) as Sq.
  assert (Shader.dot p q * Shader.dot p q <= Shader.dot p p * Shader.dot q q) as CS.
  { unfold Shader.dot. destruct p as [p1 p2 p3], q as [q1 q2 q3]. simpl.
    pose proof (Rle_0_sqr (p1 * q2 - p2 * q1)) as H1.
    pose proof (Rle_0_sqr (p1 * q3 - p3 * q1)) as H2.
    pose proof (Rle_0_sqr (p2 * q3 - p3 * q2)) as H3.
    unfold Rsqr in H1, H2, H3.
    clear Hp Hq Sp Sq. lra. }
  rewrite <- Sp, <- Sq in CS.
  destruct (Rle_dec (Shader.dot p q) (Shader.length p * Shader.length q)) as [H|H];
    [exact H|].
  exfalso.
  assert (0 <= Shader.length p * Shader.length q) as Hpq by (apply Rmult_le_pos; lra).
  assert (Shader.length p * Shader.length q * (Shader.length p * Shader.length q)
          < Shader.dot p q * Shader.dot p q) as Hlt
    by (apply Rmult_le_0_lt_compat; lra).
  replace (Shader.length p * Shader.length p * (Shader.length q * Shader.length q))
    with (Shader.length p * Shader.length q * (Shader.length p * Shader.length q))
    in CS by ring.
  lra.
Qed.

Lemma length_triangle (p q : Shader.vec3) :
  Shader.length (Shader.add3 p q) <= Shader.length p + Shader.length q.
Proof.
  pose proof (length_nonneg p) as Hp. pose proof (length_nonneg q) as Hq.
  pose proof (length_sqr p) as Sp. pose proof (length_sqr q) as Sq.
  pose proof (dot_le_lengths p q) as CS.
  rewrite <- (sqrt_square (Shader.length p + Shader.length q)) by lra.
  unfold Shader.length at 1. apply sqrt_le_1_alt.
  replace (Shader.dot (Shader.add3 p q) (Shader.add3 p q))
    with (Shader.dot p p + 2 * Shader.dot p q + Shader.dot q q)
    by (unfold Shader.dot, Shader.add3; simpl; ring).
  nra.
Qed.

Lemma length_difference (p q : Shader.vec3) :
  Shader.length p - Shader.length q <= Shader.length (Shader.sub3 p q).
Proof.
  pose proof (length_triangle (Shader.sub3 p q) q) as H.
  replace (Shader.add3 (Shader.sub3 p q) q) with p in H
    by (apply vec3_eq; simpl; ring).
  lra.
Qed.

Lemma length_scale (d : Shader.vec3) (t : R) :
  Shader.length (Shader.scale3 d t) = Shader.length d * Rabs t.
Proof.
  unfold Shader.length.
  replace (Shader.dot (Shader.scale3 d t) (Shader.scale3 d t))
    with (Shader.dot d d * Rsqr t)
    by (unfold Shader.dot, Shader.scale3, Rsqr; simpl; ring).
  rewrite sqrt_mult by (apply dot_self_nonneg || apply Rle_0_sqr).
  rewrite sqrt_Rsqr_abs. reflexivity.
Qed.

(** Two trial points are no further apart than the speed times the
    difference of their steps. *)
Lemma trial_lipschitz (prevPoint d : Shader.vec3) (t u : R) :
  t <= u ->
  Shader.length (Shader.add3 prevPoint (Shader.scale3 d t))
  - Shader.length (Shader.add3 prevPoint (Shader.scale3 d u))
  <= Shader.length d * (u - t).
Proof.
  intro H.
  eapply Rle_trans; [apply length_difference|].
  replace (Shader.sub3 (Shader.add3 prevPoint (Shader.scale3 d t))
             (Shader.add3 prevPoint (Shader.scale3 d u)))
    with (Shader.scale3 d (t - u)) by (apply vec3_eq; simpl; ring).
  rewrite length_scale. rewrite Rabs_left1 by lra. right. ring.
Qed.

(** The refinement keeps its lower bound outside the horizon; its upper
    bound is the full step until a trial point is found inside. *)
Lemma bisectionRounds_bracket n uniforms ray prevPoint step :
  let trial := fun t => Shader.add3 prevPoint (Shader.scale3 (Shader.direction ray) t) in
  let s := Shader.bisectionRounds n uniforms ray prevPoint step in
  0 <= step ->
  Shader.horizonRadius uniforms <= Shader.length prevPoint ->
  Shader.horizonRadius uniforms <= Shader.length (trial (Shader.stepLow s))
  /\ (Shader.stepHigh s = step
      \/ Shader.length (trial (Shader.stepHigh s)) < Shader.horizonRadius uniforms)
  /\ 0 <= Shader.stepLow s
  /\ Shader.stepLow s <= Shader.stepHigh s
  /\ Shader.stepHigh s <= step.
Proof.
  intros trial s H0 Hprev. unfold s. clear s.
  induction n as [|n IH].
  - simpl. split; [|split; [left; reflexivity | lra]].
    replace (trial 0) with prevPoint by (apply vec3_eq; simpl; ring). exact Hprev.
  - unfold Shader.bisectionRounds in *. simpl Nat.iter.
    set (s := Nat.iter n _ _) in *.
    destruct IH as (Hlo & Hhi & Hl0 & Hle & Hhs).
    destruct (bisectionRound_fields uniforms ray prevPoint s) as (_ & Hin & Hout).
    fold (trial ((Shader.stepLow s + Shader.stepHigh s) / 2)) in Hin, Hout.
    destruct (Rlt_dec (Shader.length (trial ((Shader.stepLow s + Shader.stepHigh s) / 2)))
                (Shader.horizonRadius uniforms)) as [H|H].
    + destruct (Hin H) as [-> ->].
      split; [exact Hlo|]. split; [right; exact H|]. lra.
    + destruct (Hout H) as [-> ->].
      assert (Shader.horizonRadius uniforms
              <= Shader.length (trial ((Shader.stepLow s + Shader.stepHigh s) / 2)))
        as H' by lra.
      split; [exact H'|]. split; [exact Hhi|]. lra.
Qed.

Lemma bisectionRounds_point n uniforms ray prevPoint step :
  let trial := fun t => Shader.add3 prevPoint (Shader.scale3 (Shader.direction ray) t) in
  let s := Shader.bisectionRounds (S n) uniforms ray prevPoint step in
  (Shader.intersectionPoint s = trial (Shader.stepHigh s)
   /\ Shader.length (Shader.intersectionPoint s) < Shader.horizonRadius uniforms)
  \/ (Shader.intersectionPoint s = trial (Shader.stepLow s)
      /\ ~ Shader.length (Shader.intersectionPoint s) < Shader.horizonRadius uniforms).
Proof.
  intros trial s. unfold s, Shader.bisectionRounds. simpl Nat.iter.
  set (s0 := Nat.iter n _ _).
  destruct (bisectionRound_fields uniforms ray prevPoint s0) as (Hp & Hin & Hout).
  fold (trial ((Shader.stepLow s0 + Shader.stepHigh s0) / 2)) in Hp, Hin, Hout.
  destruct (Rlt_dec (Shader.length (trial ((Shader.stepLow s0 + Shader.stepHigh s0) / 2)))
              (Shader.horizonRadius uniforms)) as [H|H].
  - left. destruct (Hin H) as [_ ->]. rewrite Hp. split; [reflexivity | exact H].
  - right. destruct (Hout H) as [-> _]. rewrite Hp. split; [reflexivity | exact H].
Qed.

(** The iteration that crosses the horizon refines the crossing from the
    previous position, with the ray as [applyEquation] left it and the step
    of that iteration, and stops. *)
Lemma iteration_horizon uniforms diskTexture skyTexture st :
  let prevPoint := Shader.origin (Shader.ray st) in
  let step :=
    (Shader.length prevPoint / 30) * Shader.stepSize (Shader.blackHole uniforms) in
  let ray' := Shader.applyEquation uniforms (Shader.ray st) step in
  Shader.dot (Shader.origin ray') (Shader.origin ray')
  < Shader.horizonRadius uniforms * Shader.horizonRadius uniforms ->
  Shader.horizonRadius uniforms * Shader.horizonRadius uniforms
  < Shader.dot prevPoint prevPoint ->
  Shader.iteration uniforms diskTexture skyTexture st
  = Shader.mkTrace ray'
      (Shader.horizonColor uniforms diskTexture
         (Shader.intersectionPoint (Shader.horizonBisection uniforms ray' prevPoint step))
         (Shader.color st))
      true.
Proof.
  intros prevPoint step ray' H1 H2. unfold Shader.iteration. cbv zeta.
  fold prevPoint. fold step. fold ray'.
  rewrite (Rltb_true _ _ H1), (Rltb_true _ _ H2). reflexivity.
Qed.

Lemma length_axis_x (c : R) : 0 <= c -> Shader.length (Shader.mkVec3 c 0 0) = c.
Proof.
  intro H. unfold Shader.length, Shader.dot; simpl.
  replace (c * c + 0 * 0 + 0 * 0) with (c * c) by ring. apply sqrt_square. exact H.
Qed.

Lemma pastHorizon_direction :
  Shader.direction Example.pastHorizon = Shader.mkVec3 (-1) 0 0.
Proof.
  unfold Example.pastHorizon, Shader.applyEquation. simpl.
  apply vec3_eq; simpl; unfold Rdiv; ring.
Qed.

Lemma pastHorizon_origin :
  Shader.origin Example.pastHorizon = Shader.mkVec3 (373 / 187) 0 0.
Proof.
  unfold Example.pastHorizon, Shader.applyEquation. simpl.
  apply vec3_eq; simpl; lra.
Qed.

(** On the ray of the example every round after the first lowers the upper
    bound: after [n + 2] rounds the bracket is
    [1/187, (1 + 2^-(n+1)) / 187] and the point is the trial point at the
    upper bound. *)
Lemma radial_rounds (n : nat) :
  let s :=
    Shader.bisectionRounds (S (S n)) Example.uniforms Example.pastHorizon
      (Shader.origin Example.atHorizon) (2 / 187) in
  Shader.stepLow s = 1 / 187
  /\ Shader.stepHigh s = (1 + / 2 ^ (S n)) / 187
  /\ Shader.intersectionPoint s = Shader.mkVec3 (2 - / 2 ^ (S n) / 187) 0 0.
Proof.
  assert (forall t, Shader.add3 (Shader.origin Example.atHorizon)
                      (Shader.scale3 (Shader.direction Example.pastHorizon) t)
                    = Shader.mkVec3 (375 / 187 - t) 0 0) as Htrial.
  { intro t. rewrite pastHorizon_direction. apply vec3_eq; simpl; ring. }
  induction n as [|n IH].
  - cbv zeta. unfold Shader.bisectionRounds. rewrite !Nat.iter_succ.
    unfold Nat.iter at 1 2 3; cbn [nat_rect].
    set (s0 := Shader.mkBisection 0 (2 / 187) _ _).
    destruct (bisectionRound_fields Example.uniforms Example.pastHorizon
                (Shader.origin Example.atHorizon) s0) as (_ & _ & Hout).
    set (s1 := Shader.bisectionRound _ _ _ s0) in *.
    rewrite Htrial in Hout.
    change (Shader.horizonRadius Example.uniforms) with 2 in Hout.
    change (Shader.stepLow s0) with 0 in Hout.
    change (Shader.stepHigh s0) with (2 / 187) in Hout.
    rewrite length_axis_x in Hout by lra.
    destruct Hout as [L1 H1]; [lra|].
    destruct (bisectionRound_fields Example.uniforms Example.pastHorizon
                (Shader.origin Example.atHorizon) s1) as (Hp & Hin & _).
    rewrite Htrial in Hp, Hin. rewrite L1, H1 in Hp, Hin.
    change (Shader.horizonRadius Example.uniforms) with 2 in Hin.
    rewrite length_axis_x in Hin by lra.
    destruct Hin as [L2 H2]; [lra|].
    rewrite L2, H2, Hp. simpl pow.
    split; [lra|]. split; [lra|]. apply vec3_eq; simpl; lra.
  - cbv zeta in *. unfold Shader.bisectionRounds in *.
    rewrite (Nat.iter_succ (S (S n))).
    set (s := Nat.iter (S (S n)) _ _) in *.
    destruct IH as (L & H & _).
    assert (0 < / 2 ^ S n) as Hpos by (apply Rinv_0_lt_compat, pow_lt; lra).
    assert (/ 2 ^ S (S n) = / 2 ^ S n / 2) as Hhalf.
    { simpl pow. field. apply pow_nonzero. lra. }
    assert (/ 2 ^ S n <= 1) as Hle.
    { rewrite <- Rinv_1. apply Rinv_le_contravar; [lra|].
      apply pow_R1_Rle. lra. }
    destruct (bisectionRound_fields Example.uniforms Example.pastHorizon
                (Shader.origin Example.atHorizon) s) as (Hp & Hin & _).
    rewrite Htrial in Hp, Hin. rewrite L, H in Hp, Hin.
    change (Shader.horizonRadius Example.uniforms) with 2 in Hin.
    rewrite length_axis_x in Hin by lra.
    destruct Hin as [L2 H2]; [lra|].
    rewrite L2, H2, Hp, Hhalf.
    split; [reflexivity|]. split; [lra|]. apply vec3_eq; simpl; lra.
Qed.

(** On a ray that falls straight in along the x axis (velocity of length 1,
    step size 0.16) the distance s / 2^10 is attained: from |p-| = 375/187
    the step of size s = 2/187 takes the ray to 373/187, across the horizon
    radius 2; the first midpoint lands exactly on the horizon, every later
    one inside, and after the ten rounds the returned point is at distance
    exactly s / 2^10 from the horizon. *)
Lemma radial_refinement_attains_the_bound :
  (forall diskTexture skyTexture color,
     Shader.iteration Example.uniforms diskTexture skyTexture
       (Shader.mkTrace Example.atHorizon color false)
     = Shader.mkTrace Example.pastHorizon
         (Shader.horizonColor Example.uniforms diskTexture
            (Shader.intersectionPoint
               (Shader.horizonBisection Example.uniforms Example.pastHorizon
                  (Shader.origin Example.atHorizon) (2 / 187)))
            color)
         true)
  /\ (Shader.length (Shader.origin Example.atHorizon) / 30)
     * Shader.stepSize (Shader.blackHole Example.uniforms) = 2 / 187
  /\ Shader.length (Shader.direction Example.atHorizon) = 1
  /\ Shader.horizonRadius Example.uniforms < Shader.length (Shader.origin Example.atHorizon)
  /\ Shader.length (Shader.origin Example.pastHorizon) < Shader.horizonRadius Example.uniforms
  /\ Rabs (Shader.length
             (Shader.intersectionPoint
                (Shader.horizonBisection Example.uniforms Example.pastHorizon
                   (Shader.origin Example.atHorizon) (2 / 187)))
           - Shader.horizonRadius Example.uniforms)
     = / 2 ^ 10 * (2 / 187)
  /\ ~ Rabs (Shader.length
               (Shader.intersectionPoint
                  (Shader.horizonBisection Example.uniforms Example.pastHorizon
                     (Shader.origin Example.atHorizon) (2 / 187)))
             - Shader.horizonRadius Example.uniforms)
       < / 2 ^ 10 * (2 / 187).
Proof.
  assert (Shader.length (Shader.origin Example.atHorizon) = 375 / 187) as Hlen
    by (apply length_axis_x; lra).
  assert (Rabs (Shader.length
             (Shader.intersectionPoint
                (Shader.horizonBisection Example.uniforms Example.pastHorizon
                   (Shader.origin Example.atHorizon) (2 / 187)))
           - Shader.horizonRadius Example.uniforms)
          = / 2 ^ 10 * (2 / 187)) as Herr.
  { destruct (radial_rounds 8) as (_ & _ & Hp).
    unfold Shader.horizonBisection. rewrite Hp.
    change (Shader.horizonRadius Example.uniforms) with 2.
    rewrite length_axis_x by (simpl; lra).
    rewrite Rabs_left by (simpl; lra). simpl. lra. }
  assert ((Shader.length (Shader.origin Example.atHorizon) / 30)
          * Shader.stepSize (Shader.blackHole Example.uniforms) = 2 / 187) as Hstep
    by (rewrite Hlen; simpl; lra).
  split.
  { intros diskTexture skyTexture color.
    rewrite iteration_horizon; cbn [Shader.ray Shader.color]; rewrite ?Hstep.
    - reflexivity.
    - fold Example.pastHorizon. rewrite pastHorizon_origin.
      unfold Shader.dot. simpl. lra.
    - unfold Shader.dot. simpl. lra. }
  split; [exact Hstep|].
  split.
  { unfold Shader.length, Shader.dot. simpl.
    replace (-1 * -1 + 0 * 0 + 0 * 0) with 1 by ring. apply sqrt_1. }
  split; [rewrite Hlen; simpl; lra|].
  split; [rewrite pastHorizon_origin, length_axis_x by lra; simpl; lra|].
  split; [exact Herr|].
  rewrite Herr. apply Rlt_irrefl.
Qed.

(** After at least one round the returned point is inside the horizon by
    no more than the speed times the width of the bracket, and outside it
    by no more than that plus the distance by which the end of the trial
    line fails to be inside. *)
Lemma bisectionRounds_distance n uniforms ray prevPoint step :
  let trial := fun t => Shader.add3 prevPoint (Shader.scale3 (Shader.direction ray) t) in
  let s := Shader.bisectionRounds (S n) uniforms ray prevPoint step in
  let rH := Shader.horizonRadius uniforms in
  let w := Shader.length (Shader.direction ray) * (step / 2 ^ S n) in
  0 <= step ->
  rH <= Shader.length prevPoint ->
  - w <= Shader.length (Shader.intersectionPoint s) - rH
  /\ Shader.length (Shader.intersectionPoint s) - rH
     <= w + Rmax 0 (Shader.length (trial step) - rH).
Proof.
  intros trial s rH w H0 Hprev.
  pose proof (bisectionRounds_width (S n) uniforms ray prevPoint step) as Hw.
  destruct (bisectionRounds_bracket (S n) uniforms ray prevPoint step H0 Hprev)
    as (Hlo & Hhi & _ & Hle & _).
  pose proof (trial_lipschitz prevPoint (Shader.direction ray) _ _ Hle) as Hlip.
  rewrite Hw in Hlip.
  assert (0 <= w) as Hw0.
  { unfold w. apply Rmult_le_pos; [apply length_nonneg|].
    apply Rmult_le_pos; [exact H0|]. apply Rlt_le, Rinv_0_lt_compat, pow_lt. lra. }
  pose proof (Rmax_l 0 (Shader.length (trial step) - rH)) as M0.
  pose proof (Rmax_r 0 (Shader.length (trial step) - rH)) as M1.
  destruct (bisectionRounds_point n uniforms ray prevPoint step) as [[E Hin] | [E Hout]].
  - unfold s. rewrite E in Hin |- *. unfold trial, rH, w in *. split; lra.
  - unfold s. rewrite E in Hout |- *.
    destruct Hhi as [Hs | Hhi].
    + rewrite Hs in Hlip. unfold trial, rH, w in *. split; lra.
    + unfold trial, rH, w in *. split; lra.
Qed.

(** The end of the trial line is the point the step reached, moved along
    its own direction by the acceleration of the step. *)
Lemma trial_end uniforms ray step :
  let ray' := Shader.applyEquation uniforms ray step in
  let coefficient :=
    Shader.potentialCoefficient (Shader.blackHole uniforms) * Shader.h2 ray
    / Math.pow (Shader.dot (Shader.origin ray') (Shader.origin ray')) (5 / 2) in
  Shader.add3 (Shader.origin ray) (Shader.scale3 (Shader.direction ray') step)
  = Shader.scale3 (Shader.origin ray') (1 + coefficient * (step * step)).
Proof.
  intros ray' coefficient. unfold coefficient, ray', Shader.applyEquation. cbv zeta.
  cbn [Shader.origin Shader.direction].
  apply vec3_eq; simpl; ring.
Qed.

Lemma length_below (p : Shader.vec3) (c : R) :
  0 <= c -> Shader.dot p p < c * c -> Shader.length p < c.
Proof.
  intros Hc H. unfold Shader.length.
  rewrite <- (sqrt_square c) by exact Hc.
  apply sqrt_lt_1_alt. split; [apply dot_self_nonneg | exact H].
Qed.

Lemma length_above (p : Shader.vec3) (c : R) :
  0 <= c -> c * c <= Shader.dot p p -> c <= Shader.length p.
Proof.
  intros Hc H. unfold Shader.length.
  rewrite <- (sqrt_square c) by exact Hc.
  apply sqrt_le_1_alt. exact H.
Qed.

(** ** The ray that grazes the horizon *)

Lemma grazing_length : Shader.length (Shader.origin Example.grazing) = 160001 / 80000.
Proof.
  unfold Shader.length. apply sqrt_lem_1.
  - apply dot_self_nonneg.
  - lra.
  - unfold Shader.dot. simpl. lra.
Qed.

Lemma grazing_step :
  (Shader.length (Shader.origin Example.grazing) / 30)
  * Shader.stepSize (Shader.blackHole Example.repulsiveUniforms)
  = Example.grazingStep.
Proof. rewrite grazing_length. unfold Example.grazingStep. simpl. lra. Qed.

(** The step takes the ray to (0, 1.9999875, 0) and turns its velocity
    outwards. *)
Lemma grazed_ray :
  Shader.origin Example.grazed = Shader.mkVec3 0 (159999 / 80000) 0
  /\ Shader.direction Example.grazed
     = Shader.mkVec3 (-150000 / 160001)
         (48000000000000 / (160001 * (159999 * 159999))) 0.
Proof.
  assert (Shader.origin Example.grazed = Shader.mkVec3 0 (159999 / 80000) 0) as Ho.
  { unfold Example.grazed, Example.grazingStep, Shader.applyEquation. cbv zeta.
    cbn [Shader.origin]. apply vec3_eq; simpl; lra. }
  split; [exact Ho|].
  unfold Example.grazed, Shader.applyEquation in *. cbv zeta in *.
  cbn [Shader.origin Shader.direction] in *. rewrite Ho.
  assert (Shader.dot (Shader.mkVec3 0 (159999 / 80000) 0)
            (Shader.mkVec3 0 (159999 / 80000) 0)
          = 159999 / 80000 * (159999 / 80000)) as ->
    by (unfold Shader.dot; simpl; ring).
  rewrite pow_five_halves by lra. rewrite sqrt_square by lra.
  change (Shader.potentialCoefficient (Shader.blackHole Example.repulsiveUniforms)) with 5.
  unfold Example.grazingStep.
  apply vec3_eq; simpl; unfold Shader.dot, Shader.cross3; simpl; field.
Qed.

(** Every point of the trial line, from the previous position along the
    velocity after the step, is outside the horizon. *)
Lemma grazing_trial_outside (t : R) :
  0 <= t ->
  ~ Shader.length
      (Shader.add3 (Shader.origin Example.grazing)
         (Shader.scale3 (Shader.direction Example.grazed) t))
    < Shader.horizonRadius Example.repulsiveUniforms.
Proof.
  intro Ht. destruct grazed_ray as [_ ->].
  change (Shader.horizonRadius Example.repulsiveUniforms) with 2.
  apply Rle_not_lt. apply length_above; [lra|].
  unfold Shader.dot. simpl.
  set (vy := 48000000000000 / (160001 * (159999 * 159999))).
  assert (vy * (160001 * (159999 * 159999)) = 48000000000000) as Evy
    by (unfold vy; field).
  assert (117 / 10000 < vy) as Hvy by lra.
  clearbody vy. clear Evy.
  assert (0 <= t * (vy - 117 / 10000)) as Hp by (apply Rmult_le_pos; lra).
  pose proof (Rle_0_sqr (-150000 / 160001 * t)) as H1.
  pose proof (Rle_0_sqr (vy * t)) as H2.
  unfold Rsqr in H1, H2. nra.
Qed.

(** When no point of the trial line over [0, step] is inside the horizon,
    every round raises the lower bound: after [n + 1] rounds the bracket is
    [step * (1 - 2^-(n+1)), step] and the point is the trial point at its
    lower bound. *)
Lemma bisectionRounds_never_inside n uniforms ray prevPoint step :
  let trial := fun t => Shader.add3 prevPoint (Shader.scale3 (Shader.direction ray) t) in
  let s := Shader.bisectionRounds (S n) uniforms ray prevPoint step in
  0 <= step ->
  (forall t, 0 <= t -> ~ Shader.length (trial t) < Shader.horizonRadius uniforms) ->
  Shader.stepLow s = step * (1 - / 2 ^ S n)
  /\ Shader.stepHigh s = step
  /\ Shader.intersectionPoint s = trial (step * (1 - / 2 ^ S n)).
Proof.
  intros trial s H0 Hout. unfold s. clear s.
  induction n as [|n IH].
  - unfold Shader.bisectionRounds. simpl Nat.iter.
    set (s0 := Shader.mkBisection 0 step _ _).
    destruct (bisectionRound_fields uniforms ray prevPoint s0) as (Hp & _ & Hno).
    change (Shader.stepLow s0) with 0 in *. change (Shader.stepHigh s0) with step in *.
    destruct Hno as [L H]; [apply Hout; lra|]. rewrite L, H, Hp.
    simpl pow. split; [field|]. split; [reflexivity|].
    unfold trial. f_equal. f_equal. field.
  - unfold Shader.bisectionRounds in *. rewrite (Nat.iter_succ (S n)).
    set (s := Nat.iter (S n) _ _) in *.
    destruct IH as (L & H & _).
    assert (0 < / 2 ^ S n) as Hpos by (apply Rinv_0_lt_compat, pow_lt; lra).
    assert (/ 2 ^ S n <= 1) as Hle.
    { rewrite <- Rinv_1. apply Rinv_le_contravar; [lra|]. apply pow_R1_Rle. lra. }
    assert (/ 2 ^ S (S n) = / 2 ^ S n / 2) as Hhalf.
    { simpl pow. field. apply pow_nonzero. lra. }
    destruct (bisectionRound_fields uniforms ray prevPoint s) as (Hp & _ & Hno).
    rewrite L, H in Hp, Hno.
    assert ((step * (1 - / 2 ^ S n) + step) / 2 = step * (1 - / 2 ^ S (S n))) as E
      by (rewrite Hhalf; field; apply pow_nonzero; lra).
    rewrite E in Hp, Hno.
    destruct Hno as [L' H'].
    { apply Hout. apply Rmult_le_pos; [exact H0|]. rewrite Hhalf. lra. }
    rewrite L', H', Hp. repeat split; reflexivity.
Qed.

Lemma length_ge_y (p : Shader.vec3) : Shader.y p <= Shader.length p.
Proof.
  destruct (Rle_dec 0 (Shader.y p)) as [H|H].
  - apply length_above; [exact H|].
    unfold Shader.dot. pose proof (Rle_0_sqr (Shader.x p)) as Hx.
    pose proof (Rle_0_sqr (Shader.z p)) as Hz. unfold Rsqr in Hx, Hz. lra.
  - pose proof (length_nonneg p). lra.
Qed.

(** In the refinement of the grazing ray no midpoint is inside the horizon:
    the point returned is the trial point at s * (1 - 2^-10). *)
Lemma grazing_refinement :
  Shader.intersectionPoint
    (Shader.horizonBisection Example.repulsiveUniforms Example.grazed
       (Shader.origin Example.grazing) Example.grazingStep)
  = Shader.add3 (Shader.origin Example.grazing)
      (Shader.scale3 (Shader.direction Example.grazed)
         (Example.grazingStep * (1 - / 2 ^ 10))).
Proof.
  assert (0 <= Example.grazingStep) as H0 by (unfold Example.grazingStep; lra).
  exact (proj2 (proj2 (bisectionRounds_never_inside 9 Example.repulsiveUniforms
                         Example.grazed (Shader.origin Example.grazing)
                         Example.grazingStep H0 grazing_trial_outside))).
Qed.

(** C9, as stated, fails.  With the potential coefficient 5 and the step
    size 0.16 a ray passes the horizon (radius 2) almost tangentially: at
    p- = (0.01, 1.9999875, 0), |p-| = 2.0000125, with the velocity
    (-0.9375, 0, 0) of length below 1, its step of size s = 0.0106667 takes
    it to p = (0, 1.9999875, 0), |p| < 2, and turns its velocity outwards.
    The loop iteration runs the refinement from p- with that step, along the
    velocity after the step: on that line no midpoint is inside the horizon,
    the ten rounds return the trial point at s * (1 - 2^-10), and its
    distance from the horizon radius is more than ten times s / 2^10. *)
Lemma C9_grazing_ray_misses_the_bound :
  (forall diskTexture skyTexture color,
     Shader.iteration Example.repulsiveUniforms diskTexture skyTexture
       (Shader.mkTrace Example.grazing color false)
     = Shader.mkTrace Example.grazed
         (Shader.horizonColor Example.repulsiveUniforms diskTexture
            (Shader.intersectionPoint
               (Shader.horizonBisection Example.repulsiveUniforms Example.grazed
                  (Shader.origin Example.grazing) Example.grazingStep))
            color)
         true)
  /\ (Shader.length (Shader.origin Example.grazing) / 30)
     * Shader.stepSize (Shader.blackHole Example.repulsiveUniforms)
     = Example.grazingStep
  /\ Shader.horizonRadius Example.repulsiveUniforms
     < Shader.length (Shader.origin Example.grazing)
  /\ Shader.length (Shader.origin Example.grazed)
     < Shader.horizonRadius Example.repulsiveUniforms
  /\ Shader.length (Shader.direction Example.grazing) < 1
  /\ Shader.length (Shader.direction Example.grazed) < 1
  /\ 10 * (/ 2 ^ 10 * Example.grazingStep)
     < Shader.length
         (Shader.intersectionPoint
            (Shader.horizonBisection Example.repulsiveUniforms Example.grazed
               (Shader.origin Example.grazing) Example.grazingStep))
       - Shader.horizonRadius Example.repulsiveUniforms
  /\ ~ Rabs (Shader.length
               (Shader.intersectionPoint
                  (Shader.horizonBisection Example.repulsiveUniforms Example.grazed
                     (Shader.origin Example.grazing) Example.grazingStep))
             - Shader.horizonRadius Example.repulsiveUniforms)
       < / 2 ^ 10 * Example.grazingStep.
Proof.
  destruct grazed_ray as [Ho Hd].
  set (vy := 48000000000000 / (160001 * (159999 * 159999))) in Hd.
  assert (vy * (160001 * (159999 * 159999)) = 48000000000000) as Evy
    by (unfold vy; field).
  assert (117 / 10000 < vy < 118 / 10000) as Hvy by (split; lra).
  clearbody vy. clear Evy.
  assert (10 * (/ 2 ^ 10 * Example.grazingStep)
          < Shader.length
              (Shader.intersectionPoint
                 (Shader.horizonBisection Example.repulsiveUniforms Example.grazed
                    (Shader.origin Example.grazing) Example.grazingStep))
            - Shader.horizonRadius Example.repulsiveUniforms) as Herr.
  { rewrite grazing_refinement, Hd.
    change (Shader.horizonRadius Example.repulsiveUniforms) with 2.
    eapply Rlt_le_trans; [|apply Rplus_le_compat_r, length_ge_y].
    unfold Example.grazingStep. simpl. nra. }
  split.
  { intros diskTexture skyTexture color.
    rewrite iteration_horizon; cbn [Shader.ray Shader.color]; rewrite ?grazing_step;
      fold Example.grazed.
    - reflexivity.
    - rewrite Ho. unfold Shader.dot. simpl. lra.
    - unfold Shader.dot. simpl. lra. }
  split; [exact grazing_step|].
  split; [rewrite grazing_length; simpl; lra|].
  split.
  { rewrite Ho. change (Shader.horizonRadius Example.repulsiveUniforms) with 2.
    apply length_below; [lra|]. unfold Shader.dot. simpl. lra. }
  split; [apply length_below; [lra|]; unfold Shader.dot; simpl; lra|].
  split; [rewrite Hd; apply length_below; [lra|]; unfold Shader.dot; simpl; nra|].
  split; [exact Herr|].
  assert (0 < / 2 ^ 10 * Example.grazingStep) as Hpos
    by (unfold Example.grazingStep; simpl; lra).
  intro H. rewrite Rabs_pos_eq in H by lra. lra.
Qed.

(** The distance of the returned point from the horizon after a step that
    took the ray inside it. *)
Lemma refinement_distance n uniforms ray step :
  let prevPoint := Shader.origin ray in
  let ray' := Shader.applyEquation uniforms ray step in
  let rH := Shader.horizonRadius uniforms in
  let coefficient :=
    Shader.potentialCoefficient (Shader.blackHole uniforms) * Shader.h2 ray
    / Math.pow (Shader.dot (Shader.origin ray') (Shader.origin ray')) (5 / 2) in
  let trial := fun t => Shader.add3 prevPoint (Shader.scale3 (Shader.direction ray') t) in
  let s := Shader.bisectionRounds (S n) uniforms ray' prevPoint step in
  let w := Shader.length (Shader.direction ray') * (step / 2 ^ S n) in
  0 <= step ->
  0 <= rH ->
  Shader.dot (Shader.origin ray') (Shader.origin ray') < rH * rH ->
  rH * rH < Shader.dot prevPoint prevPoint ->
  - w <= Shader.length (Shader.intersectionPoint s) - rH
  /\ Shader.length (Shader.intersectionPoint s) - rH
     <= w + Shader.length (Shader.origin ray') * (Rabs coefficient * (step * step))
  /\ (Shader.length (trial step) < rH ->
      Rabs (Shader.length (Shader.intersectionPoint s) - rH) <= w)
  /\ (-2 <= coefficient * (step * step) <= 0 ->
      Rabs (Shader.length (Shader.intersectionPoint s) - rH) <= w).
Proof.
  intros prevPoint ray' rH coefficient trial s w H0 HrH Hin Hout.
  assert (rH <= Shader.length prevPoint) as Hprev
    by (apply length_above; [exact HrH | lra]).
  assert (Shader.length (Shader.origin ray') < rH) as Hnow
    by (apply length_below; [exact HrH | exact Hin]).
  pose proof (length_nonneg (Shader.origin ray')) as Hlen.
  assert (Shader.length (trial step)
          = Shader.length (Shader.origin ray')
            * Rabs (1 + coefficient * (step * step))) as Hend.
  { unfold trial, prevPoint, ray'.
    rewrite (trial_end uniforms ray step). apply length_scale. }
  destruct (bisectionRounds_distance n uniforms ray' prevPoint step H0 Hprev)
    as [Hlow Hhigh].
  change (Shader.add3 prevPoint (Shader.scale3 (Shader.direction ray') step))
    with (trial step) in Hhigh.
  fold s in Hlow, Hhigh. fold rH in Hlow, Hhigh.
  fold w in Hlow, Hhigh.
  assert (Shader.length (trial step) < rH ->
          Rabs (Shader.length (Shader.intersectionPoint s) - rH) <= w) as Hcond.
  { intro Hstep. rewrite Rmax_left in Hhigh by lra.
    apply Rabs_le. lra. }
  split; [exact Hlow|].
  split.
  { eapply Rle_trans; [exact Hhigh|]. apply Rplus_le_compat_l.
    apply Rmax_lub.
    - apply Rmult_le_pos; [exact Hlen|].
      apply Rmult_le_pos; [apply Rabs_pos|]. nra.
    - rewrite Hend.
      pose proof (Rabs_triang 1 (coefficient * (step * step))) as Ht.
      rewrite Rabs_R1, Rabs_mult, (Rabs_pos_eq (step * step)) in Ht by nra.
      nra. }
  split; [exact Hcond|].
  intros [Hc1 Hc2]. apply Hcond. rewrite Hend.
  assert (Rabs (1 + coefficient * (step * step)) <= 1) as Hr by (apply Rabs_le; lra).
  nra.
Qed.

(** C9, amended.  In the loop iteration whose step of size s takes the ray
    from p- outside the horizon (|p-|^2 > rH^2) to p inside it
    (|p|^2 < rH^2), the refinement runs exactly ten rounds of bisection on
    the step, over [0, s]; every round recomputes the trial point from p-,
    along the velocity v the ray has after the step, at the midpoint of the
    bracket; after the ten rounds the bracket lies in [0, s] with width
    s / 2^10 and the point returned is the trial point at one of its bounds.
    That point is inside the horizon by at most |v| * s / 2^10, and outside
    it by at most |v| * s / 2^10 + |p| * |c| * s^2, where c is the
    coefficient k * h2 / |p|^5 of the acceleration applied by the step.
    When the trial point at the full step is inside the horizon, as it is
    for -2 <= c * s^2 <= 0 (no potential, a radial ray, an attractive
    potential), the distance of the returned point from the horizon radius
    is at most |v| * s / 2^10: at most s / 2^10 for a velocity no longer
    than 1. *)
Theorem C9_horizon_refinement (uniforms : Shader.Uniforms) (st : Shader.Trace) :
  let prevPoint := Shader.origin (Shader.ray st) in
  let step :=
    (Shader.length prevPoint / 30) * Shader.stepSize (Shader.blackHole uniforms) in
  let ray' := Shader.applyEquation uniforms (Shader.ray st) step in
  let rH := Shader.horizonRadius uniforms in
  let coefficient :=
    Shader.potentialCoefficient (Shader.blackHole uniforms) * Shader.h2 (Shader.ray st)
    / Math.pow (Shader.dot (Shader.origin ray') (Shader.origin ray')) (5 / 2) in
  let trial := fun t => Shader.add3 prevPoint (Shader.scale3 (Shader.direction ray') t) in
  let s := Shader.horizonBisection uniforms ray' prevPoint step in
  let w := Shader.length (Shader.direction ray') * (step / 2 ^ 10) in
  0 <= Shader.stepSize (Shader.blackHole uniforms) ->
  0 <= rH ->
  Shader.dot (Shader.origin ray') (Shader.origin ray') < rH * rH ->
  rH * rH < Shader.dot prevPoint prevPoint ->
  (forall diskTexture skyTexture,
     Shader.iteration uniforms diskTexture skyTexture st
     = Shader.mkTrace ray'
         (Shader.horizonColor uniforms diskTexture (Shader.intersectionPoint s)
            (Shader.color st))
         true)
  /\ s = Nat.iter 10 (Shader.bisectionRound uniforms ray' prevPoint)
           (Shader.mkBisection 0 step prevPoint (Shader.direction ray'))
  /\ (forall s0,
        Shader.intersectionPoint (Shader.bisectionRound uniforms ray' prevPoint s0)
        = trial ((Shader.stepLow s0 + Shader.stepHigh s0) / 2))
  /\ Shader.stepHigh s - Shader.stepLow s = step / 2 ^ 10
  /\ 0 <= Shader.stepLow s
  /\ Shader.stepHigh s <= step
  /\ (Shader.intersectionPoint s = trial (Shader.stepLow s)
      \/ Shader.intersectionPoint s = trial (Shader.stepHigh s))
  /\ - w <= Shader.length (Shader.intersectionPoint s) - rH
  /\ Shader.length (Shader.intersectionPoint s) - rH
     <= w + Shader.length (Shader.origin ray') * (Rabs coefficient * (step * step))
  /\ (Shader.length (trial step) < rH ->
      Rabs (Shader.length (Shader.intersectionPoint s) - rH) <= w)
  /\ (-2 <= coefficient * (step * step) <= 0 ->
      Rabs (Shader.length (Shader.intersectionPoint s) - rH) <= w)
  /\ (Shader.length (trial step) < rH ->
      Shader.length (Shader.direction ray') <= 1 ->
      Rabs (Shader.length (Shader.intersectionPoint s) - rH) <= step / 2 ^ 10).
Proof.
  intros prevPoint step ray' rH coefficient trial s w Hsize HrH Hin Hout.
  assert (0 <= step) as H0.
  { unfold step. apply Rmult_le_pos; [|exact Hsize].
    pose proof (length_nonneg prevPoint). lra. }
  assert (rH <= Shader.length prevPoint) as Hprev
    by (apply length_above; [exact HrH | lra]).
  split; [intros diskTexture skyTexture;
          exact (iteration_horizon uniforms diskTexture skyTexture st Hin Hout)|].
  split; [reflexivity|].
  split; [intro s0; apply (bisectionRound_fields uniforms ray' prevPoint s0)|].
  split; [exact (bisectionRounds_width 10 uniforms ray' prevPoint step)|].
  destruct (bisectionRounds_bracket 10 uniforms ray' prevPoint step H0 Hprev)
    as (_ & _ & Hl0 & _ & Hhs).
  split; [exact Hl0|]. split; [exact Hhs|].
  split.
  { destruct (bisectionRounds_point 9 uniforms ray' prevPoint step) as [[E _] | [E _]];
      [right | left]; exact E. }
  destruct (refinement_distance 9 uniforms (Shader.ray st) step H0 HrH Hin Hout)
    as (D1 & D2 & D3 & D4).
  split; [exact D1|]. split; [exact D2|]. split; [exact D3|]. split; [exact D4|].
  intros Hstep Hv.
  assert (0 <= step / 2 ^ 10) as Hq.
  { apply Rmult_le_pos; [exact H0|]. apply Rlt_le, Rinv_0_lt_compat, pow_lt. lra. }
  eapply Rle_trans; [exact (D3 Hstep)|].
  rewrite <- (Rmult_1_l (step / 2 ^ 10)) at 2.
  apply Rmult_le_compat_r; assumption.
Qed.

Lemma C9_horizon_refinement_witness :
  0 <= Shader.stepSize (Shader.blackHole Example.repulsiveUniforms)
  /\ 0 <= Shader.horizonRadius Example.repulsiveUniforms
  /\ Shader.dot
       (Shader.origin
          (Shader.applyEquation Example.repulsiveUniforms Example.grazing
             ((Shader.length (Shader.origin Example.grazing) / 30)
              * Shader.stepSize (Shader.blackHole Example.repulsiveUniforms))))
       (Shader.origin
          (Shader.applyEquation Example.repulsiveUniforms Example.grazing
             ((Shader.length (Shader.origin Example.grazing) / 30)
              * Shader.stepSize (Shader.blackHole Example.repulsiveUniforms))))
     < Shader.horizonRadius Example.repulsiveUniforms
       * Shader.horizonRadius Example.repulsiveUniforms
  /\ Shader.horizonRadius Example.repulsiveUniforms
     * Shader.horizonRadius Example.repulsiveUniforms
     < Shader.dot (Shader.origin Example.grazing) (Shader.origin Example.grazing)
  /\ Shader.stepHigh
       (Shader.horizonBisection Example.repulsiveUniforms
          (Shader.applyEquation Example.repulsiveUniforms Example.grazing
             ((Shader.length (Shader.origin Example.grazing) / 30)
              * Shader.stepSize (Shader.blackHole Example.repulsiveUniforms)))
          (Shader.origin Example.grazing)
          ((Shader.length (Shader.origin Example.grazing) / 30)
           * Shader.stepSize (Shader.blackHole Example.repulsiveUniforms)))
     - Shader.stepLow
         (Shader.horizonBisection Example.repulsiveUniforms
            (Shader.applyEquation Example.repulsiveUniforms Example.grazing
               ((Shader.length (Shader.origin Example.grazing) / 30)
                * Shader.stepSize (Shader.blackHole Example.repulsiveUniforms)))
            (Shader.origin Example.grazing)
            ((Shader.length (Shader.origin Example.grazing) / 30)
             * Shader.stepSize (Shader.blackHole Example.repulsiveUniforms)))
     = (Shader.length (Shader.origin Example.grazing) / 30)
       * Shader.stepSize (Shader.blackHole Example.repulsiveUniforms) / 2 ^ 10.
Proof.
  assert (0 <= Shader.stepSize (Shader.blackHole Example.repulsiveUniforms)) as H1.
  { change (Shader.stepSize (Shader.blackHole Example.repulsiveUniforms)) with (16 / 100).
    lra. }
  assert (0 <= Shader.horizonRadius Example.repulsiveUniforms) as H2.
  { change (Shader.horizonRadius Example.repulsiveUniforms) with 2. lra. }
  assert (Shader.dot
            (Shader.origin
               (Shader.applyEquation Example.repulsiveUniforms Example.grazing
                  ((Shader.length (Shader.origin Example.grazing) / 30)
                   * Shader.stepSize (Shader.blackHole Example.repulsiveUniforms))))
            (Shader.origin
               (Shader.applyEquation Example.repulsiveUniforms Example.grazing
                  ((Shader.length (Shader.origin Example.grazing) / 30)
                   * Shader.stepSize (Shader.blackHole Example.repulsiveUniforms))))
          < Shader.horizonRadius Example.repulsiveUniforms
            * Shader.horizonRadius Example.repulsiveUniforms) as H3.
  { rewrite grazing_step. fold Example.grazed. rewrite (proj1 grazed_ray).
    change (Shader.horizonRadius Example.repulsiveUniforms) with 2.
    unfold Shader.dot. simpl. lra. }
  assert (Shader.horizonRadius Example.repulsiveUniforms
          * Shader.horizonRadius Example.repulsiveUniforms
          < Shader.dot (Shader.origin Example.grazing) (Shader.origin Example.grazing))
    as H4.
  { change (Shader.horizonRadius Example.repulsiveUniforms) with 2.
    unfold Shader.dot. simpl. lra. }
  split; [exact H1|]. split; [exact H2|]. split; [exact H3|]. split; [exact H4|].
  exact (proj1 (proj2 (proj2 (proj2
           (C9_horizon_refinement Example.repulsiveUniforms
              (Shader.mkTrace Example.grazing (Shader.mkVec4 0 0 0 0) false)
              H1 H2 H3 H4))))).
Defined.

(** ** Accumulation *)

Lemma NoDup_list_prod (A B : Type) (l1 : list A) (l2 : list B) :
  NoDup l1 -> NoDup l2 -> NoDup (list_prod l1 l2).
Proof.
  intros H1 H2. induction H1 as [|x l Hx Hl IH]; simpl; [constructor|].
  apply NoDup_app.
  - clear -H2. induction H2 as [|y l2 Hy Hl2 IH2]; simpl; constructor; [|exact IH2].
    rewrite in_map_iff. intros (y' & E & Hin). inversion E; subst. contradiction.
  - exact IH.
  - intros [a b] Ha Hb. apply in_map_iff in Ha. destruct Ha as (y & E & _).
    inversion E; subst. apply in_prod_iff in Hb. destruct Hb as [Hb _]. contradiction.
Qed.

Lemma NoDup_invocations countX countY : NoDup (Shader.invocations countX countY).
Proof. apply NoDup_list_prod; apply seq_NoDup. Qed.

Lemma ceilDiv16_covers (n m : nat) : (m < n)%nat -> (m < 16 * Driver.ceilDiv16 n)%nat.
Proof.
  intro H. unfold Driver.ceilDiv16.
  pose proof (Nat.div_mod_eq (n + 15) 16) as E.
  pose proof (Nat.mod_upper_bound (n + 15) 16) as B.
  lia.
Qed.

Lemma In_invocations (x y countX countY : nat) :
  (x < 16 * countX)%nat -> (y < 16 * countY)%nat ->
  In (x, y) (Shader.invocations countX countY).
Proof.
  intros Hx Hy. unfold Shader.invocations. apply in_prod_iff.
  split; apply in_seq; lia.
Qed.

(** Pixels within the image have separate slots in the buffer. *)
Lemma pixelIndex_separate (W x y x' y' c c' : nat) :
  (x < W)%nat -> (x' < W)%nat -> (c < 4)%nat -> (c' < 4)%nat ->
  ((y * W + x) * 4 + c = (y' * W + x') * 4 + c')%nat ->
  x = x' /\ y = y' /\ c = c'.
Proof.
  intros Hx Hx' Hc Hc' E.
  assert (y * W + x = y' * W + x')%nat as E1 by lia.
  assert (c = c') as -> by lia.
  assert (y = y') as ->; [|split; [lia | split; reflexivity]].
  destruct (Nat.lt_trichotomy y y') as [L | [L | L]]; [exfalso | exact L | exfalso].
  - assert ((y + 1) * W <= y' * W)%nat by (apply Nat.mul_le_mono_r; lia). lia.
  - assert ((y' + 1) * W <= y * W)%nat by (apply Nat.mul_le_mono_r; lia). lia.
Qed.

Lemma store_same buffer i v : Shader.store buffer i v i = v.
Proof. unfold Shader.store. rewrite Nat.eqb_refl. reflexivity. Qed.

Lemma store_other buffer i v j : j <> i -> Shader.store buffer i v j = buffer j.
Proof.
  intro H. unfold Shader.store. destruct (Nat.eqb_spec j i); [contradiction | reflexivity].
Qed.

Lemma vec4_eta (v : Shader.vec4) :
  Shader.mkVec4 (Shader.r v) (Shader.g v) (Shader.b v) (Shader.a v) = v.
Proof. destruct v; reflexivity. Qed.

Ltac stores :=
  repeat first
    [ rewrite store_same
    | rewrite store_other by lia ].

(** What one invocation leaves in the slots of its own pixel. *)
Lemma main_own_pixel uniforms diskTexture skyTexture (id : nat * nat) mem :
  (fst id < Shader.width uniforms)%nat ->
  (snd id < Shader.height uniforms)%nat ->
  let F := Shader.frameCount uniforms in
  let i := Shader.pixelIndexOf uniforms id in
  let rayColor :=
    Shader.traceRay uniforms diskTexture skyTexture
      (fst id + snd id * Shader.width uniforms)%nat id in
  let mem' := Shader.main uniforms diskTexture skyTexture id mem in
  (forall c, (c < 4)%nat ->
     Shader.accumulationBuffer mem' (i + c)%nat
     = blend F (Shader.accumulationBuffer mem (i + c)%nat) (channel c rayColor))
  /\ Shader.outputTexture mem' id
     = Shader.mkVec4
         (blend F (Shader.accumulationBuffer mem i) (Shader.r rayColor))
         (blend F (Shader.accumulationBuffer mem (i + 1)%nat) (Shader.g rayColor))
         (blend F (Shader.accumulationBuffer mem (i + 2)%nat) (Shader.b rayColor))
         (blend F (Shader.accumulationBuffer mem (i + 3)%nat) (Shader.a rayColor)).
Proof.
  intros Hx Hy F i rayColor mem'. unfold mem', Shader.main.
  rewrite (proj2 (Nat.leb_gt _ _) Hx), (proj2 (Nat.leb_gt _ _) Hy). simpl orb. cbv iota.
  fold i. fold rayColor. fold F. unfold blend, Shader.textureStore.
  destruct (INR F >? 0); cbn [Shader.accumulationBuffer Shader.outputTexture].
  - split.
    + intros c Hc.
      destruct c as [|[|[|[|c]]]]; try lia; rewrite ?Nat.add_0_r; simpl channel; stores;
        reflexivity.
    + rewrite !Nat.eqb_refl. reflexivity.
  - split.
    + intros c Hc.
      destruct c as [|[|[|[|c]]]]; try lia; rewrite ?Nat.add_0_r; simpl channel; stores;
        reflexivity.
    + rewrite !Nat.eqb_refl. simpl. symmetry. apply vec4_eta.
Qed.

(** What an invocation leaves in the slots of another pixel: what it found. *)
Lemma main_other_pixel uniforms diskTexture skyTexture (id id' : nat * nat) mem :
  (fst id < Shader.width uniforms)%nat ->
  id' <> id ->
  let i := Shader.pixelIndexOf uniforms id in
  let mem' := Shader.main uniforms diskTexture skyTexture id' mem in
  (forall c, (c < 4)%nat ->
     Shader.accumulationBuffer mem' (i + c)%nat = Shader.accumulationBuffer mem (i + c)%nat)
  /\ Shader.outputTexture mem' id = Shader.outputTexture mem id.
Proof.
  intros Hx Hne i mem'. unfold mem', Shader.main.
  destruct (Nat.leb (Shader.width uniforms) (fst id')) eqn:Ex; [split; reflexivity|].
  destruct (Nat.leb (Shader.height uniforms) (snd id')) eqn:Ey; [split; reflexivity|].
  simpl orb. cbv iota.
  apply Nat.leb_gt in Ex.
  assert (forall c c', (c < 4)%nat -> (c' < 4)%nat ->
            (i + c <> Shader.pixelIndexOf uniforms id' + c')%nat) as Hsep.
  { intros c c' Hc Hc' E. unfold i, Shader.pixelIndexOf in E.
    destruct (pixelIndex_separate _ _ _ _ _ _ _ Hx Ex Hc Hc' E) as (E1 & E2 & _).
    apply Hne. destruct id, id'; simpl in *; subst; reflexivity. }
  assert (Nat.eqb (fst id) (fst id') && Nat.eqb (snd id) (snd id') = false) as Hid.
  { destruct (Nat.eqb_spec (fst id) (fst id')) as [E1|]; [|reflexivity].
    destruct (Nat.eqb_spec (snd id) (snd id')) as [E2|]; [|reflexivity].
    exfalso. apply Hne. destruct id, id'; simpl in *; subst; reflexivity. }
  set (j := Shader.pixelIndexOf uniforms id') in *.
  destruct (INR (Shader.frameCount uniforms) >? 0);
    cbn [Shader.accumulationBuffer Shader.outputTexture]; unfold Shader.textureStore;
    rewrite Hid; (split; [|reflexivity]); intros c Hc;
    pose proof (Hsep c 0%nat Hc ltac:(lia)) as S0;
    pose proof (Hsep c 1%nat Hc ltac:(lia)) as S1;
    pose proof (Hsep c 2%nat Hc ltac:(lia)) as S2;
    pose proof (Hsep c 3%nat Hc ltac:(lia)) as S3;
    rewrite Nat.add_0_r in S0;
    rewrite !store_other by assumption; reflexivity.
Qed.

Lemma fold_main_other_pixels uniforms diskTexture skyTexture (id : nat * nat)
    (l : list (nat * nat)) mem :
  (fst id < Shader.width uniforms)%nat ->
  ~ In id l ->
  let i := Shader.pixelIndexOf uniforms id in
  let mem' := fold_left (fun m id' => Shader.main uniforms diskTexture skyTexture id' m) l mem in
  (forall c, (c < 4)%nat ->
     Shader.accumulationBuffer mem' (i + c)%nat = Shader.accumulationBuffer mem (i + c)%nat)
  /\ Shader.outputTexture mem' id = Shader.outputTexture mem id.
Proof.
  intros Hx. revert mem. induction l as [|id' l IH]; intros mem Hnot i mem'.
  - split; reflexivity.
  - unfold mem'. simpl fold_left.
    assert (id' <> id) as Hne by (intro E; apply Hnot; left; exact E).
    assert (~ In id l) as Hnot' by (intro E; apply Hnot; right; exact E).
    destruct (IH (Shader.main uniforms diskTexture skyTexture id' mem) Hnot') as [IHb IHt].
    destruct (main_other_pixel uniforms diskTexture skyTexture id id' mem Hx Hne)
      as [Hb Ht].
    split.
    + intros c Hc. fold i in IHb. rewrite IHb by exact Hc. apply Hb. exact Hc.
    + rewrite IHt. exact Ht.
Qed.

(** After a dispatch that covers the image, every pixel of the image holds
    what its own invocation computes from what the pixel held before. *)
Lemma dispatchWorkgroups_pixel uniforms diskTexture skyTexture countX countY
    (id : nat * nat) mem :
  (fst id < Shader.width uniforms)%nat ->
  (snd id < Shader.height uniforms)%nat ->
  (fst id < 16 * countX)%nat ->
  (snd id < 16 * countY)%nat ->
  let F := Shader.frameCount uniforms in
  let i := Shader.pixelIndexOf uniforms id in
  let rayColor :=
    Shader.traceRay uniforms diskTexture skyTexture
      (fst id + snd id * Shader.width uniforms)%nat id in
  let mem' := Shader.dispatchWorkgroups uniforms diskTexture skyTexture countX countY mem in
  (forall c, (c < 4)%nat ->
     Shader.accumulationBuffer mem' (i + c)%nat
     = blend F (Shader.accumulationBuffer mem (i + c)%nat) (channel c rayColor))
  /\ Shader.outputTexture mem' id
     = Shader.mkVec4
         (blend F (Shader.accumulationBuffer mem i) (Shader.r rayColor))
         (blend F (Shader.accumulationBuffer mem (i + 1)%nat) (Shader.g rayColor))
         (blend F (Shader.accumulationBuffer mem (i + 2)%nat) (Shader.b rayColor))
         (blend F (Shader.accumulationBuffer mem (i + 3)%nat) (Shader.a rayColor)).
Proof.
  intros Hx Hy Hcx Hcy F i rayColor mem'.
  assert (In id (Shader.invocations countX countY)) as Hin
    by (destruct id; apply In_invocations; assumption).
  pose proof (NoDup_invocations countX countY) as Hnd.
  unfold mem', Shader.dispatchWorkgroups.
  destruct (in_split _ _ Hin) as (l1 & l2 & E). rewrite E in *.
  pose proof (NoDup_remove_2 _ _ _ Hnd) as Hnot.
  assert (~ In id l1) as Hn1 by (intro H; apply Hnot, in_or_app; left; exact H).
  assert (~ In id l2) as Hn2 by (intro H; apply Hnot, in_or_app; right; exact H).
  rewrite fold_left_app. simpl fold_left.
  set (mem1 := fold_left _ l1 mem).
  destruct (fold_main_other_pixels uniforms diskTexture skyTexture id l1 mem Hx Hn1)
    as [B1 _].
  fold mem1 in B1. fold i in B1.
  destruct (fold_main_other_pixels uniforms diskTexture skyTexture id l2
              (Shader.main uniforms diskTexture skyTexture id mem1) Hx Hn2) as [B2 T2].
  fold i in B2.
  destruct (main_own_pixel uniforms diskTexture skyTexture id mem1 Hx Hy) as [Bo To].
  fold i in Bo, To. fold F in Bo, To. fold rayColor in Bo, To.
  split.
  - intros c Hc. rewrite B2, Bo, B1 by exact Hc. reflexivity.
  - rewrite T2, To.
    pose proof (B1 0%nat ltac:(lia)) as E0. rewrite Nat.add_0_r in E0.
    rewrite E0, !B1 by lia. reflexivity.
Qed.

(** [updateUniforms] reads the scene, the size, the counter and the two
    settings, and nothing of the device. *)
Lemma updateUniforms_ext (p q : Driver.RayProcessor) raysPerFrame randomSeed :
  Driver.scene p = Driver.scene q ->
  Driver.width p = Driver.width q ->
  Driver.height p = Driver.height q ->
  Driver.frameCount p = Driver.frameCount q ->
  Driver.maxIterations p = Driver.maxIterations q ->
  Driver.jitterScale p = Driver.jitterScale q ->
  Driver.updateUniforms p raysPerFrame randomSeed
  = Driver.updateUniforms q raysPerFrame randomSeed.
Proof.
  intros H1 H2 H3 H4 H5 H6. unfold Driver.updateUniforms.
  rewrite H1, H2, H3, H4, H5, H6. reflexivity.
Qed.

Lemma sameSetup_processFrame this raysPerFrame randomSeed :
  sameSetup (fst (Driver.processFrame this raysPerFrame randomSeed)) this.
Proof.
  unfold sameSetup, Driver.processFrame. cbv zeta. simpl.
  destruct (Driver.bindGroupUsable (Driver.device this) (Driver.uniformBindGroup this));
    simpl; repeat split; reflexivity.
Qed.

Lemma frames_succ n raysPerFrame seeds this :
  frames (S n) raysPerFrame seeds this
  = fst (Driver.processFrame (frames n raysPerFrame seeds this) raysPerFrame
           (seeds (Driver.frameCount (frames n raysPerFrame seeds this)))).
Proof. reflexivity. Qed.

Lemma frames_setup n raysPerFrame seeds this :
  sameSetup (frames n raysPerFrame seeds this) this
  /\ Driver.frameCount (frames n raysPerFrame seeds this)
     = (Driver.frameCount this + n)%nat.
Proof.
  induction n as [|n [IH IHf]].
  - split; [unfold sameSetup; repeat split; reflexivity | simpl; lia].
  - rewrite frames_succ. set (p := frames n raysPerFrame seeds this) in *. split.
    + pose proof (sameSetup_processFrame p raysPerFrame (seeds (Driver.frameCount p)))
        as H.
      destruct H as (a1 & a2 & a3 & a4 & a5 & a6 & a7 & a8).
      destruct IH as (b1 & b2 & b3 & b4 & b5 & b6 & b7 & b8).
      unfold sameSetup.
      rewrite a1, a2, a3, a4, a5, a6, a7, a8. repeat split; assumption.
    + rewrite frameCount_processFrame, IHf. lia.
Qed.

Lemma blend_first prev rayChannel : blend 0 prev rayChannel = rayChannel.
Proof. unfold blend. simpl INR. rewrite Rltb_false by lra. reflexivity. Qed.

Lemma blend_later F prev rayChannel :
  (0 < F)%nat ->
  blend F prev rayChannel
  = prev * (INR F / (INR F + 1)) + rayChannel * (1 - INR F / (INR F + 1)).
Proof.
  intro H. unfold blend. rewrite Rltb_true by (apply lt_0_INR; exact H). reflexivity.
Qed.

(** One frame, seen from one pixel of the image. *)
Lemma frame_pixel this raysPerFrame seeds px py F :
  consistent this ->
  Driver.frameCount this = 0%nat ->
  (px < Driver.width this)%nat ->
  (py < Driver.height this)%nat ->
  let i := ((py * Driver.width this + px) * 4)%nat in
  let rayColor := frameRayColor this raysPerFrame seeds px py F in
  let before := Driver.memory (Driver.device (frames F raysPerFrame seeds this)) in
  let after := Driver.memory (Driver.device (frames (S F) raysPerFrame seeds this)) in
  (forall c, (c < 4)%nat ->
     Shader.accumulationBuffer after (i + c)%nat
     = blend F (Shader.accumulationBuffer before (i + c)%nat) (channel c rayColor))
  /\ Shader.outputTexture after (px, py)
     = Shader.mkVec4
         (blend F (Shader.accumulationBuffer before i) (Shader.r rayColor))
         (blend F (Shader.accumulationBuffer before (i + 1)%nat) (Shader.g rayColor))
         (blend F (Shader.accumulationBuffer before (i + 2)%nat) (Shader.b rayColor))
         (blend F (Shader.accumulationBuffer before (i + 3)%nat) (Shader.a rayColor)).
Proof.
  intros (Hbg & Huse & _) H0 Hx Hy i rayColor before after.
  destruct (frames_setup F raysPerFrame seeds this)
    as ((S1 & S2 & S3 & S4 & S5 & S6 & S7 & S8) & SF).
  rewrite H0 in SF. simpl in SF.
  unfold after. rewrite frames_succ. fold before.
  set (p := frames F raysPerFrame seeds this) in *.
  unfold Driver.processFrame. cbv zeta.
  assert (Driver.bindGroupUsable (Driver.device p) (Driver.uniformBindGroup p) = true)
    as Hp.
  { unfold Driver.bindGroupUsable, Driver.isDestroyed in *. rewrite S6, S7. exact Huse. }
  rewrite Hp. simpl Driver.memory. simpl fst.
  assert (Driver.updateUniforms p raysPerFrame (seeds (Driver.frameCount p))
          = Driver.updateUniforms (Driver.setFrameCount this F) raysPerFrame (seeds F))
    as HU.
  { rewrite SF. apply updateUniforms_ext; simpl; assumption. }
  rewrite HU, S6, S8, Hbg, S2, S3. simpl Driver.boundDisk. simpl Driver.boundSky.
  set (U := Driver.updateUniforms (Driver.setFrameCount this F) raysPerFrame (seeds F)).
  apply (dispatchWorkgroups_pixel U
           (Driver.content (Driver.device this) (Driver.diskTexture this))
           (Driver.content (Driver.device this) (Driver.skyTexture this))
           (Driver.ceilDiv16 (Driver.width this)) (Driver.ceilDiv16 (Driver.height this))
           (px, py) before).
  - exact Hx.
  - exact Hy.
  - apply ceilDiv16_covers. exact Hx.
  - apply ceilDiv16_covers. exact Hy.
Qed.

(** After [F + 1] frames the pixel holds the mean of its [F + 1] ray
    colours. *)
Lemma frames_mean this raysPerFrame seeds px py F c :
  consistent this ->
  Driver.frameCount this = 0%nat ->
  (px < Driver.width this)%nat ->
  (py < Driver.height this)%nat ->
  (c < 4)%nat ->
  Shader.accumulationBuffer
    (Driver.memory (Driver.device (frames (S F) raysPerFrame seeds this)))
    ((py * Driver.width this + px) * 4 + c)%nat
  = sum_f_R0 (fun k => channel c (frameRayColor this raysPerFrame seeds px py k)) F
    / (INR F + 1).
Proof.
  intros Hc H0 Hx Hy Hch. induction F as [|F IH].
  - destruct (frame_pixel this raysPerFrame seeds px py 0 Hc H0 Hx Hy) as [Hb _].
    rewrite (Hb c Hch), blend_first. simpl. field.
  - destruct (frame_pixel this raysPerFrame seeds px py (S F) Hc H0 Hx Hy) as [Hb _].
    rewrite (Hb c Hch), blend_later by lia. rewrite IH.
    rewrite S_INR. simpl sum_f_R0.
    pose proof (pos_INR F) as HF. field. lra.
Qed.

(** C2: in the frame drawn when the counter is [F], at every pixel of the
    image, the kernel writes the ray colour [R] itself into the accumulation
    buffer and the output image when [F = 0], and [A * w + R * (1 - w)] with
    [w = F / (F + 1)] into both when [F > 0], [A] being what the buffer held;
    so, starting from a reset counter, after [F + 1] frames the accumulator
    is the arithmetic mean of the [F + 1] ray colours of the pixel. *)
Theorem C2_running_mean (this : Driver.RayProcessor) (raysPerFrame : nat)
    (seeds : nat -> R) (px py F : nat) :
  consistent this ->
  Driver.frameCount this = 0%nat ->
  (px < Driver.width this)%nat ->
  (py < Driver.height this)%nat ->
  let i := ((py * Driver.width this + px) * 4)%nat in
  let rayColor := frameRayColor this raysPerFrame seeds px py in
  let before := Driver.memory (Driver.device (frames F raysPerFrame seeds this)) in
  let after := Driver.memory (Driver.device (frames (S F) raysPerFrame seeds this)) in
  let A := Shader.accumulationBuffer before in
  let w := INR F / (INR F + 1) in
  (F = 0%nat ->
   (forall c, (c < 4)%nat ->
      Shader.accumulationBuffer after (i + c)%nat = channel c (rayColor 0%nat))
   /\ Shader.outputTexture after (px, py) = rayColor 0%nat)
  /\ ((0 < F)%nat ->
      (forall c, (c < 4)%nat ->
         Shader.accumulationBuffer after (i + c)%nat
         = A (i + c)%nat * w + channel c (rayColor F) * (1 - w))
      /\ Shader.outputTexture after (px, py)
         = Shader.mkVec4
             (A i * w + Shader.r (rayColor F) * (1 - w))
             (A (i + 1)%nat * w + Shader.g (rayColor F) * (1 - w))
             (A (i + 2)%nat * w + Shader.b (rayColor F) * (1 - w))
             (A (i + 3)%nat * w + Shader.a (rayColor F) * (1 - w)))
  /\ (forall c, (c < 4)%nat ->
        Shader.accumulationBuffer after (i + c)%nat
        = sum_f_R0 (fun k => channel c (rayColor k)) F / (INR F + 1)).
Proof.
  intros Hc H0 Hx Hy i rayColor before after A w.
  destruct (frame_pixel this raysPerFrame seeds px py F Hc H0 Hx Hy) as [Hb Ht].
  fold i in Hb, Ht. fold before in Hb, Ht. fold after in Hb, Ht.
  fold (rayColor F) in Hb, Ht. fold A in Hb, Ht.
  split; [|split].
  - intros ->. split.
    + intros c Hch. rewrite (Hb c Hch), blend_first. reflexivity.
    + rewrite Ht, !blend_first. apply vec4_eta.
  - intro HF. split.
    + intros c Hch. rewrite (Hb c Hch), blend_later by exact HF. reflexivity.
    + rewrite Ht, !blend_later by exact HF. reflexivity.
  - intros c Hch. apply frames_mean; assumption.
Qed.

Lemma C2_running_mean_witness :
  consistent Example.processor
  /\ Driver.frameCount Example.processor = 0%nat
  /\ (3 < Driver.width Example.processor)%nat
  /\ (5 < Driver.height Example.processor)%nat
  /\ (forall c, (c < 4)%nat ->
        Shader.accumulationBuffer
          (Driver.memory (Driver.device (frames 3 1000 (fun _ => 0) Example.processor)))
          ((5 * Driver.width Example.processor + 3) * 4 + c)%nat
        = sum_f_R0
            (fun k => channel c (frameRayColor Example.processor 1000 (fun _ => 0) 3 5 k))
            2
          / (INR 2 + 1)).
Proof.
  assert (3 < Driver.width Example.processor)%nat as Hx by (simpl; lia).
  assert (5 < Driver.height Example.processor)%nat as Hy by (simpl; lia).
  split; [apply consistent_new|]. split; [reflexivity|].
  split; [exact Hx|]. split; [exact Hy|].
  exact (proj2 (proj2 (C2_running_mean Example.processor 1000 (fun _ => 0) 3 5 2
                         (consistent_new _ _ _ _) eq_refl Hx Hy))).
Defined.

(** ** The flat-space scenario *)

Lemma loop_stopped n uniforms diskTexture skyTexture st :
  Shader.stop st = true -> Shader.loop n uniforms diskTexture skyTexture st = st.
Proof. intro H. destruct n; simpl; [|rewrite H]; reflexivity. Qed.

Lemma loop_add n m uniforms diskTexture skyTexture st :
  Shader.loop (n + m) uniforms diskTexture skyTexture st
  = Shader.loop m uniforms diskTexture skyTexture
      (Shader.loop n uniforms diskTexture skyTexture st).
Proof.
  revert st. induction n as [|n IH]; intro st; simpl; [reflexivity|].
  destruct (Shader.stop st) eqn:E; [|apply IH].
  rewrite loop_stopped by exact E. reflexivity.
Qed.

(** An iteration in which none of the three tests fires changes neither the
    colour nor [stop]. *)
Lemma iteration_no_hit uniforms diskTexture skyTexture st :
  let prevPoint := Shader.origin (Shader.ray st) in
  let ray' :=
    Shader.applyEquation uniforms (Shader.ray st)
      ((Shader.length prevPoint / 30) * Shader.stepSize (Shader.blackHole uniforms)) in
  let sqrNorm := Shader.dot (Shader.origin ray') (Shader.origin ray') in
  let rH := Shader.horizonRadius uniforms in
  ~ (sqrNorm < rH * rH /\ rH * rH < Shader.dot prevPoint prevPoint) ->
  (0 < Shader.y prevPoint /\ 0 < Shader.y (Shader.origin ray')
   \/ Shader.y prevPoint < 0 /\ Shader.y (Shader.origin ray') < 0) ->
  ~ Shader.skyRadius uniforms * Shader.skyRadius uniforms < sqrNorm ->
  Shader.iteration uniforms diskTexture skyTexture st
  = Shader.mkTrace ray' (Shader.color st) false.
Proof.
  intros prevPoint ray' sqrNorm rH Hh Hd Hs.
  unfold Shader.iteration. cbv zeta. fold prevPoint. fold ray'. fold sqrNorm. fold rH.
  assert ((sqrNorm <? rH * rH) && (Shader.dot prevPoint prevPoint >? rH * rH) = false)
    as ->.
  { destruct (Rlt_dec sqrNorm (rH * rH)) as [H1|H1].
    - rewrite (Rltb_true _ _ H1). rewrite Rltb_false by tauto. reflexivity.
    - rewrite (Rltb_false _ _ H1). reflexivity. }
  rewrite (Rltb_false _ _ Hs).
  unfold Shader.diskCheck. cbv zeta.
  destruct Hd as [[H1 H2] | [H1 H2]].
  - rewrite (Rltb_true 0 (Shader.y prevPoint)) by exact H1.
    rewrite Rleb_false by lra. reflexivity.
  - rewrite (Rltb_false 0 (Shader.y prevPoint)) by lra.
    rewrite (Rltb_true (Shader.y prevPoint) 0) by exact H1.
    rewrite Rleb_false by lra. reflexivity.
Qed.

Lemma bisectionRounds_range n uniforms ray prevPoint step :
  0 <= step ->
  let s := Shader.bisectionRounds n uniforms ray prevPoint step in
  0 <= Shader.stepLow s /\ Shader.stepLow s <= Shader.stepHigh s
  /\ Shader.stepHigh s <= step.
Proof.
  intros H0 s. unfold s. clear s. induction n as [|n IH].
  - simpl. lra.
  - unfold Shader.bisectionRounds in *. rewrite Nat.iter_succ.
    set (s := Nat.iter n _ _) in *.
    destruct (bisectionRound_fields uniforms ray prevPoint s) as (_ & Hin & Hout).
    destruct (Rlt_dec
                (Shader.length
                   (Shader.add3 prevPoint
                      (Shader.scale3 (Shader.direction ray)
                         ((Shader.stepLow s + Shader.stepHigh s) / 2))))
                (Shader.horizonRadius uniforms)) as [H|H].
    + destruct (Hin H) as [-> ->]. lra.
    + destruct (Hout H) as [-> ->]. lra.
Qed.

(** The point the refinement returns lies on the segment of the trial
    points between the step 0 and the full step. *)
Lemma horizonBisection_on_segment uniforms ray prevPoint step :
  0 <= step ->
  exists m, 0 <= m <= step
    /\ Shader.intersectionPoint (Shader.horizonBisection uniforms ray prevPoint step)
       = Shader.add3 prevPoint (Shader.scale3 (Shader.direction ray) m).
Proof.
  intro H0. unfold Shader.horizonBisection.
  destruct (bisectionRounds_range 10 uniforms ray prevPoint step H0) as (R1 & R2 & R3).
  destruct (bisectionRounds_point 9 uniforms ray prevPoint step) as [[E _] | [E _]].
  - eexists. split; [|exact E]. lra.
  - eexists. split; [|exact E]. lra.
Qed.

Lemma sqrt409 : 0 < sqrt 409 /\ sqrt 409 * sqrt 409 = 409.
Proof. split; [apply sqrt_lt_R0; lra | apply sqrt_sqrt; lra]. Qed.

Lemma length_radial (t : R) :
  0 <= t -> Shader.length (Shader.mkVec3 0 (3 * t) (-20 * t)) = sqrt 409 * t.
Proof.
  intro H. unfold Shader.length, Shader.dot. simpl.
  replace (0 * 0 + 3 * t * (3 * t) + -20 * t * (-20 * t)) with (409 * (t * t)) by ring.
  rewrite sqrt_mult by nra. rewrite sqrt_square by exact H. reflexivity.
Qed.

(** One step along the radial line. *)
Lemma applyEquation_radial (t : R) :
  0 <= t ->
  Shader.applyEquation Example.flatUniforms (Example.radialRay t)
    ((Shader.length (Shader.origin (Example.radialRay t)) / 30)
     * Shader.stepSize (Shader.blackHole Example.flatUniforms))
  = Example.radialRay (Example.shrink * t).
Proof.
  intro H. destruct sqrt409 as [Hq Hqq].
  unfold Example.radialRay at 2. simpl Shader.origin. rewrite length_radial by exact H.
  change (Shader.stepSize (Shader.blackHole Example.flatUniforms)) with (16 / 100).
  unfold Shader.applyEquation, Example.radialRay, Example.shrink.
  change (Shader.potentialCoefficient (Shader.blackHole Example.flatUniforms)) with 0.
  cbn [Shader.origin Shader.direction Shader.h2].
  f_equal.
  - apply vec3_eq; unfold Example.inward; simpl; field; lra.
  - apply vec3_eq; simpl; unfold Rdiv; ring.
Qed.

(** While the ray is outside the horizon, an iteration only moves it. *)
Lemma iteration_radial (t : R) diskTexture skyTexture color :
  0 < t <= 1 ->
  4 <= 409 * (Example.shrink * t * (Example.shrink * t)) ->
  Shader.iteration Example.flatUniforms diskTexture skyTexture
    (Shader.mkTrace (Example.radialRay t) color false)
  = Shader.mkTrace (Example.radialRay (Example.shrink * t)) color false.
Proof.
  intros Ht Hout.
  rewrite iteration_no_hit; cbn [Shader.ray Shader.color];
    rewrite applyEquation_radial by lra.
  - reflexivity.
  - unfold Example.radialRay, Shader.dot. simpl. intros [H _].
    set (u := Example.shrink * t) in *. nra.
  - left. unfold Example.radialRay. simpl. unfold Example.shrink in *. lra.
  - unfold Example.radialRay, Shader.dot. simpl.
    assert (0 < Example.shrink * t <= 1) as Hu by (unfold Example.shrink; lra).
    set (u := Example.shrink * t) in *. nra.
Qed.

Lemma loop_radial (n : nat) (t : R) diskTexture skyTexture color :
  0 < t <= 1 ->
  4 <= 409 * (Example.shrink ^ n * t * (Example.shrink ^ n * t)) ->
  Shader.loop n Example.flatUniforms diskTexture skyTexture
    (Shader.mkTrace (Example.radialRay t) color false)
  = Shader.mkTrace (Example.radialRay (Example.shrink ^ n * t)) color false.
Proof.
  revert t. induction n as [|n IH]; intros t Ht Hout.
  - simpl. replace (1 * t) with t by ring. reflexivity.
  - assert (0 < Example.shrink < 1) as Hc by (unfold Example.shrink; lra).
    assert (0 < Example.shrink ^ n <= 1) as Hn.
    { split; [apply pow_lt; lra|].
      rewrite <- (pow1 n). apply pow_incr. lra. }
    simpl Shader.loop. cbn [Shader.stop].
    simpl pow in Hout.
    rewrite iteration_radial.
    + rewrite IH.
      * replace (Example.shrink ^ n * (Example.shrink * t))
          with (Example.shrink ^ S n * t) by (simpl; ring). reflexivity.
      * nra.
      * replace (Example.shrink ^ n * (Example.shrink * t))
          with (Example.shrink * Example.shrink ^ n * t) by ring. exact Hout.
    + exact Ht.
    + assert (0 < Example.shrink * t) as P1 by nra.
      assert (Example.shrink * Example.shrink ^ n * t
              <= Example.shrink * t) as P2.
      { assert (Example.shrink ^ n * (Example.shrink * t) <= 1 * (Example.shrink * t))
          by (apply Rmult_le_compat_r; lra). lra. }
      assert (0 < Example.shrink * Example.shrink ^ n * t) as P3.
      { apply Rmult_lt_0_compat; [|lra]. apply Rmult_lt_0_compat; lra. }
      assert (Example.shrink * Example.shrink ^ n * t
              * (Example.shrink * Example.shrink ^ n * t)
              <= Example.shrink * t * (Example.shrink * t)) as P4
        by (apply Rmult_le_compat; lra).
      lra.
Qed.

(** The iteration that takes the radial ray across the horizon paints
    opaque black and stops. *)
Lemma iteration_radial_crossing (t : R) diskTexture skyTexture :
  0 < t <= 1 ->
  409 * (Example.shrink * t * (Example.shrink * t)) < 4 ->
  4 < 409 * (t * t) ->
  Shader.iteration Example.flatUniforms diskTexture skyTexture
    (Shader.mkTrace (Example.radialRay t) (Shader.mkVec4 0 0 0 0) false)
  = Shader.mkTrace (Example.radialRay (Example.shrink * t)) (Shader.mkVec4 0 0 0 1) true.
Proof.
  intros Ht Hin Hout. destruct sqrt409 as [Hq Hqq].
  rewrite iteration_horizon; cbn [Shader.ray Shader.color];
    rewrite ?applyEquation_radial by lra.
  - f_equal.
    set (step := Shader.length (Shader.origin (Example.radialRay t)) / 30
                 * Shader.stepSize (Shader.blackHole Example.flatUniforms)).
    assert (step = sqrt 409 * t / 30 * (16 / 100)) as Hstep.
    { unfold step, Example.radialRay. simpl Shader.origin.
      rewrite length_radial by lra. reflexivity. }
    assert (0 <= step) as H0 by (rewrite Hstep; nra).
    destruct (horizonBisection_on_segment Example.flatUniforms
                (Example.radialRay (Example.shrink * t))
                (Shader.origin (Example.radialRay t)) step H0) as (m & [Hm0 Hm1] & ->).
    unfold Shader.horizonColor. cbv zeta.
    assert (Shader.x (Shader.add3 (Shader.origin (Example.radialRay t))
                        (Shader.scale3
                           (Shader.direction (Example.radialRay (Example.shrink * t))) m))
            = 0) as ->
      by (simpl; ring).
    assert (Shader.z (Shader.add3 (Shader.origin (Example.radialRay t))
                        (Shader.scale3
                           (Shader.direction (Example.radialRay (Example.shrink * t))) m))
            = -20 * t + 20 * (m / sqrt 409)) as ->
      by (simpl; field; lra).
    set (w := m / sqrt 409).
    assert (0 <= w <= t * (16 / 3000)) as [Hw0 Hw1].
    { unfold w. split.
      - apply Rmult_le_pos; [lra | left; apply Rinv_0_lt_compat; lra].
      - apply (Rmult_le_reg_r (sqrt 409)); [lra|].
        unfold Rdiv at 1. rewrite Rmult_assoc, Rinv_l by lra. rewrite Hstep in Hm1. lra. }
    assert (t * t < 1 / 100) as Htt by (unfold Example.shrink in Hin; lra).
    assert ((t - w) * (t - w) <= t * t) as Hsq by nra.
    change (Shader.diskInnerRadius Example.flatUniforms) with (26 / 10).
    rewrite (Rleb_false (26 / 10 * (26 / 10))) by nra.
    rewrite andb_false_r. simpl andb. cbv iota.
    unfold Shader.addColor. simpl Shader.a. rewrite Reqb_true by reflexivity. reflexivity.
  - unfold Example.radialRay, Shader.dot. simpl.
    set (u := Example.shrink * t) in *. nra.
  - unfold Example.radialRay, Shader.dot. simpl. nra.
Qed.

Lemma ratio_lt (a b c d : Z) :
  (0 < b)%Z -> (0 < d)%Z -> (a * d < c * b)%Z -> IZR a / IZR b < IZR c / IZR d.
Proof.
  intros Hb Hd H. apply IZR_lt in Hb, Hd, H. rewrite !mult_IZR in H.
  generalize dependent (IZR a). generalize dependent (IZR b).
  generalize dependent (IZR c). generalize dependent (IZR d).
  intros d' Hd c' b' Hb a' H.
  apply (Rmult_lt_reg_r (b' * d')); [nra|].
  replace (a' / b' * (b' * d')) with (a' * d') by (field; lra).
  replace (c' / d' * (b' * d')) with (c' * b') by (field; lra).
  exact H.
Qed.

Lemma shrink_pow (n : nat) :
  Example.shrink ^ n = IZR (373 ^ Z.of_nat n) / IZR (375 ^ Z.of_nat n).
Proof.
  unfold Example.shrink, Rdiv. rewrite Rpow_mult_distr, pow_inv, !pow_IZR. reflexivity.
Qed.

Lemma shrink_864 : IZR 4 / IZR 409 < Example.shrink ^ 864.
Proof.
  rewrite shrink_pow. apply ratio_lt; [reflexivity | | vm_compute; reflexivity].
  apply Z.pow_pos_nonneg; lia.
Qed.

Lemma shrink_866 : Example.shrink ^ 866 < IZR 4 / IZR 409.
Proof.
  rewrite shrink_pow. apply ratio_lt; [| reflexivity | vm_compute; reflexivity].
  apply Z.pow_pos_nonneg; lia.
Qed.

(** The radial ray is outside the horizon after 432 steps and inside after
    433. *)
Lemma shrink_432 :
  4 < 409 * (Example.shrink ^ 432 * Example.shrink ^ 432)
  /\ 409 * (Example.shrink * Example.shrink ^ 432 * (Example.shrink * Example.shrink ^ 432))
     < 4.
Proof.
  pose proof shrink_864 as L. pose proof shrink_866 as U.
  replace (Example.shrink ^ 864) with (Example.shrink ^ 432 * Example.shrink ^ 432) in L
    by (rewrite <- pow_add; f_equal).
  replace (Example.shrink ^ 866)
    with (Example.shrink * Example.shrink ^ 432 * (Example.shrink * Example.shrink ^ 432))
    in U.
  2: { change (Example.shrink * Example.shrink ^ 432) with (Example.shrink ^ 433).
       rewrite <- pow_add. f_equal. }
  generalize dependent (Example.shrink ^ 432). intros x L U. split; lra.
Qed.

(** From the camera, the radial ray crosses the horizon in its 433rd
    iteration: whatever budget of at least 433 iterations it is given, the
    loop ends stopped, on opaque black. *)
Lemma loop_radial_result (n : nat) diskTexture skyTexture :
  Shader.loop (433 + n) Example.flatUniforms diskTexture skyTexture
    (Shader.mkTrace (Example.radialRay 1) (Shader.mkVec4 0 0 0 0) false)
  = Shader.mkTrace (Example.radialRay (Example.shrink * (Example.shrink ^ 432 * 1)))
      (Shader.mkVec4 0 0 0 1) true.
Proof.
  destruct shrink_432 as [Hout Hin].
  assert (0 < Example.shrink ^ 432 <= 1) as Hn.
  { split; [apply pow_lt; unfold Example.shrink; lra|].
    rewrite <- (pow1 432). apply pow_incr. unfold Example.shrink. lra. }
  replace (433 + n)%nat with (432 + (1 + n))%nat by lia.
  rewrite loop_add. rewrite loop_radial.
  - change (Shader.loop (1 + n) Example.flatUniforms diskTexture skyTexture ?s)
      with (Shader.loop n Example.flatUniforms diskTexture skyTexture
              (Shader.iteration Example.flatUniforms diskTexture skyTexture s)).
    rewrite iteration_radial_crossing.
    + apply loop_stopped. reflexivity.
    + lra.
    + generalize dependent (Example.shrink ^ 432). intros x Hout Hin Hx.
      replace (Example.shrink * (x * 1) * (Example.shrink * (x * 1)))
        with (Example.shrink * x * (Example.shrink * x)) by ring. exact Hin.
    + generalize dependent (Example.shrink ^ 432). intros x Hout Hin Hx.
      replace (x * 1 * (x * 1)) with (x * x) by ring. exact Hout.
  - lra.
  - generalize dependent (Example.shrink ^ 432). intros x Hout Hin Hx.
    replace (x * 1 * (x * 1)) with (x * x) by ring. lra.
Qed.

Lemma normalize_known (v : Shader.vec3) (l : R) :
  0 < l -> Shader.dot v v = l * l ->
  Shader.normalize v = Shader.mkVec3 (Shader.x v / l) (Shader.y v / l) (Shader.z v / l).
Proof.
  intros Hl Hd. unfold Shader.normalize, Shader.length.
  rewrite Hd, sqrt_square by lra. reflexivity.
Qed.

(** The ray that [traceRay] starts at the centre pixel is the radial ray at
    the camera. *)
Lemma centre_ray :
  let u := Example.flatUniforms in
  let W := INR (Shader.width u) in
  let H := INR (Shader.height u) in
  let F := INR (Shader.frameCount u) in
  let aspect := W / H in
  let x := (INR 128 / W - 5 / 10) * Shader.tanFov (Shader.camera u) in
  let y := ((- (INR 128 / H) + 5 / 10) * aspect) * Shader.tanFov (Shader.camera u) in
  let front :=
    Shader.normalize
      (Shader.sub3 (Shader.lookAt (Shader.camera u)) (Shader.position (Shader.camera u))) in
  let left := Shader.normalize (Shader.cross3 (Shader.up (Shader.camera u)) front) in
  let up := Shader.cross3 front left in
  let seed :=
    Shader.mkVec2 (INR 128 + 5 * Shader.randomSeed u + 7 * F)
      (INR 128 + 3 * Shader.randomSeed u + 11 * F) in
  let jitterScale := Shader.jitterScale u / (1 + F * (1 / 10)) in
  let jitter := Shader.scale2 (Shader.randomInUnitDisk seed) jitterScale in
  let jitteredX := x + Shader.x2 jitter * Shader.tanFov (Shader.camera u) / W in
  let jitteredY := y + Shader.y2 jitter * Shader.tanFov (Shader.camera u) * aspect / H in
  let viewDir :=
    Shader.normalize
      (Shader.add3 (Shader.add3 (Shader.scale3 left jitteredX) (Shader.scale3 up jitteredY))
         front) in
  Shader.setInitialConditions (Shader.mkRay (Shader.position (Shader.camera u)) viewDir 0)
  = Example.radialRay 1.
Proof.
  intros u W H F aspect x y front left up seed jitterScale jitter jitteredX jitteredY
    viewDir.
  destruct sqrt409 as [Hq Hqq].
  assert (W = 256) as HW by (unfold W; rewrite INR_IZR_INZ; reflexivity).
  assert (H = 256) as HH by (unfold H; rewrite INR_IZR_INZ; reflexivity).
  assert (INR 128 = 128) as H128 by (rewrite INR_IZR_INZ; reflexivity).
  assert (x = 0) as Hx by (unfold x; rewrite HW, H128; field).
  assert (y = 0) as Hy by (unfold y, aspect; rewrite HW, HH, H128; field).
  assert (jitterScale = 0) as Hj.
  { unfold jitterScale. change (Shader.jitterScale u) with 0. unfold Rdiv. ring. }
  assert (jitteredX = 0) as HjX.
  { unfold jitteredX, jitter. rewrite Hx, Hj. simpl. unfold Rdiv. ring. }
  assert (jitteredY = 0) as HjY.
  { unfold jitteredY, jitter. rewrite Hy, Hj. simpl. unfold Rdiv. ring. }
  assert (front = Example.inward) as Hfront.
  { unfold front. rewrite (normalize_known _ (sqrt 409)).
    - apply vec3_eq; simpl; field; lra.
    - exact Hq.
    - unfold Shader.dot. simpl. rewrite Hqq. ring. }
  assert (left = Shader.mkVec3 1 0 0) as Hleft.
  { unfold left. rewrite Hfront. rewrite (normalize_known _ (20 / sqrt 409)).
    - apply vec3_eq; simpl; field; lra.
    - apply Rdiv_lt_0_compat; lra.
    - unfold Shader.dot. simpl. field. lra. }
  assert (viewDir = Example.inward) as Hview.
  { unfold viewDir. rewrite HjX, HjY. unfold up. rewrite Hfront, Hleft.
    rewrite (normalize_known _ 1).
    - apply vec3_eq; simpl; field; lra.
    - lra.
    - unfold Shader.dot. simpl.
      replace (1 * 1) with (409 / (sqrt 409 * sqrt 409)) by (rewrite Hqq; field).
      field. lra. }
  rewrite Hview. unfold Shader.setInitialConditions, Example.radialRay.
  cbn [Shader.origin Shader.direction]. f_equal.
  - apply vec3_eq; simpl; ring.
  - unfold Shader.dot. simpl. field. lra.
Qed.

Lemma traceRay_centre diskTexture skyTexture rayIndex :
  Shader.traceRay Example.flatUniforms diskTexture skyTexture rayIndex (128%nat, 128%nat)
  = Shader.mkVec4 0 0 0 1.
Proof.
  unfold Shader.traceRay. cbv zeta. cbn [fst snd].
  pose proof centre_ray as E. cbv zeta in E. rewrite E.
  change (Shader.maxIterations Example.flatUniforms) with (Z.to_nat 100000).
  replace (Z.to_nat 100000) with (433 + Z.to_nat 99567)%nat by lia.
  rewrite loop_radial_result. reflexivity.
Qed.

Lemma consistent_flatProcessor : consistent Example.flatProcessor.
Proof.
  unfold consistent; simpl. repeat split; try lia; try discriminate.
Qed.

(** C4, as stated, fails.  In the flat-space scenario (camera at
    (0, 3, -20) looking at the origin, k = 0, step size 0.16, no hitables in
    the list; image 256 x 256, jitter scale 0) the ray of the centre pixel
    falls towards the origin, crosses the radius 2 of the horizon in its
    433rd iteration, sets [stop] and paints opaque black: after the first
    frame the output image holds (0, 0, 0, 1) at pixel (128, 128), not
    zero. *)
Lemma C4_centre_pixel_is_opaque_black :
  hitables (Driver.scene Example.flatProcessor) = []
  /\ Shader.potentialCoefficient (Shader.blackHole Example.flatUniforms) = 0
  /\ (forall diskTexture skyTexture,
        Shader.stop
          (Shader.loop 433 Example.flatUniforms diskTexture skyTexture
             (Shader.mkTrace (Example.radialRay 1) (Shader.mkVec4 0 0 0 0) false))
        = true)
  /\ Shader.outputTexture
       (Driver.memory
          (Driver.device (fst (Driver.processFrame Example.flatProcessor 1000 0))))
       (128%nat, 128%nat)
     = Shader.mkVec4 0 0 0 1
  /\ Shader.mkVec4 0 0 0 1 <> Shader.mkVec4 0 0 0 0.
Proof.
  split; [reflexivity|]. split; [reflexivity|]. split; [|split].
  - intros diskTexture skyTexture.
    pose proof (loop_radial_result 0 diskTexture skyTexture) as E.
    rewrite Nat.add_0_r in E. rewrite E. reflexivity.
  - assert (128 < Driver.width Example.flatProcessor)%nat as Hx by (simpl; lia).
    assert (128 < Driver.height Example.flatProcessor)%nat as Hy by (simpl; lia).
    destruct (frame_pixel Example.flatProcessor 1000 (fun _ => 0) 128 128 0
                consistent_flatProcessor eq_refl Hx Hy) as [_ Ht].
    change (frames 1 1000 (fun _ => 0) Example.flatProcessor)
      with (fst (Driver.processFrame Example.flatProcessor 1000 0)) in Ht.
    rewrite Ht, !blend_first.
    unfold frameRayColor.
    change (Driver.updateUniforms (Driver.setFrameCount Example.flatProcessor 0) 1000 0)
      with Example.flatUniforms.
    rewrite traceRay_centre. reflexivity.
  - intro E. apply (f_equal Shader.a) in E. simpl in E. lra.
Qed.

(** C4, amended.  The kernel does not consult the scene's hitable list:
    whatever the list contains, the uniforms are the same and carry the
    horizon radius 2, the disk radii 2.6 and 12 and the sky radius 30.  So in
    the flat-space scenario with an empty list the three tests still run in
    every iteration: a step that crosses the horizon radius sets [stop]; a
    step that ends beyond the sky radius composites the sky sample and sets
    [stop]; and a pixel keeps the colour it has, zero at the start, only
    through iterations in which none of the three tests fires. *)
Theorem C4_hitable_list_not_consulted (this : Driver.RayProcessor) (hs : list IHitable)
    (raysPerFrame : nat) (randomSeed : R) (diskTexture skyTexture : Shader.Texture)
    (st : Shader.Trace) :
  let u := Driver.updateUniforms this raysPerFrame randomSeed in
  let prevPoint := Shader.origin (Shader.ray st) in
  let ray' :=
    Shader.applyEquation u (Shader.ray st)
      ((Shader.length prevPoint / 30) * Shader.stepSize (Shader.blackHole u)) in
  let sqrNorm := Shader.dot (Shader.origin ray') (Shader.origin ray') in
  let spherical := Shader.toSpherical (Shader.origin ray') in
  Driver.updateUniforms (withHitables this hs) raysPerFrame randomSeed = u
  /\ (Shader.horizonRadius u = 2 /\ Shader.diskInnerRadius u = 26 / 10
      /\ Shader.diskOuterRadius u = 12 /\ Shader.skyRadius u = 30)
  /\ (sqrNorm < 2 * 2 -> 2 * 2 < Shader.dot prevPoint prevPoint ->
      Shader.stop (Shader.iteration u diskTexture skyTexture st) = true)
  /\ (~ sqrNorm < 2 * 2 -> 30 * 30 < sqrNorm ->
      Shader.iteration u diskTexture skyTexture st
      = Shader.mkTrace ray'
          (Shader.addColor
             (skyTexture (Shader.mapSkyCoords (Shader.y spherical) (Shader.z spherical)))
             (Shader.diskCheck u diskTexture prevPoint ray' (Shader.z spherical)
                (Shader.color st)))
          true)
  /\ (~ (sqrNorm < 2 * 2 /\ 2 * 2 < Shader.dot prevPoint prevPoint) ->
      (0 < Shader.y prevPoint /\ 0 < Shader.y (Shader.origin ray')
       \/ Shader.y prevPoint < 0 /\ Shader.y (Shader.origin ray') < 0) ->
      ~ 30 * 30 < sqrNorm ->
      Shader.iteration u diskTexture skyTexture st
      = Shader.mkTrace ray' (Shader.color st) false).
Proof.
  intros u prevPoint ray' sqrNorm spherical.
  split; [reflexivity|]. split; [repeat split; reflexivity|].
  split; [|split].
  - intros H1 H2.
    rewrite (iteration_horizon u diskTexture skyTexture st H1 H2). reflexivity.
  - intros H1 H2.
    pose proof (iteration_sky_escape u diskTexture skyTexture st) as E.
    cbv zeta in E. rewrite ray_iteration in E. exact (E H1 H2).
  - intros H1 H2 H3.
    exact (iteration_no_hit u diskTexture skyTexture st H1 H2 H3).
Qed.

Lemma C4_hitable_list_not_consulted_witness :
  ~ Shader.dot
      (Shader.origin
         (Shader.applyEquation Example.uniforms (Shader.ray Example.nearSky)
            ((Shader.length (Shader.origin (Shader.ray Example.nearSky)) / 30)
             * Shader.stepSize (Shader.blackHole Example.uniforms))))
      (Shader.origin
         (Shader.applyEquation Example.uniforms (Shader.ray Example.nearSky)
            ((Shader.length (Shader.origin (Shader.ray Example.nearSky)) / 30)
             * Shader.stepSize (Shader.blackHole Example.uniforms))))
    < 2 * 2
  /\ 30 * 30
     < Shader.dot
         (Shader.origin
            (Shader.applyEquation Example.uniforms (Shader.ray Example.nearSky)
               ((Shader.length (Shader.origin (Shader.ray Example.nearSky)) / 30)
                * Shader.stepSize (Shader.blackHole Example.uniforms))))
         (Shader.origin
            (Shader.applyEquation Example.uniforms (Shader.ray Example.nearSky)
               ((Shader.length (Shader.origin (Shader.ray Example.nearSky)) / 30)
                * Shader.stepSize (Shader.blackHole Example.uniforms))))
  /\ Shader.stop
       (Shader.iteration Example.uniforms Example.white Example.grey Example.nearSky)
     = true.
Proof.
  assert (~ Shader.dot
      (Shader.origin
         (Shader.applyEquation Example.uniforms (Shader.ray Example.nearSky)
            ((Shader.length (Shader.origin (Shader.ray Example.nearSky)) / 30)
             * Shader.stepSize (Shader.blackHole Example.uniforms))))
      (Shader.origin
         (Shader.applyEquation Example.uniforms (Shader.ray Example.nearSky)
            ((Shader.length (Shader.origin (Shader.ray Example.nearSky)) / 30)
             * Shader.stepSize (Shader.blackHole Example.uniforms))))
    < 2 * 2) as H1
    by (rewrite nearSky_step; unfold Shader.dot; simpl; lra).
  assert (30 * 30
     < Shader.dot
         (Shader.origin
            (Shader.applyEquation Example.uniforms (Shader.ray Example.nearSky)
               ((Shader.length (Shader.origin (Shader.ray Example.nearSky)) / 30)
                * Shader.stepSize (Shader.blackHole Example.uniforms))))
         (Shader.origin
            (Shader.applyEquation Example.uniforms (Shader.ray Example.nearSky)
               ((Shader.length (Shader.origin (Shader.ray Example.nearSky)) / 30)
                * Shader.stepSize (Shader.blackHole Example.uniforms))))) as H2
    by (rewrite nearSky_step; unfold Shader.dot; simpl; lra).
  split; [exact H1|]. split; [exact H2|].
  exact (f_equal Shader.stop
           (proj1 (proj2 (proj2 (proj2
              (C4_hitable_list_not_consulted Example.processor [] 1000 0
                 Example.white Example.grey Example.nearSky)))) H1 H2)).
Defined.

(** ** Texture coordinates and random numbers stay in range *)

Lemma wrap_range (t : R) : 0 <= Spec.wrap t < 1.
Proof. unfold Spec.wrap. pose proof (Zfloor_bound t). lra. Qed.

Lemma clamp_range (e low high : R) : low <= high -> low <= Shader.clamp e low high <= high.
Proof.
  intro H. unfold Shader.clamp, Rmin, Rmax.
  destruct (Rle_dec e low); destruct (Rle_dec _ high); lra.
Qed.

(** X1: the coordinates at which the kernel samples its two textures lie in the
    unit square, whatever the radius and the angles: [mapSkyCoords] gives a
    point of [0,1) x [0,1), and [mapDiskCoords] gives [u] equal to 0, 0.49 or
    0.51 and [v] in [0,1]. *)
Theorem texture_coordinates_in_unit_square (uniforms : Shader.Uniforms)
    (r theta phi : R) :
  (0 <= Shader.x2 (Shader.mapSkyCoords theta phi) < 1
   /\ 0 <= Shader.y2 (Shader.mapSkyCoords theta phi) < 1)
  /\ ((Shader.x2 (Shader.mapDiskCoords uniforms r phi) = 0
       \/ Shader.x2 (Shader.mapDiskCoords uniforms r phi) = 49 / 100
       \/ Shader.x2 (Shader.mapDiskCoords uniforms r phi) = 51 / 100)
      /\ 0 <= Shader.y2 (Shader.mapDiskCoords uniforms r phi) <= 1).
Proof.
  split.
  - unfold Shader.mapSkyCoords. cbv zeta. simpl.
    rewrite !fmod_wrap. split; apply wrap_range.
  - split; [apply mapDiskCoords_u|].
    unfold Shader.mapDiskCoords. cbv zeta.
    destruct ((r <? Shader.diskInnerRadius uniforms)
              || (r >? Shader.diskOuterRadius uniforms)); simpl; [lra|].
    apply clamp_range. lra.
Qed.

Lemma fract_range (e : R) : 0 <= Shader.fract e < 1.
Proof. unfold Shader.fract, Math.floor. pose proof (Zfloor_bound e). lra. Qed.

Lemma hash_range (p : Shader.vec2) : 0 <= Shader.hash p < 1.
Proof. unfold Shader.hash. apply fract_range. Qed.

(** X2: [hash], and so [random], returns a number of [0,1); the point that
    [randomInUnitDisk] returns lies inside the unit disk, at the distance
    from the centre whose square is the second random number drawn. *)
Theorem randomInUnitDisk_inside (seed : Shader.vec2) :
  let p := Shader.randomInUnitDisk seed in
  0 <= Shader.random seed < 1
  /\ Shader.dot2 p p = Shader.random (Shader.add2 seed (Shader.mkVec2 1 2))
  /\ Shader.dot2 p p < 1.
Proof.
  intro p. split; [apply hash_range|].
  assert (Shader.dot2 p p = Shader.random (Shader.add2 seed (Shader.mkVec2 1 2))) as E.
  { unfold p, Shader.randomInUnitDisk, Shader.dot2. cbv zeta. simpl.
    set (h := Shader.random (Shader.add2 seed (Shader.mkVec2 1 2))).
    set (theta := Shader.random seed * 2 * Shader.pi_literal).
    assert (0 <= h) as Hh by (apply hash_range).
    pose proof (sqrt_sqrt h Hh) as Hs.
    pose proof (sin2_cos2 theta) as Ht. unfold Rsqr in Ht.
    replace (sqrt h * cos theta * (sqrt h * cos theta)
             + sqrt h * sin theta * (sqrt h * sin theta))
      with (sqrt h * sqrt h * (sin theta * sin theta + cos theta * cos theta)) by ring.
    rewrite Hs, Ht. ring. }
  split; [exact E|]. rewrite E. apply hash_range.
Qed.

(** ** The angular momentum of a ray *)

Lemma applyEquation_cross uniforms ray step :
  Shader.cross3 (Shader.origin (Shader.applyEquation uniforms ray step))
    (Shader.direction (Shader.applyEquation uniforms ray step))
  = Shader.cross3 (Shader.origin ray) (Shader.direction ray).
Proof.
  unfold Shader.applyEquation. cbv zeta. simpl.
  apply vec3_eq; simpl; unfold Rdiv; ring.
Qed.

Lemma applyEquation_h2 uniforms ray step :
  Shader.h2 (Shader.applyEquation uniforms ray step) = Shader.h2 ray.
Proof. reflexivity. Qed.

Lemma loop_cross n uniforms diskTexture skyTexture st :
  let st' := Shader.loop n uniforms diskTexture skyTexture st in
  Shader.cross3 (Shader.origin (Shader.ray st')) (Shader.direction (Shader.ray st'))
  = Shader.cross3 (Shader.origin (Shader.ray st)) (Shader.direction (Shader.ray st))
  /\ Shader.h2 (Shader.ray st') = Shader.h2 (Shader.ray st).
Proof.
  revert st. induction n as [|n IH]; intro st; simpl; [split; reflexivity|].
  destruct (Shader.stop st); [split; reflexivity|].
  destruct (IH (Shader.iteration uniforms diskTexture skyTexture st)) as [H1 H2].
  rewrite H1, H2, ray_iteration, applyEquation_cross, applyEquation_h2.
  split; reflexivity.
Qed.

(** X3: every step of the integration conserves the angular momentum
    [origin x direction] of the ray, for every step size and every potential
    coefficient: the acceleration is parallel to the new position.  So the
    squared angular momentum that [setInitialConditions] stores in the ray
    before the loop is the squared angular momentum of the ray after any
    number of iterations.  The same holds for [functionWithStep] of
    SchwarzschildBlackHoleEquation.ts. *)
Theorem angular_momentum_conserved (uniforms : Shader.Uniforms)
    (diskTexture skyTexture : Shader.Texture) (n : nat) (ray0 : Shader.Ray)
    (color : Shader.vec4)
    (this : SchwarzschildBlackHoleEquation.t) (point velocity : Vector3D.t) (step : R) :
  let st :=
    Shader.loop n uniforms diskTexture skyTexture
      (Shader.mkTrace (Shader.setInitialConditions ray0) color false) in
  let L := Shader.cross3 (Shader.origin (Shader.ray st)) (Shader.direction (Shader.ray st)) in
  let pv := SchwarzschildBlackHoleEquation.functionWithStep this point velocity step in
  L = Shader.cross3 (Shader.origin ray0) (Shader.direction ray0)
  /\ Shader.h2 (Shader.ray st) = Shader.dot L L
  /\ Vector3D.cross (fst pv) (snd pv) = Vector3D.cross point velocity.
Proof.
  intros st L pv.
  destruct (loop_cross n uniforms diskTexture skyTexture
              (Shader.mkTrace (Shader.setInitialConditions ray0) color false)) as [H1 H2].
  fold st in H1, H2. fold L in H1. simpl in H1, H2.
  split; [exact H1|]. split; [rewrite H2, H1; reflexivity|].
  unfold pv, SchwarzschildBlackHoleEquation.functionWithStep. cbv zeta. simpl.
  apply Vector3D_eq; simpl; unfold Rdiv; ring.
Qed.
(** ** Colours stay between 0 and 1 *)

Lemma Rmin_1_range (e : R) : 0 <= e -> 0 <= Rmin e 1 <= 1.
Proof. intro H. unfold Rmin. destruct (Rle_dec e 1); lra. Qed.

Lemma Rmax_0_nonneg (e : R) : 0 <= Rmax e 0.
Proof. unfold Rmax. destruct (Rle_dec e 0); lra. Qed.

Lemma addColor_inRange (hitColor tintColor : Shader.vec4) :
  inRange hitColor -> inRange tintColor -> inRange (Shader.addColor hitColor tintColor).
Proof.
  intros Hh Ht. unfold Shader.addColor. cbv zeta.
  destruct (Shader.a tintColor =? 0); [exact Hh|].
  pose proof (brightness_le_1 tintColor Ht) as Hb.
  destruct Hh as (Hr & Hg & Hbl).
  pose proof (Rmax_0_nonneg (Shader.r tintColor)).
  pose proof (Rmax_0_nonneg (Shader.g tintColor)).
  pose proof (Rmax_0_nonneg (Shader.b tintColor)).
  unfold inRange; simpl.
  repeat split; apply Rmin_1_range || apply Rmin_1_range; nra.
Qed.

Lemma mixColor_inRange (hitColor tintColor : Shader.vec4) :
  inRange hitColor -> inRange tintColor -> inRange (Shader.mixColor hitColor tintColor).
Proof.
  intros Hh Ht. unfold Shader.mixColor. cbv zeta.
  destruct (Shader.a tintColor =? 0); [exact Hh|].
  destruct Hh as (Hr & Hg & Hb). destruct Ht as (Tr & Tg & Tb).
  unfold inRange; simpl. repeat split; apply Rmin_1_range; lra.
Qed.

Lemma horizonColor_inRange uniforms (diskTexture : Shader.Texture) p color :
  (forall uv, inRange (diskTexture uv)) -> inRange color ->
  inRange (Shader.horizonColor uniforms diskTexture p color).
Proof.
  intros Hd Hc. unfold Shader.horizonColor. cbv zeta.
  match goal with |- context [if ?c then _ else _] => destruct c end.
  - apply Hd.
  - apply addColor_inRange; [|exact Hc]. unfold inRange; simpl. lra.
Qed.

Lemma diskCheck_inRange uniforms (diskTexture : Shader.Texture) prevPoint ray phi color :
  (forall uv, inRange (diskTexture uv)) -> inRange color ->
  inRange (Shader.diskCheck uniforms diskTexture prevPoint ray phi color).
Proof.
  intros Hd Hc.
  destruct (diskCheck_cases uniforms diskTexture prevPoint ray phi color) as [E|E];
    rewrite E; [exact Hc|].
  apply addColor_inRange; [apply Hd | exact Hc].
Qed.

Lemma iteration_inRange uniforms (diskTexture skyTexture : Shader.Texture) st :
  (forall uv, inRange (diskTexture uv)) -> (forall uv, inRange (skyTexture uv)) ->
  inRange (Shader.color st) ->
  inRange (Shader.color (Shader.iteration uniforms diskTexture skyTexture st)).
Proof.
  intros Hd Hs Hc. unfold Shader.iteration. cbv zeta.
  match goal with |- context [if ?c then _ else _] => destruct c end.
  - simpl. apply horizonColor_inRange; assumption.
  - match goal with |- context [if ?c then _ else _] => destruct c end; simpl.
    + apply addColor_inRange; [apply Hs|]. apply diskCheck_inRange; assumption.
    + apply diskCheck_inRange; assumption.
Qed.

Lemma loop_inRange n uniforms (diskTexture skyTexture : Shader.Texture) st :
  (forall uv, inRange (diskTexture uv)) -> (forall uv, inRange (skyTexture uv)) ->
  inRange (Shader.color st) ->
  inRange (Shader.color (Shader.loop n uniforms diskTexture skyTexture st)).
Proof.
  intros Hd Hs. revert st. induction n as [|n IH]; intros st Hc; simpl; [exact Hc|].
  destruct (Shader.stop st); [exact Hc|].
  apply IH. apply iteration_inRange; assumption.
Qed.

Lemma traceRay_inRange uniforms (diskTexture skyTexture : Shader.Texture) rayIndex pixelCoord :
  (forall uv, inRange (diskTexture uv)) -> (forall uv, inRange (skyTexture uv)) ->
  inRange (Shader.traceRay uniforms diskTexture skyTexture rayIndex pixelCoord).
Proof.
  intros Hd Hs. unfold Shader.traceRay. cbv zeta.
  apply loop_inRange; [exact Hd | exact Hs |].
  unfold inRange; simpl. lra.
Qed.

(** X4: whatever the camera, the pixel and the iteration budget: when every
    texel of the disk and sky textures has its red, green and blue between
    0 and 1, so has the colour that [traceRay] returns.  Neither [addColor]
    nor [mixColor] nor the seam handling leaves that range. *)
Theorem traceRay_colour_in_range (uniforms : Shader.Uniforms)
    (diskTexture skyTexture : Shader.Texture) (rayIndex : nat) (pixelCoord : nat * nat) :
  (forall uv, inRange (diskTexture uv)) ->
  (forall uv, inRange (skyTexture uv)) ->
  inRange (Shader.traceRay uniforms diskTexture skyTexture rayIndex pixelCoord)
  /\ (forall hitColor tintColor,
        inRange hitColor -> inRange tintColor ->
        inRange (Shader.addColor hitColor tintColor)
        /\ inRange (Shader.mixColor hitColor tintColor)).
Proof.
  intros Hd Hs. split; [apply traceRay_inRange; assumption|].
  intros h t Hh Ht. split; [apply addColor_inRange | apply mixColor_inRange]; assumption.
Qed.

Lemma inRange_white uv : inRange (Example.white uv).
Proof. unfold inRange, Example.white; simpl. lra. Qed.

Lemma inRange_grey uv : inRange (Example.grey uv).
Proof. unfold inRange, Example.grey; simpl. lra. Qed.

Lemma traceRay_colour_in_range_witness :
  (forall uv, inRange (Example.white uv))
  /\ (forall uv, inRange (Example.grey uv))
  /\ inRange (Shader.traceRay Example.uniforms Example.white Example.grey 0 (0%nat, 0%nat)).
Proof.
  split; [exact inRange_white|]. split; [exact inRange_grey|].
  exact (proj1 (traceRay_colour_in_range Example.uniforms Example.white Example.grey 0
                  (0%nat, 0%nat) inRange_white inRange_grey)).
Defined.

(** ** The accumulated image stays between 0 and 1 *)

Lemma sum_f_R0_range (f : nat -> R) (n : nat) :
  (forall k, 0 <= f k <= 1) -> 0 <= sum_f_R0 f n <= INR n + 1.
Proof.
  intro H. induction n as [|n IH].
  - simpl. pose proof (H 0%nat). lra.
  - rewrite S_INR. simpl sum_f_R0. pose proof (H (S n)). lra.
Qed.

Lemma channel_inRange (c : nat) (v : Shader.vec4) :
  (c < 3)%nat -> inRange v -> 0 <= channel c v <= 1.
Proof.
  intros Hc (Hr & Hg & Hb).
  destruct c as [|[|[|c]]]; simpl; try assumption. lia.
Qed.

(** X5: starting from a reset counter, with disk and sky textures whose texels
    are between 0 and 1, the red, green and blue that the accumulation
    buffer holds for a pixel of the image are between 0 and 1 after any
    number of frames: the running mean never leaves the range of the
    colours it averages. *)
Theorem accumulated_colour_in_range (this : Driver.RayProcessor) (raysPerFrame : nat)
    (seeds : nat -> R) (px py F c : nat) :
  consistent this ->
  Driver.frameCount this = 0%nat ->
  (px < Driver.width this)%nat ->
  (py < Driver.height this)%nat ->
  (c < 3)%nat ->
  (forall uv, inRange (Driver.content (Driver.device this) (Driver.diskTexture this) uv)) ->
  (forall uv, inRange (Driver.content (Driver.device this) (Driver.skyTexture this) uv)) ->
  0 <= Shader.accumulationBuffer
         (Driver.memory (Driver.device (frames (S F) raysPerFrame seeds this)))
         ((py * Driver.width this + px) * 4 + c)%nat
    <= 1.
Proof.
  intros Hc H0 Hx Hy Hch Hd Hs.
  rewrite (frames_mean this raysPerFrame seeds px py F c Hc H0 Hx Hy) by lia.
  assert (forall k, 0 <= channel c (frameRayColor this raysPerFrame seeds px py k) <= 1)
    as Hk.
  { intro k. apply channel_inRange; [exact Hch|].
    unfold frameRayColor. apply traceRay_inRange; assumption. }
  pose proof (sum_f_R0_range _ F Hk) as [Hl Hu].
  pose proof (pos_INR F) as HF.
  split.
  - apply Rmult_le_pos; [exact Hl|]. apply Rlt_le, Rinv_0_lt_compat. lra.
  - apply (Rmult_le_reg_r (INR F + 1)); [lra|].
    unfold Rdiv. rewrite Rmult_assoc, Rinv_l by lra. lra.
Qed.

Lemma processor_disk_inRange uv :
  inRange (Driver.content (Driver.device Example.processor)
             (Driver.diskTexture Example.processor) uv).
Proof. unfold inRange; simpl. lra. Qed.

Lemma processor_sky_inRange uv :
  inRange (Driver.content (Driver.device Example.processor)
             (Driver.skyTexture Example.processor) uv).
Proof. unfold inRange; simpl. lra. Qed.

Lemma accumulated_colour_in_range_witness :
  0 <= Shader.accumulationBuffer
         (Driver.memory (Driver.device (frames 3 1000 (fun _ => 0) Example.processor)))
         ((5 * Driver.width Example.processor + 3) * 4 + 2)%nat
    <= 1.
Proof.
  apply (accumulated_colour_in_range Example.processor 1000 (fun _ => 0) 3 5 2 2).
  - apply consistent_new.
  - reflexivity.
  - simpl; lia.
  - simpl; lia.
  - lia.
  - exact processor_disk_inRange.
  - exact processor_sky_inRange.
Defined.
(** ** The iteration budget *)

(** X6: a ray that has set [stop] within [n] iterations is not touched by a
    larger budget: [traceRay]'s loop with [n + m] iterations ends in the
    state it reaches with [n], so raising [maxIterations] changes only the
    pixels whose ray was still under way; and a state with [stop] set is
    left as it is by any number of iterations. *)
Theorem stopped_ray_ignores_larger_budget (n m : nat) (uniforms : Shader.Uniforms)
    (diskTexture skyTexture : Shader.Texture) (st : Shader.Trace) :
  Shader.stop (Shader.loop n uniforms diskTexture skyTexture st) = true ->
  Shader.loop (n + m) uniforms diskTexture skyTexture st
  = Shader.loop n uniforms diskTexture skyTexture st.
Proof.
  intro H. rewrite loop_add. apply loop_stopped. exact H.
Qed.

Lemma nearSky_stops :
  Shader.stop (Shader.loop 1 Example.uniforms Example.white Example.grey Example.nearSky)
  = true.
Proof.
  simpl Shader.loop.
  pose proof (iteration_sky_escape Example.uniforms Example.white Example.grey
                Example.nearSky) as H.
  cbv zeta in H. rewrite ray_iteration, nearSky_step in H.
  rewrite H; [reflexivity | unfold Shader.dot; simpl; lra | unfold Shader.dot; simpl; lra].
Qed.

Lemma stopped_ray_ignores_larger_budget_witness :
  Shader.stop (Shader.loop 1 Example.uniforms Example.white Example.grey Example.nearSky)
  = true
  /\ Shader.loop (1 + 7) Example.uniforms Example.white Example.grey Example.nearSky
     = Shader.loop 1 Example.uniforms Example.white Example.grey Example.nearSky.
Proof.
  split; [exact nearSky_stops|].
  exact (stopped_ray_ignores_larger_budget 1 7 Example.uniforms Example.white Example.grey
           Example.nearSky nearSky_stops).
Defined.
(** ** What a dispatch writes *)

Lemma main_outside_image uniforms diskTexture skyTexture (id : nat * nat) mem :
  let mem' := Shader.main uniforms diskTexture skyTexture id mem in
  (forall j, (4 * (Shader.width uniforms * Shader.height uniforms) <= j)%nat ->
     Shader.accumulationBuffer mem' j = Shader.accumulationBuffer mem j)
  /\ (forall c, (Shader.width uniforms <= fst c \/ Shader.height uniforms <= snd c)%nat ->
        Shader.outputTexture mem' c = Shader.outputTexture mem c).
Proof.
  intro mem'. unfold mem', Shader.main.
  destruct (Nat.leb (Shader.width uniforms) (fst id)) eqn:Ex; [split; reflexivity|].
  destruct (Nat.leb (Shader.height uniforms) (snd id)) eqn:Ey; [split; reflexivity|].
  simpl orb. cbv iota.
  apply Nat.leb_gt in Ex. apply Nat.leb_gt in Ey.
  assert ((Shader.pixelIndexOf uniforms id + 3
           < 4 * (Shader.width uniforms * Shader.height uniforms))%nat) as Hlt.
  { unfold Shader.pixelIndexOf. nia. }
  set (i := Shader.pixelIndexOf uniforms id) in *.
  destruct (INR (Shader.frameCount uniforms) >? 0);
    cbn [Shader.accumulationBuffer Shader.outputTexture]; unfold Shader.textureStore;
    (split;
     [ intros j Hj; rewrite !store_other by lia; reflexivity
     | intros c Hc;
       destruct (Nat.eqb_spec (fst c) (fst id)) as [E1|]; [|reflexivity];
       destruct (Nat.eqb_spec (snd c) (snd id)) as [E2|]; [|reflexivity];
       lia ]).
Qed.

Lemma fold_main_outside_image uniforms diskTexture skyTexture (l : list (nat * nat)) mem :
  let mem' := fold_left (fun m id => Shader.main uniforms diskTexture skyTexture id m) l mem in
  (forall j, (4 * (Shader.width uniforms * Shader.height uniforms) <= j)%nat ->
     Shader.accumulationBuffer mem' j = Shader.accumulationBuffer mem j)
  /\ (forall c, (Shader.width uniforms <= fst c \/ Shader.height uniforms <= snd c)%nat ->
        Shader.outputTexture mem' c = Shader.outputTexture mem c).
Proof.
  revert mem. induction l as [|id l IH]; intros mem mem'; [split; reflexivity|].
  unfold mem'. simpl fold_left.
  destruct (IH (Shader.main uniforms diskTexture skyTexture id mem)) as [IHb IHt].
  destruct (main_outside_image uniforms diskTexture skyTexture id mem) as [Hb Ht].
  split.
  - intros j Hj. rewrite IHb by exact Hj. apply Hb. exact Hj.
  - intros c Hc. rewrite IHt by exact Hc. apply Ht. exact Hc.
Qed.

(** X7: a dispatch writes nothing outside the image.  The workgroup counts are
    rounded up to multiples of 16, so there are invocations beyond the
    image: each of them returns at once and leaves buffer and texture as
    they are.  The others write below index [4 * width * height] of the
    accumulation buffer and at texels inside the image only, for every
    workgroup count. *)
Theorem dispatch_writes_only_the_image (uniforms : Shader.Uniforms)
    (diskTexture skyTexture : Shader.Texture) (countX countY : nat) (mem : Shader.Memory) :
  let mem' := Shader.dispatchWorkgroups uniforms diskTexture skyTexture countX countY mem in
  (forall id, (Shader.width uniforms <= fst id \/ Shader.height uniforms <= snd id)%nat ->
     Shader.main uniforms diskTexture skyTexture id mem = mem)
  /\ (forall j, (4 * (Shader.width uniforms * Shader.height uniforms) <= j)%nat ->
        Shader.accumulationBuffer mem' j = Shader.accumulationBuffer mem j)
  /\ (forall c, (Shader.width uniforms <= fst c \/ Shader.height uniforms <= snd c)%nat ->
        Shader.outputTexture mem' c = Shader.outputTexture mem c).
Proof.
  intro mem'. split.
  - intros id [H|H]; unfold Shader.main.
    + rewrite (proj2 (Nat.leb_le _ _) H). reflexivity.
    + rewrite (proj2 (Nat.leb_le _ _) H), orb_true_r. reflexivity.
  - apply fold_main_outside_image.
Qed.

Lemma dispatch_writes_only_the_image_witness :
  Shader.outputTexture
    (Shader.dispatchWorkgroups Example.uniforms Example.white Example.grey 16 16
       Driver.zeroMemory) (256%nat, 0%nat)
  = Shader.outputTexture Driver.zeroMemory (256%nat, 0%nat).
Proof.
  exact (proj2 (proj2 (dispatch_writes_only_the_image Example.uniforms Example.white
                         Example.grey 16 16 Driver.zeroMemory))
           (256%nat, 0%nat) (or_introl (le_n 256))).
Defined.

(** ** The primary ray *)

Lemma traceRay_primaryRay uniforms diskTexture skyTexture rayIndex pixelCoord :
  Shader.traceRay uniforms diskTexture skyTexture rayIndex pixelCoord
  = Shader.color
      (Shader.loop (Shader.maxIterations uniforms) uniforms diskTexture skyTexture
         (Shader.mkTrace (primaryRay uniforms pixelCoord) (Shader.mkVec4 0 0 0 0) false)).
Proof. reflexivity. Qed.

Lemma dot_zero_components (v : Shader.vec3) :
  Shader.dot v v = 0 -> Shader.x v = 0 /\ Shader.y v = 0 /\ Shader.z v = 0.
Proof. unfold Shader.dot. intro H. repeat split; nra. Qed.

Lemma dot_pos (v : Shader.vec3) : v <> Shader.mkVec3 0 0 0 -> 0 < Shader.dot v v.
Proof.
  intro H. destruct (Rle_lt_or_eq_dec 0 _ (dot_self_nonneg v)) as [L|E]; [exact L|].
  exfalso. apply H. symmetry in E. destruct (dot_zero_components v E) as (E1 & E2 & E3).
  apply vec3_eq; simpl; assumption.
Qed.

Lemma length_pos (v : Shader.vec3) : 0 < Shader.dot v v -> 0 < Shader.length v.
Proof. intro H. unfold Shader.length. apply sqrt_lt_R0. exact H. Qed.

Lemma normalize_unit (v : Shader.vec3) :
  0 < Shader.dot v v -> Shader.dot (Shader.normalize v) (Shader.normalize v) = 1.
Proof.
  intro H. pose proof (length_pos v H) as Hl. pose proof (length_sqr v) as Hs.
  unfold Shader.normalize. unfold Shader.dot at 1. simpl.
  unfold Shader.dot in Hs.
  set (l := Shader.length v) in *.
  replace (Shader.x v / l * (Shader.x v / l) + Shader.y v / l * (Shader.y v / l)
           + Shader.z v / l * (Shader.z v / l))
    with ((Shader.x v * Shader.x v + Shader.y v * Shader.y v + Shader.z v * Shader.z v)
          / (l * l)) by (field; lra).
  rewrite <- Hs. field. lra.
Qed.

Lemma normalize_dot (v w : Shader.vec3) :
  Shader.dot (Shader.normalize v) w = Shader.dot v w / Shader.length v.
Proof. unfold Shader.normalize, Shader.dot; simpl. unfold Rdiv. ring. Qed.

Lemma cross3_perp_right (a b : Shader.vec3) : Shader.dot (Shader.cross3 a b) b = 0.
Proof. unfold Shader.cross3, Shader.dot; simpl. ring. Qed.

Lemma cross3_perp_left (a b : Shader.vec3) : Shader.dot (Shader.cross3 a b) a = 0.
Proof. unfold Shader.cross3, Shader.dot; simpl. ring. Qed.

Lemma cross3_lagrange (a b : Shader.vec3) :
  Shader.dot (Shader.cross3 a b) (Shader.cross3 a b)
  = Shader.dot a a * Shader.dot b b - Shader.dot a b * Shader.dot a b.
Proof. unfold Shader.cross3, Shader.dot; simpl. ring. Qed.

Lemma length_one (v : Shader.vec3) : Shader.dot v v = 1 -> Shader.length v = 1.
Proof. intro H. unfold Shader.length. rewrite H. exact sqrt_1. Qed.

(** The camera basis of [traceRay] is orthonormal when [up] is not parallel
    to the line of sight. *)
Lemma camera_basis (position lookAt up : Shader.vec3) :
  Shader.cross3 up (Shader.sub3 lookAt position) <> Shader.mkVec3 0 0 0 ->
  let front := Shader.normalize (Shader.sub3 lookAt position) in
  let left := Shader.normalize (Shader.cross3 up front) in
  let up' := Shader.cross3 front left in
  Shader.dot front front = 1 /\ Shader.dot left left = 1 /\ Shader.dot up' up' = 1
  /\ Shader.dot left front = 0 /\ Shader.dot up' front = 0 /\ Shader.dot up' left = 0.
Proof.
  intros Hne front left up'.
  set (f := Shader.sub3 lookAt position) in *.
  assert (0 < Shader.dot f f) as Hf.
  { apply dot_pos. intro E. apply Hne. rewrite E.
    apply vec3_eq; simpl; ring. }
  assert (Shader.dot front front = 1) as H1 by (apply normalize_unit; exact Hf).
  pose proof (length_pos f Hf) as Hl.
  assert (Shader.cross3 up front <> Shader.mkVec3 0 0 0) as Hc.
  { intro E. apply Hne.
    assert (Shader.cross3 up f = Shader.scale3 (Shader.cross3 up front) (Shader.length f))
      as ->.
    { unfold front, Shader.normalize. apply vec3_eq; simpl; field; lra. }
    rewrite E. apply vec3_eq; simpl; ring. }
  pose proof (dot_pos _ Hc) as Hcp.
  assert (Shader.dot left left = 1) as H2 by (apply normalize_unit; exact Hcp).
  assert (Shader.dot left front = 0) as H3.
  { unfold left. rewrite normalize_dot, cross3_perp_right. unfold Rdiv. ring. }
  assert (Shader.dot front left = 0) as H3'.
  { rewrite <- H3. unfold Shader.dot. ring. }
  repeat split; try assumption.
  - unfold up'. rewrite cross3_lagrange, H1, H2, H3'. ring.
  - apply cross3_perp_left.
  - apply cross3_perp_right.
Qed.

Lemma combination_norm (left up' front : Shader.vec3) (jx jy : R) :
  Shader.dot front front = 1 -> Shader.dot left left = 1 -> Shader.dot up' up' = 1 ->
  Shader.dot left front = 0 -> Shader.dot up' front = 0 -> Shader.dot up' left = 0 ->
  let v := Shader.add3 (Shader.add3 (Shader.scale3 left jx) (Shader.scale3 up' jy)) front in
  Shader.dot v v = jx * jx + jy * jy + 1.
Proof.
  intros H1 H2 H3 H4 H5 H6 v.
  replace (Shader.dot v v)
    with (jx * jx * Shader.dot left left + jy * jy * Shader.dot up' up'
          + Shader.dot front front + 2 * jx * Shader.dot left front
          + 2 * jy * Shader.dot up' front + 2 * jx * jy * Shader.dot up' left)
    by (unfold v, Shader.dot; simpl; ring).
  rewrite H1, H2, H3, H4, H5, H6. ring.
Qed.

(** X8: when the camera's [up] is not parallel to its line of sight (so that,
    in particular, the camera is not at the point it looks at), the ray
    that [traceRay] starts for any pixel, frame and jitter leaves the camera
    position with a direction of length 1, and the squared angular momentum
    it carries is [|position|^2 - (position . direction)^2], at most the
    squared distance of the camera from the centre. *)
Theorem primary_ray_is_unit (uniforms : Shader.Uniforms) (pixelCoord : nat * nat) :
  Shader.cross3 (Shader.up (Shader.camera uniforms))
    (Shader.sub3 (Shader.lookAt (Shader.camera uniforms))
       (Shader.position (Shader.camera uniforms)))
  <> Shader.mkVec3 0 0 0 ->
  let ray := primaryRay uniforms pixelCoord in
  let p := Shader.position (Shader.camera uniforms) in
  Shader.origin ray = p
  /\ Shader.length (Shader.direction ray) = 1
  /\ Shader.h2 ray
     = Shader.dot p p - Shader.dot p (Shader.direction ray) * Shader.dot p (Shader.direction ray)
  /\ Shader.h2 ray <= Shader.dot p p.
Proof.
  intros Hne ray p.
  destruct (camera_basis _ _ _ Hne) as (H1 & H2 & H3 & H4 & H5 & H6).
  assert (Shader.dot (Shader.direction ray) (Shader.direction ray) = 1) as Hd.
  { unfold ray, primaryRay. cbv zeta. cbn [Shader.setInitialConditions Shader.direction].
    apply normalize_unit.
    rewrite (combination_norm _ _ _ _ _ H1 H2 H3 H4 H5 H6).
    match goal with
    | |- 0 < ?a * ?a + ?b * ?b + 1 =>
        pose proof (Rle_0_sqr a) as Ha; pose proof (Rle_0_sqr b) as Hb;
        unfold Rsqr in Ha, Hb; lra
    end. }
  assert (Shader.h2 ray
          = Shader.dot p p
            - Shader.dot p (Shader.direction ray) * Shader.dot p (Shader.direction ray))
    as Hh.
  { change (Shader.h2 ray)
      with (Shader.dot (Shader.cross3 p (Shader.direction ray))
              (Shader.cross3 p (Shader.direction ray))).
    rewrite cross3_lagrange, Hd. ring. }
  split; [reflexivity|]. split; [apply length_one; exact Hd|]. split; [exact Hh|].
  rewrite Hh. nra.
Qed.

Lemma uniforms_up_not_parallel :
  Shader.cross3 (Shader.up (Shader.camera Example.uniforms))
    (Shader.sub3 (Shader.lookAt (Shader.camera Example.uniforms))
       (Shader.position (Shader.camera Example.uniforms)))
  <> Shader.mkVec3 0 0 0.
Proof.
  intro E. apply (f_equal Shader.x) in E. simpl in E. lra.
Qed.

Lemma primary_ray_is_unit_witness :
  Shader.length (Shader.direction (primaryRay Example.uniforms (3%nat, 5%nat))) = 1.
Proof.
  exact (proj1 (proj2 (primary_ray_is_unit Example.uniforms (3%nat, 5%nat)
                         uniforms_up_not_parallel))).
Defined.

(** ** The processor never submits a destroyed texture *)

Lemma consistent_same (this this' : Driver.RayProcessor) :
  Driver.uniformBindGroup this' = Driver.uniformBindGroup this ->
  Driver.outputTexture this' = Driver.outputTexture this ->
  Driver.diskTexture this' = Driver.diskTexture this ->
  Driver.skyTexture this' = Driver.skyTexture this ->
  Driver.destroyed (Driver.device this') = Driver.destroyed (Driver.device this) ->
  Driver.nextTexture (Driver.device this') = Driver.nextTexture (Driver.device this) ->
  consistent this -> consistent this'.
Proof.
  intros E1 E2 E3 E4 E5 E6. unfold consistent, Driver.bindGroupUsable, Driver.isDestroyed.
  rewrite E1, E2, E3, E4, E5, E6. tauto.
Qed.

Lemma consistent_processFrame this raysPerFrame randomSeed :
  consistent this -> consistent (fst (Driver.processFrame this raysPerFrame randomSeed)).
Proof.
  apply consistent_same; unfold Driver.processFrame; cbv zeta; simpl; try reflexivity;
    destruct (Driver.bindGroupUsable (Driver.device this) (Driver.uniformBindGroup this));
    reflexivity.
Qed.

Lemma consistent_usable this :
  consistent this ->
  Driver.isDestroyed (Driver.device this) (Driver.outputTexture this) = false
  /\ Driver.isDestroyed (Driver.device this) (Driver.diskTexture this) = false
  /\ Driver.isDestroyed (Driver.device this) (Driver.skyTexture this) = false.
Proof.
  intros (Hbg & Huse & _).
  unfold Driver.bindGroupUsable in Huse. rewrite Hbg in Huse. simpl in Huse.
  apply andb_prop in Huse. destruct Huse as [Huse Hs].
  apply andb_prop in Huse. destruct Huse as [Ho Hd].
  apply negb_true_iff in Ho, Hd, Hs. repeat split; assumption.
Qed.

Lemma consistent_loadDiskTexture this bitmap :
  consistent this ->
  exists this',
    Driver.loadDiskTexture this (Ok bitmap) = Ok this'
    /\ consistent this'
    /\ Driver.frameCount this' = 0%nat
    /\ Driver.diskTexture this' = Driver.nextTexture (Driver.device this)
    /\ Driver.skyTexture this' = Driver.skyTexture this
    /\ Driver.content (Driver.device this') (Driver.nextTexture (Driver.device this))
       = bitmap
    /\ (forall id, id <> Driver.nextTexture (Driver.device this) ->
          Driver.content (Driver.device this') id = Driver.content (Driver.device this) id)
    /\ Driver.scene this' = Driver.scene this
    /\ Driver.width this' = Driver.width this
    /\ Driver.height this' = Driver.height this
    /\ Driver.maxIterations this' = Driver.maxIterations this
    /\ Driver.jitterScale this' = Driver.jitterScale this.
Proof.
  intro Hc. destruct (consistent_usable this Hc) as (Ho & Hd & Hs).
  destruct Hc as (Hbg & Huse & (Nod & Nos & Nds) & (Lo & Ld & Ls) & Hdead).
  eexists. split; [reflexivity|].
  split;
    [|simpl; repeat split; try reflexivity;
      [ unfold Driver.setContent; rewrite Nat.eqb_refl; reflexivity
      | intros id Hid; unfold Driver.setContent;
        destruct (Nat.eqb_spec id (Driver.nextTexture (Driver.device this)));
        [contradiction | reflexivity] ]].
  unfold consistent; simpl.
  destruct (usable_after_swap (Driver.device this) (Driver.diskTexture this)
              (Driver.nextTexture (Driver.device this))
              (Driver.outputTexture this) (Driver.skyTexture this) _
              eq_refl eq_refl Hdead Ho Hs Nod (not_eq_sym Nds) Ld) as (E1 & E2 & E3).
  split; [reflexivity|]. split.
  { unfold Driver.bindGroupUsable, Driver.isDestroyed. simpl.
    simpl in E1, E2, E3. rewrite E1, E2, E3. reflexivity. }
  split; [repeat split; lia|].
  split; [repeat split; lia|].
  intros id [<- | Hin]; [lia | apply Hdead in Hin; lia].
Qed.

Lemma consistent_loadSkyTexture this bitmap :
  consistent this ->
  exists this',
    Driver.loadSkyTexture this (Ok bitmap) = Ok this'
    /\ consistent this'
    /\ Driver.frameCount this' = 0%nat
    /\ Driver.diskTexture this' = Driver.diskTexture this
    /\ Driver.skyTexture this' = Driver.nextTexture (Driver.device this)
    /\ Driver.content (Driver.device this') (Driver.nextTexture (Driver.device this))
       = bitmap
    /\ (forall id, id <> Driver.nextTexture (Driver.device this) ->
          Driver.content (Driver.device this') id = Driver.content (Driver.device this) id)
    /\ Driver.scene this' = Driver.scene this
    /\ Driver.width this' = Driver.width this
    /\ Driver.height this' = Driver.height this
    /\ Driver.maxIterations this' = Driver.maxIterations this
    /\ Driver.jitterScale this' = Driver.jitterScale this.
Proof.
  intro Hc. destruct (consistent_usable this Hc) as (Ho & Hd & Hs).
  destruct Hc as (Hbg & Huse & (Nod & Nos & Nds) & (Lo & Ld & Ls) & Hdead).
  eexists. split; [reflexivity|].
  split;
    [|simpl; repeat split; try reflexivity;
      [ unfold Driver.setContent; rewrite Nat.eqb_refl; reflexivity
      | intros id Hid; unfold Driver.setContent;
        destruct (Nat.eqb_spec id (Driver.nextTexture (Driver.device this)));
        [contradiction | reflexivity] ]].
  unfold consistent; simpl.
  destruct (usable_after_swap (Driver.device this) (Driver.skyTexture this)
              (Driver.nextTexture (Driver.device this))
              (Driver.outputTexture this) (Driver.diskTexture this) _
              eq_refl eq_refl Hdead Ho Hd Nos Nds Ls) as (E1 & E2 & E3).
  split; [reflexivity|]. split.
  { unfold Driver.bindGroupUsable, Driver.isDestroyed. simpl.
    simpl in E1, E2, E3. rewrite E1, E2, E3. reflexivity. }
  split; [repeat split; lia|].
  split; [repeat split; lia|].
  intros id [<- | Hin]; [lia | apply Hdead in Hin; lia].
Qed.

Lemma consistent_resize this width height :
  consistent this -> consistent (Driver.resize this width height).
Proof.
  intro Hc. destruct (consistent_usable this Hc) as (Ho & Hd & Hs).
  destruct Hc as (Hbg & Huse & (Nod & Nos & Nds) & (Lo & Ld & Ls) & Hdead).
  unfold consistent; simpl.
  destruct (usable_after_swap (Driver.device this) (Driver.outputTexture this)
              (Driver.nextTexture (Driver.device this))
              (Driver.diskTexture this) (Driver.skyTexture this) _
              eq_refl eq_refl Hdead Hd Hs (not_eq_sym Nod) (not_eq_sym Nos) Lo)
    as (E1 & E2 & E3).
  split; [reflexivity|]. split.
  { unfold Driver.bindGroupUsable, Driver.isDestroyed. simpl.
    simpl in E1, E2, E3. rewrite E1, E2, E3. reflexivity. }
  split; [repeat split; lia|].
  split; [repeat split; lia|].
  intros id [<- | Hin]; [lia | apply Hdead in Hin; lia].
Qed.

Lemma consistent_perform this op : consistent this -> consistent (perform this op).
Proof.
  intro Hc. destruct op; simpl.
  - apply consistent_processFrame. exact Hc.
  - apply consistent_resize. exact Hc.
  - revert Hc. apply consistent_same; reflexivity.
  - revert Hc. apply consistent_same; reflexivity.
  - destruct fetched as [bitmap|msg]; [|exact Hc].
    destruct (consistent_loadDiskTexture this bitmap Hc) as (this' & E & Hc' & _).
    rewrite E. exact Hc'.
  - destruct fetched as [bitmap|msg]; [|exact Hc].
    destruct (consistent_loadSkyTexture this bitmap Hc) as (this' & E & Hc' & _).
    rewrite E. exact Hc'.
  - revert Hc. apply consistent_same; reflexivity.
  - revert Hc. apply consistent_same; reflexivity.
  - revert Hc. apply consistent_same; reflexivity.
Qed.

Lemma consistent_run ops this : consistent this -> consistent (run ops this).
Proof.
  revert this. induction ops as [|op ops IH]; intros this Hc; [exact Hc|].
  apply IH. apply consistent_perform. exact Hc.
Qed.

(** X9: whatever calls a client makes on a processor built on a fresh device,
    in whatever order (frames, resizes, resets, scene and parameter changes,
    texture loads that succeed or fail), the processor stays consistent: its
    bind group is the one over its current three textures and none of them
    is destroyed.  So every [processFrame] dispatches the kernel, over the
    current disk and sky textures. *)
Theorem every_frame_is_dispatched (ops : list Operation) (width height : nat)
    (scene : Scene) (canvasFormat : Driver.CanvasFormat) (raysPerFrame : nat)
    (randomSeed : R) :
  let this := run ops (Driver.new width height scene Driver.freshDevice canvasFormat) in
  let d := Driver.device this in
  consistent this
  /\ Driver.bindGroupUsable d (Driver.uniformBindGroup this) = true
  /\ Driver.memory (Driver.device (fst (Driver.processFrame this raysPerFrame randomSeed)))
     = Shader.dispatchWorkgroups (Driver.updateUniforms this raysPerFrame randomSeed)
         (Driver.content d (Driver.diskTexture this))
         (Driver.content d (Driver.skyTexture this))
         (Driver.ceilDiv16 (Driver.width this)) (Driver.ceilDiv16 (Driver.height this))
         (Driver.memory d).
Proof.
  intros this d.
  assert (consistent this) as Hc by (apply consistent_run, consistent_new).
  split; [exact Hc|].
  destruct Hc as (Hbg & Huse & _).
  split; [exact Huse|].
  unfold Driver.processFrame, d. cbv zeta. rewrite Huse. simpl.
  rewrite Hbg. reflexivity.
Qed.

(** ** Resizing and resetting restart the image *)

Lemma consistent_frames n raysPerFrame seeds this :
  consistent this -> consistent (frames n raysPerFrame seeds this).
Proof.
  intro Hc. induction n as [|n IH]; [exact Hc|].
  rewrite frames_succ. apply consistent_processFrame. exact IH.
Qed.

(** X10: [resize] destroys the old output texture before it creates the new one
    and the bind group over it, leaves a consistent processor of the new
    size with the counter at zero, and the frames that follow build the
    mean of their own ray colours at every pixel of the new image. *)
Theorem resize_restarts_the_image (this : Driver.RayProcessor) (width height : nat)
    (raysPerFrame : nat) (seeds : nat -> R) (px py F c : nat) :
  consistent this ->
  (px < width)%nat -> (py < height)%nat -> (c < 4)%nat ->
  let this' := Driver.resize this width height in
  let fresh := Driver.nextTexture (Driver.device this) in
  consistent this'
  /\ Driver.frameCount this' = 0%nat
  /\ Driver.calls (Driver.device this')
     = Driver.calls (Driver.device this)
       ++ [Driver.Destroy (Driver.outputTexture this);
           Driver.CreateTexture fresh;
           Driver.CreateBindGroup
             (Driver.mkBindGroup fresh (Driver.diskTexture this) (Driver.skyTexture this))]
  /\ Driver.isDestroyed (Driver.device this') (Driver.outputTexture this) = true
  /\ Driver.outputTexture this' = fresh
  /\ Shader.accumulationBuffer
       (Driver.memory (Driver.device (frames (S F) raysPerFrame seeds this')))
       ((py * width + px) * 4 + c)%nat
     = sum_f_R0 (fun k => channel c (frameRayColor this' raysPerFrame seeds px py k)) F
       / (INR F + 1).
Proof.
  intros Hc Hx Hy Hch this' fresh.
  pose proof (consistent_resize this width height Hc) as Hc'. fold this' in Hc'.
  split; [exact Hc'|]. split; [reflexivity|].
  split; [simpl; repeat rewrite <- app_assoc; reflexivity|].
  split; [unfold Driver.isDestroyed; simpl; rewrite Nat.eqb_refl; reflexivity|].
  split; [reflexivity|].
  apply (frames_mean this' raysPerFrame seeds px py F c Hc' eq_refl Hx Hy Hch).
Qed.

Lemma resize_restarts_the_image_witness :
  Shader.accumulationBuffer
    (Driver.memory
       (Driver.device (frames 3 1000 (fun _ => 0) (Driver.resize Example.processor 64 32))))
    ((5 * 64 + 3) * 4 + 1)%nat
  = sum_f_R0
      (fun k =>
         channel 1 (frameRayColor (Driver.resize Example.processor 64 32) 1000
                      (fun _ => 0) 3 5 k)) 2
    / (INR 2 + 1).
Proof.
  exact (proj2 (proj2 (proj2 (proj2 (proj2
           (resize_restarts_the_image Example.processor 64 32 1000 (fun _ => 0) 3 5 2 1
              (consistent_new _ _ _ _) ltac:(lia) ltac:(lia) ltac:(lia))))))).
Defined.

Lemma consistent_textures (p q : Driver.RayProcessor) :
  consistent p -> consistent q ->
  Driver.uniformBindGroup p = Driver.uniformBindGroup q ->
  Driver.diskTexture p = Driver.diskTexture q /\ Driver.skyTexture p = Driver.skyTexture q.
Proof.
  intros (Hp & _) (Hq & _) E. rewrite Hp, Hq in E. injection E as _ E2 E3.
  split; assumption.
Qed.

(** X11: [reset] makes the frames that follow forget what was drawn before: after
    any number [k] of frames and a [reset], the accumulation buffer after the
    next [F + 1] frames holds the mean of the ray colours of those frames
    alone, the same as on the processor that never drew the [k] frames. *)
Theorem reset_forgets_history (this : Driver.RayProcessor) (raysPerFrame : nat)
    (seeds seeds' : nat -> R) (k px py F c : nat) :
  consistent this ->
  (px < Driver.width this)%nat -> (py < Driver.height this)%nat -> (c < 4)%nat ->
  Shader.accumulationBuffer
    (Driver.memory
       (Driver.device
          (frames (S F) raysPerFrame seeds'
             (Driver.reset (frames k raysPerFrame seeds this)))))
    ((py * Driver.width this + px) * 4 + c)%nat
  = sum_f_R0 (fun j => channel c (frameRayColor this raysPerFrame seeds' px py j)) F
    / (INR F + 1).
Proof.
  intros Hc Hx Hy Hch.
  set (p := frames k raysPerFrame seeds this).
  assert (consistent p) as Hp by (apply consistent_frames; exact Hc).
  destruct (frames_setup k raysPerFrame seeds this)
    as ((S1 & S2 & S3 & S4 & S5 & S6 & S7 & S8) & _).
  fold p in S1, S2, S3, S4, S5, S6, S7, S8.
  assert (consistent (Driver.reset p)) as Hr
    by (revert Hp; apply consistent_same; reflexivity).
  destruct (consistent_textures p this Hp Hc S6) as [Ed Es].
  assert (Driver.width (Driver.reset p) = Driver.width this) as Ew by exact S2.
  assert (Driver.height (Driver.reset p) = Driver.height this) as Eh by exact S3.
  rewrite <- Ew.
  rewrite (frames_mean (Driver.reset p) raysPerFrame seeds' px py F c Hr eq_refl)
    by (rewrite ?Ew, ?Eh; assumption).
  f_equal. apply sum_eq. intros j _. f_equal.
  unfold frameRayColor. simpl Driver.device. simpl Driver.diskTexture.
  simpl Driver.skyTexture. simpl Driver.width.
  rewrite S8, Ed, Es, S2. f_equal.
  apply updateUniforms_ext; simpl; assumption || reflexivity.
Qed.

Lemma reset_forgets_history_witness :
  Shader.accumulationBuffer
    (Driver.memory
       (Driver.device
          (frames 2 1000 (fun _ => 1)
             (Driver.reset (frames 4 1000 (fun _ => 0) Example.processor)))))
    ((5 * Driver.width Example.processor + 3) * 4 + 1)%nat
  = sum_f_R0
      (fun j => channel 1 (frameRayColor Example.processor 1000 (fun _ => 1) 3 5 j)) 1
    / (INR 1 + 1).
Proof.
  apply (reset_forgets_history Example.processor 1000 (fun _ => 0) (fun _ => 1) 4 3 5 1 1).
  - apply consistent_new.
  - simpl; lia.
  - simpl; lia.
  - lia.
Defined.
(** ** A loaded texture is the one the next frame samples *)

Lemma first_frame_pixel this raysPerFrame seed px py :
  consistent this ->
  Driver.frameCount this = 0%nat ->
  (px < Driver.width this)%nat ->
  (py < Driver.height this)%nat ->
  Shader.outputTexture
    (Driver.memory (Driver.device (fst (Driver.processFrame this raysPerFrame seed))))
    (px, py)
  = frameRayColor this raysPerFrame (fun _ => seed) px py 0.
Proof.
  intros Hc H0 Hx Hy.
  destruct (frame_pixel this raysPerFrame (fun _ => seed) px py 0 Hc H0 Hx Hy) as [_ Ht].
  rewrite frames_succ in Ht. simpl frames in Ht.
  rewrite Ht, !blend_first. apply vec4_eta.
Qed.

(** X12: after [loadDiskTexture] has succeeded on a consistent processor, the
    first frame leaves at every pixel of the output image the colour of the
    ray traced against the loaded bitmap as disk and the previous sky; after
    [loadSkyTexture], against the previous disk and the loaded bitmap as
    sky. *)
Theorem loaded_texture_is_sampled (this : Driver.RayProcessor) (bitmap : Shader.Texture)
    (raysPerFrame : nat) (seed : R) (px py : nat) :
  consistent this ->
  (px < Driver.width this)%nat -> (py < Driver.height this)%nat ->
  let U := Driver.updateUniforms (Driver.setFrameCount this 0) raysPerFrame seed in
  let d := Driver.device this in
  (exists this',
      Driver.loadDiskTexture this (Ok bitmap) = Ok this'
      /\ Shader.outputTexture
           (Driver.memory (Driver.device (fst (Driver.processFrame this' raysPerFrame seed))))
           (px, py)
         = Shader.traceRay U bitmap (Driver.content d (Driver.skyTexture this))
             (px + py * Driver.width this)%nat (px, py))
  /\ (exists this',
      Driver.loadSkyTexture this (Ok bitmap) = Ok this'
      /\ Shader.outputTexture
           (Driver.memory (Driver.device (fst (Driver.processFrame this' raysPerFrame seed))))
           (px, py)
         = Shader.traceRay U (Driver.content d (Driver.diskTexture this)) bitmap
             (px + py * Driver.width this)%nat (px, py)).
Proof.
  intros Hc Hx Hy U d.
  pose proof Hc as (_ & _ & _ & (Lo & Ld & Ls) & _).
  split.
  - destruct (consistent_loadDiskTexture this bitmap Hc)
      as (this' & E & Hc' & H0 & Ed & Es & Eb & Eo & Esc & Ew & Eh & Em & Ej).
    exists this'. split; [exact E|].
    rewrite first_frame_pixel by (rewrite ?Ew, ?Eh; assumption).
    unfold frameRayColor. rewrite Ed, Es, Eb, Eo, Ew by lia.
    f_equal. apply updateUniforms_ext; simpl; assumption || reflexivity.
  - destruct (consistent_loadSkyTexture this bitmap Hc)
      as (this' & E & Hc' & H0 & Ed & Es & Eb & Eo & Esc & Ew & Eh & Em & Ej).
    exists this'. split; [exact E|].
    rewrite first_frame_pixel by (rewrite ?Ew, ?Eh; assumption).
    unfold frameRayColor. rewrite Ed, Es, Eb, Eo, Ew by lia.
    f_equal. apply updateUniforms_ext; simpl; assumption || reflexivity.
Qed.

Lemma loaded_texture_is_sampled_witness :
  exists this',
    Driver.loadDiskTexture Example.processor (Ok Example.grey) = Ok this'
    /\ Shader.outputTexture
         (Driver.memory (Driver.device (fst (Driver.processFrame this' 1000 0))))
         (3%nat, 5%nat)
       = Shader.traceRay
           (Driver.updateUniforms (Driver.setFrameCount Example.processor 0) 1000 0)
           Example.grey
           (Driver.content (Driver.device Example.processor)
              (Driver.skyTexture Example.processor))
           (3 + 5 * Driver.width Example.processor)%nat (3%nat, 5%nat).
Proof.
  exact (proj1 (loaded_texture_is_sampled Example.processor Example.grey 1000 0 3 5
                  (consistent_new _ _ _ _) ltac:(simpl; lia) ltac:(simpl; lia))).
Defined.

(** ** Unit vectors *)

Lemma norm_pos (v : Vector3D.t) : Vector3D.norm v <> 0 -> 0 < Vector3D.norm v.
Proof.
  intro H. unfold Vector3D.norm in *.
  pose proof (sqrt_pos (Vector3D.norm2 v)). lra.
Qed.

Lemma norm_sqr (v : Vector3D.t) : Vector3D.norm v * Vector3D.norm v = Vector3D.norm2 v.
Proof. unfold Vector3D.norm. apply sqrt_sqrt, norm2_nonneg. Qed.

Lemma norm_one (v : Vector3D.t) : Vector3D.norm2 v = 1 -> Vector3D.norm v = 1.
Proof. intro H. unfold Vector3D.norm. rewrite H. exact sqrt_1. Qed.

Lemma normalize_nonzero (v : Vector3D.t) :
  Vector3D.norm v <> 0 ->
  Vector3D.normalize v
  = Ok (Vector3D.mk (Vector3D.x v * (1 / Vector3D.norm v))
          (Vector3D.y v * (1 / Vector3D.norm v)) (Vector3D.z v * (1 / Vector3D.norm v))).
Proof.
  intro H. unfold Vector3D.normalize, Vector3D.divide. cbv zeta.
  rewrite !Reqb_false by exact H. reflexivity.
Qed.

(** X13: [normalize] of a vector of non-zero length returns a vector of length 1
    that points the same way (scaled by the old length it is the old
    vector), and normalizing once more changes nothing. *)
Theorem normalize_gives_unit_vector (v : Vector3D.t) :
  Vector3D.norm v <> 0 ->
  exists w,
    Vector3D.normalize v = Ok w
    /\ Vector3D.norm w = 1
    /\ Vector3D.multiply w (Vector3D.norm v) = v
    /\ Vector3D.normalize w = Ok w.
Proof.
  intro H. pose proof (norm_pos v H) as Hp. pose proof (norm_sqr v) as Hs.
  eexists. split; [apply normalize_nonzero; exact H|].
  set (l := Vector3D.norm v) in *.
  set (w := Vector3D.mk (Vector3D.x v * (1 / l)) (Vector3D.y v * (1 / l))
              (Vector3D.z v * (1 / l))).
  assert (Vector3D.norm2 w = 1) as H2.
  { unfold w, Vector3D.norm2; simpl. unfold Vector3D.norm2 in Hs.
    replace (Vector3D.x v * (1 / l) * (Vector3D.x v * (1 / l))
             + Vector3D.y v * (1 / l) * (Vector3D.y v * (1 / l))
             + Vector3D.z v * (1 / l) * (Vector3D.z v * (1 / l)))
      with ((Vector3D.x v * Vector3D.x v + Vector3D.y v * Vector3D.y v
             + Vector3D.z v * Vector3D.z v) / (l * l)) by (field; lra).
    rewrite <- Hs. field. lra. }
  pose proof (norm_one w H2) as H1.
  split; [exact H1|]. split.
  - unfold w, Vector3D.multiply; simpl. apply Vector3D_eq; simpl; field; lra.
  - rewrite normalize_nonzero by (rewrite H1; lra). rewrite H1.
    f_equal. apply Vector3D_eq; simpl; field; lra.
Qed.

Lemma norm_3_4_0 : Vector3D.norm (Vector3D.mk 3 4 0) <> 0.
Proof.
  unfold Vector3D.norm, Vector3D.norm2; simpl.
  assert (0 < sqrt (3 * 3 + 4 * 4 + 0 * 0)) by (apply sqrt_lt_R0; lra). lra.
Qed.

Lemma normalize_gives_unit_vector_witness :
  exists w,
    Vector3D.normalize (Vector3D.mk 3 4 0) = Ok w
    /\ Vector3D.norm w = 1
    /\ Vector3D.multiply w (Vector3D.norm (Vector3D.mk 3 4 0)) = Vector3D.mk 3 4 0
    /\ Vector3D.normalize w = Ok w.
Proof. exact (normalize_gives_unit_vector (Vector3D.mk 3 4 0) norm_3_4_0). Defined.

(** ** Spherical coordinates *)

Lemma sqrt_unique (a b : R) : 0 <= b -> b * b = a -> sqrt a = b.
Proof. intros Hb E. rewrite <- E. apply sqrt_square. exact Hb. Qed.

Lemma cos_minus_PI (a : R) : cos (a - PI) = - cos a.
Proof. rewrite cos_minus, cos_PI, sin_PI. ring. Qed.

Lemma sin_minus_PI (a : R) : sin (a - PI) = - sin a.
Proof. rewrite sin_minus, cos_PI, sin_PI. ring. Qed.

(** The angle that [atan2] returns for a point off the origin is the polar
    angle of the point. *)
Lemma atan2_polar (x y : R) :
  0 < x * x + y * y ->
  cos (Math.atan2 y x) = x / sqrt (x * x + y * y)
  /\ sin (Math.atan2 y x) = y / sqrt (x * x + y * y).
Proof.
  intro Hpos. set (rho := sqrt (x * x + y * y)).
  assert (0 < rho) as Hrho by (apply sqrt_lt_R0; exact Hpos).
  assert (rho * rho = x * x + y * y) as Hsq by (apply sqrt_sqrt; lra).
  unfold Math.atan2.
  destruct (Rlt_dec 0 x) as [Hx|Hx].
  - assert (sqrt (1 + (y / x)²) = rho / x) as Hs.
    { apply sqrt_unique.
      - apply Rlt_le, Rdiv_lt_0_compat; assumption.
      - unfold Rsqr. replace (rho / x * (rho / x)) with (rho * rho / (x * x)) by (field; lra).
        rewrite Hsq. field. lra. }
    rewrite cos_atan, sin_atan, Hs. split; field; lra.
  - destruct (Rlt_dec x 0) as [Hx'|Hx'].
    + assert (sqrt (1 + (y / x)²) = rho / - x) as Hs.
      { apply sqrt_unique.
        - apply Rlt_le, Rdiv_lt_0_compat; lra.
        - unfold Rsqr.
          replace (rho / - x * (rho / - x)) with (rho * rho / (x * x)) by (field; lra).
          rewrite Hsq. field. lra. }
      destruct (Rle_dec 0 y).
      * rewrite neg_cos, neg_sin, cos_atan, sin_atan, Hs. split; field; lra.
      * rewrite cos_minus_PI, sin_minus_PI, cos_atan, sin_atan, Hs. split; field; lra.
    + assert (x = 0) as -> by lra.
      destruct (Rlt_dec 0 y) as [Hy|Hy].
      * assert (rho = y) as ->.
        { unfold rho. apply sqrt_unique; [lra | ring]. }
        rewrite cos_PI2, sin_PI2. split; field; lra.
      * destruct (Rlt_dec y 0) as [Hy'|Hy'].
        -- assert (rho = - y) as ->.
           { unfold rho. apply sqrt_unique; [lra | ring]. }
           rewrite cos_neg, sin_neg, cos_PI2, sin_PI2. split; field; lra.
        -- exfalso. assert (y = 0) by lra. subst y. lra.
Qed.

Lemma toCartesian_toSpherical (x y z : R) :
  let s := Utils.toSpherical x y z in
  Utils.toCartesian (Spherical.r s) (Spherical.theta s) (Spherical.phi s)
  = Vector3D.mk x y z.
Proof.
  intro s. unfold s, Utils.toSpherical. cbv zeta.
  set (n2 := x * x + y * y + z * z).
  assert (0 <= n2) as Hn2 by (unfold n2; nra).
  destruct (Req_dec_T (sqrt n2) 0) as [E|E].
  - rewrite Reqb_true by exact E. simpl.
    apply sqrt_eq_0 in E; [|exact Hn2].
    assert (x = 0 /\ y = 0 /\ z = 0) as (-> & -> & ->) by (unfold n2 in E; repeat split; nra).
    unfold Utils.toCartesian. apply Vector3D_eq; simpl; ring.
  - rewrite Reqb_false by exact E. simpl.
    set (r := sqrt n2) in *.
    assert (0 < r) as Hr by (pose proof (sqrt_pos n2); fold r in H; lra).
    assert (r * r = n2) as Hsq by (apply sqrt_sqrt; exact Hn2).
    assert (-1 <= z / r <= 1) as Hc.
    { assert (z * z <= r * r) as Hz by (rewrite Hsq; unfold n2; nra).
      split.
      - apply (Rmult_le_reg_r r); [exact Hr|]. unfold Rdiv.
        rewrite Rmult_assoc, Rinv_l by lra. nra.
      - apply (Rmult_le_reg_r r); [exact Hr|]. unfold Rdiv.
        rewrite Rmult_assoc, Rinv_l by lra. nra. }
    set (rho := sqrt (x * x + y * y)).
    assert (0 <= x * x + y * y) as Hxy by nra.
    assert (0 <= rho) as Hrho by (apply sqrt_pos).
    assert (rho * rho = x * x + y * y) as Hrsq by (apply sqrt_sqrt; exact Hxy).
    assert (sin (acos (z / r)) = rho / r) as Hsin.
    { rewrite sin_acos by exact Hc. apply sqrt_unique.
      - apply Rmult_le_pos; [exact Hrho | apply Rlt_le, Rinv_0_lt_compat; exact Hr].
      - unfold Rsqr.
        replace (rho / r * (rho / r)) with (rho * rho / (r * r)) by (field; lra).
        rewrite Hrsq.
        replace (x * x + y * y) with (r * r - z * z) by (rewrite Hsq; unfold n2; ring).
        field. lra. }
    unfold Utils.toCartesian. cbv zeta.
    rewrite Hsin, cos_acos by exact Hc.
    destruct (Rle_lt_or_eq_dec 0 _ Hxy) as [Hpos|Hzero].
    + destruct (atan2_polar x y Hpos) as [Hcos Hsn]. fold rho in Hcos, Hsn.
      assert (0 < rho) as Hrho' by (apply sqrt_lt_R0; exact Hpos).
      rewrite Hcos, Hsn. apply Vector3D_eq; simpl; field; lra.
    + assert (x = 0 /\ y = 0) as (-> & ->) by (split; nra).
      assert (rho = 0) as ->.
      { unfold rho. replace (0 * 0 + 0 * 0) with 0 by ring. exact sqrt_0. }
      apply Vector3D_eq; simpl; field; lra.
Qed.

(** X14: converting a point to spherical coordinates and back returns the point,
    for every point of space, the origin and the points of the z axis
    included: [Utils.toCartesian] undoes [Utils.toSpherical], and
    [Vector3D.fromSpherical] undoes [Vector3D.toSpherical]. *)
Theorem spherical_coordinates_round_trip (v : Vector3D.t) :
  let s := Utils.toSpherical (Vector3D.x v) (Vector3D.y v) (Vector3D.z v) in
  let s' := Vector3D.toSpherical v in
  Utils.toCartesian (Spherical.r s) (Spherical.theta s) (Spherical.phi s) = v
  /\ Vector3D.fromSpherical (Spherical.r s') (Spherical.theta s') (Spherical.phi s') = v.
Proof.
  intros s s'.
  pose proof (toCartesian_toSpherical (Vector3D.x v) (Vector3D.y v) (Vector3D.z v)) as H.
  cbv zeta in H. fold s in H.
  assert (Vector3D.mk (Vector3D.x v) (Vector3D.y v) (Vector3D.z v) = v) as Ev
    by (destruct v; reflexivity).
  rewrite Ev in H. split; [exact H|].
  exact H.
Qed.
Lemma atan2_of_polar (k phi : R) :
  0 < k -> - PI < phi <= PI -> Math.atan2 (k * sin phi) (k * cos phi) = phi.
Proof.
  intros Hk [Hlo Hhi]. pose proof PI_RGT_0 as Hpi.
  assert (forall c, c <> 0 -> k * sin phi / (k * c) = sin phi / c) as Hdiv
    by (intros c Hc; field; split; lra).
  unfold Math.atan2.
  destruct (Rtotal_order phi (- (PI / 2))) as [L | [E | G]].
  - (* - PI < phi < - PI / 2 *)
    assert (cos phi < 0) as Hc.
    { rewrite <- cos_neg. apply cos_lt_0; lra. }
    assert (sin phi < 0) as Hs by (apply sin_lt_0_var; lra).
    destruct (Rlt_dec 0 (k * cos phi)) as [H|_]; [nra|].
    destruct (Rlt_dec (k * cos phi) 0) as [_|H]; [|nra].
    destruct (Rle_dec 0 (k * sin phi)) as [H|_]; [nra|].
    rewrite Hdiv by lra.
    replace (sin phi / cos phi) with (tan (phi + PI)).
    + rewrite atan_tan by lra. ring.
    + unfold tan. rewrite neg_sin, neg_cos. field. lra.
  - (* phi = - PI / 2 *)
    subst phi. rewrite cos_neg, sin_neg, cos_PI2, sin_PI2.
    destruct (Rlt_dec 0 (k * 0)) as [H|_]; [lra|].
    destruct (Rlt_dec (k * 0) 0) as [H|_]; [lra|].
    destruct (Rlt_dec 0 (k * - (1))) as [H|_]; [lra|].
    destruct (Rlt_dec (k * - (1)) 0) as [_|H]; [reflexivity | lra].
  - destruct (Rtotal_order phi (PI / 2)) as [L | [E | G']].
    + (* - PI / 2 < phi < PI / 2 *)
      assert (0 < cos phi) as Hc by (apply cos_gt_0; lra).
      destruct (Rlt_dec 0 (k * cos phi)) as [_|H]; [|nra].
      rewrite Hdiv by lra. fold (tan phi). apply atan_tan. lra.
    + (* phi = PI / 2 *)
      subst phi. rewrite cos_PI2, sin_PI2.
      destruct (Rlt_dec 0 (k * 0)) as [H|_]; [lra|].
      destruct (Rlt_dec (k * 0) 0) as [H|_]; [lra|].
      destruct (Rlt_dec 0 (k * 1)) as [_|H]; [reflexivity | lra].
    + (* PI / 2 < phi <= PI *)
      assert (cos phi < 0) as Hc by (apply cos_lt_0; lra).
      assert (0 <= sin phi) as Hs by (apply sin_ge_0; lra).
      destruct (Rlt_dec 0 (k * cos phi)) as [H|_]; [nra|].
      destruct (Rlt_dec (k * cos phi) 0) as [_|H]; [|nra].
      destruct (Rle_dec 0 (k * sin phi)) as [_|H]; [|nra].
      rewrite Hdiv by lra.
      replace (sin phi / cos phi) with (tan (phi - PI)).
      * rewrite atan_tan by lra. ring.
      * unfold tan. rewrite sin_minus_PI, cos_minus_PI. field. lra.
Qed.

(** X15: in the other direction the round trip holds on the range of the
    spherical coordinates: for a radius above 0, a polar angle strictly
    between 0 and pi and an azimuth in (-pi, pi], [toSpherical] of
    [toCartesian r theta phi] is [{ r, theta, phi }] again. *)
Theorem toSpherical_inverts_toCartesian (r theta phi : R) :
  0 < r -> 0 < theta < PI -> - PI < phi <= PI ->
  let v := Utils.toCartesian r theta phi in
  Utils.toSpherical (Vector3D.x v) (Vector3D.y v) (Vector3D.z v)
  = Spherical.mk r theta phi
  /\ Vector3D.toSpherical (Vector3D.fromSpherical r theta phi) = Spherical.mk r theta phi.
Proof.
  intros Hr Ht Hp v.
  assert (Utils.toSpherical (Vector3D.x v) (Vector3D.y v) (Vector3D.z v)
          = Spherical.mk r theta phi) as H.
  { unfold v, Utils.toCartesian, Utils.toSpherical. cbv zeta. simpl.
    assert (0 < sin theta) as Hs by (apply sin_gt_0; lra).
    assert (sqrt (r * sin theta * cos phi * (r * sin theta * cos phi)
                  + r * sin theta * sin phi * (r * sin theta * sin phi)
                  + r * cos theta * (r * cos theta)) = r) as ->.
    { apply sqrt_unique; [lra|].
      pose proof (sin2_cos2 theta) as H1. pose proof (sin2_cos2 phi) as H2.
      unfold Rsqr in H1, H2.
      replace (r * sin theta * cos phi * (r * sin theta * cos phi)
               + r * sin theta * sin phi * (r * sin theta * sin phi)
               + r * cos theta * (r * cos theta))
        with (r * r * (sin theta * sin theta * (sin phi * sin phi + cos phi * cos phi)
                       + cos theta * cos theta)) by ring.
      rewrite H2, Rmult_1_r, H1. ring. }
    rewrite Reqb_false by lra.
    replace (r * cos theta / r) with (cos theta) by (field; lra).
    rewrite acos_cos by lra.
    rewrite atan2_of_polar by (try nra; assumption).
    reflexivity. }
  split; exact H.
Qed.

Lemma toSpherical_inverts_toCartesian_witness :
  Utils.toSpherical (Vector3D.x (Utils.toCartesian 2 1 1))
    (Vector3D.y (Utils.toCartesian 2 1 1)) (Vector3D.z (Utils.toCartesian 2 1 1))
  = Spherical.mk 2 1 1.
Proof.
  pose proof PI_RGT_0 as Hpi. pose proof PI2_3_2 as H32.
  assert (3 < PI) as Hpi3.
  { apply (Rlt_trans _ (3141592 / 1000000)); [lra | exact pi_literal_lt_PI]. }
  assert (0 < 1 < PI) as Ht by lra.
  assert (- PI < 1 <= PI) as Hp by lra.
  exact (proj1 (toSpherical_inverts_toCartesian 2 1 1 ltac:(lra) Ht Hp)).
Defined.
(** ** The ranges of the spherical angles *)

Lemma atan_nonpos (t : R) : t <= 0 -> atan t <= 0.
Proof.
  intro H. destruct (Rle_lt_or_eq_dec _ _ H) as [L|E].
  - apply Rlt_le. rewrite <- atan_0. apply atan_increasing. exact L.
  - rewrite E, atan_0. lra.
Qed.

Lemma atan_pos (t : R) : 0 < t -> 0 < atan t.
Proof. intro H. rewrite <- atan_0. apply atan_increasing. exact H. Qed.

Lemma atan2_range (y x : R) : - PI < Math.atan2 y x <= PI.
Proof.
  pose proof PI_RGT_0 as Hpi. unfold Math.atan2.
  destruct (Rlt_dec 0 x) as [Hx|Hx].
  - pose proof (atan_bound (y / x)). lra.
  - destruct (Rlt_dec x 0) as [Hx'|Hx'].
    + pose proof (atan_bound (y / x)) as Hb.
      assert (/ x < 0) as Hinv by (apply Rinv_lt_0_compat; exact Hx').
      destruct (Rle_dec 0 y) as [Hy|Hy].
      * assert (atan (y / x) <= 0) by (apply atan_nonpos; unfold Rdiv; nra). lra.
      * assert (0 < atan (y / x)) by (apply atan_pos; unfold Rdiv; nra). lra.
    + destruct (Rlt_dec 0 y); [lra|]. destruct (Rlt_dec y 0); lra.
Qed.

(** X16: the spherical coordinates that the kernel and the CPU code compute for
    a point are in their ranges: the radius is the length of the vector, the
    polar angle lies in [0, pi] and the azimuth in (-pi, pi]. *)
Theorem spherical_angles_in_range (p : Shader.vec3) (v : Vector3D.t) :
  let s := Shader.toSpherical p in
  let s' := Vector3D.toSpherical v in
  (Shader.x s = Shader.length p
   /\ 0 <= Shader.y s <= PI
   /\ - PI < Shader.z s <= PI)
  /\ (Spherical.r s' = Vector3D.norm v
      /\ 0 <= Spherical.theta s' <= PI
      /\ - PI < Spherical.phi s' <= PI)
  /\ Utils.toSpherical (Vector3D.x v) (Vector3D.y v) (Vector3D.z v) = s'.
Proof.
  intros s s'. pose proof PI_RGT_0 as Hpi. split; [|split].
  - unfold s, Shader.toSpherical. cbv zeta.
    destruct (Req_dec_T (Shader.length p) 0) as [E|E].
    + rewrite Reqb_true by exact E. simpl. rewrite E. repeat split; lra.
    + rewrite Reqb_false by exact E. simpl.
      split; [reflexivity|]. split; [apply acos_bound | apply atan2_range].
  - unfold s', Vector3D.toSpherical. cbv zeta.
    destruct (Req_dec_T (Vector3D.norm v) 0) as [E|E].
    + rewrite Reqb_true by exact E. simpl. rewrite E. repeat split; lra.
    + rewrite Reqb_false by exact E. simpl.
      split; [reflexivity|]. split; [apply acos_bound | apply atan2_range].
  - reflexivity.
Qed.
(** ** The camera of the scene *)

Lemma norm_of_spherical (d vert horz : R) :
  Vector3D.norm
    (Vector3D.mk (d * sin vert * cos horz) (d * cos vert) (d * sin vert * sin horz))
  = Rabs d.
Proof.
  unfold Vector3D.norm, Vector3D.norm2; simpl.
  pose proof (sin2_cos2 vert) as H1. pose proof (sin2_cos2 horz) as H2.
  unfold Rsqr in H1, H2.
  replace (d * sin vert * cos horz * (d * sin vert * cos horz)
           + d * cos vert * (d * cos vert)
           + d * sin vert * sin horz * (d * sin vert * sin horz))
    with (d * d * (sin vert * sin vert * (sin horz * sin horz + cos horz * cos horz)
                   + cos vert * cos vert)) by ring.
  rewrite H2, Rmult_1_r, H1, Rmult_1_r.
  replace (d * d) with (d²) by reflexivity. apply sqrt_Rsqr_abs.
Qed.

(** X17: [updateCameraFromSpherical] puts the camera at the distance
    [|cameraDistance|] from the centre, whatever the two angles; so does
    [App.updateCameraPosition] for every position of the three sliders.
    The constructor and [updateCameraFromSpherical] do not measure the
    angles the same way: the constructor takes the polar angle from the z
    axis, [updateCameraFromSpherical] from the y axis.  Placing the camera
    from the coordinates that the constructor computed keeps its distance
    from the centre and gives it the old z as its new y. *)
Theorem camera_from_spherical (this : SceneClass.t)
    (position lookAt up : Vector3D.t) (fov : R)
    (hitables : list IHitable) (curvatureCoefficient distance angleHorz angleVert : R) :
  let constructed :=
    SceneClass.new position lookAt up fov hitables curvatureCoefficient in
  let placed := SceneClass.updateCameraFromSpherical constructed in
  Vector3D.norm (cameraPosition
                   (SceneClass.scene (SceneClass.updateCameraFromSpherical this)))
  = Rabs (SceneClass.cameraDistance this)
  /\ Vector3D.norm
       (cameraPosition
          (SceneClass.scene
             (SceneClass.App_updateCameraPosition this distance angleHorz angleVert)))
     = Rabs distance
  /\ Vector3D.norm (cameraPosition (SceneClass.scene placed))
     = Vector3D.norm position
  /\ Vector3D.y (cameraPosition (SceneClass.scene placed))
     = Vector3D.z position.
Proof.
  intros constructed placed.
  split; [apply norm_of_spherical|]. split; [apply norm_of_spherical|].
  unfold placed, constructed, SceneClass.updateCameraFromSpherical, SceneClass.new,
    Utils.toSpherical.
  cbv zeta. cbn [SceneClass.scene cameraPosition SceneClass.cameraDistance
                 SceneClass.cameraAngleVert SceneClass.cameraAngleHorz].
  fold (Vector3D.norm2 position). fold (Vector3D.norm position).
  pose proof (norm2_nonneg position) as Hn2.
  destruct (Req_dec_T (Vector3D.norm position) 0) as [E|E].
  - rewrite Reqb_true by exact E. simpl.
    rewrite norm_of_spherical, E, Rabs_R0. split; [reflexivity|].
    unfold Vector3D.norm in E. apply sqrt_eq_0 in E; [|exact Hn2].
    unfold Vector3D.norm2 in E.
    assert (Vector3D.z position = 0) as -> by nra. ring.
  - rewrite Reqb_false by exact E. simpl.
    pose proof (norm_pos _ E) as Hp. pose proof (norm_sqr position) as Hs.
    rewrite norm_of_spherical. split; [apply Rabs_pos_eq; lra|].
    rewrite cos_acos; [field; lra|].
    set (r := Vector3D.norm position) in *.
    assert (Vector3D.z position * Vector3D.z position <= r * r) as Hz
      by (rewrite Hs; unfold Vector3D.norm2; nra).
    split.
    + apply (Rmult_le_reg_r r); [exact Hp|]. unfold Rdiv.
      rewrite Rmult_assoc, Rinv_l by lra. nra.
    + apply (Rmult_le_reg_r r); [exact Hp|]. unfold Rdiv.
      rewrite Rmult_assoc, Rinv_l by lra. nra.
Qed.
(** ** Remainders *)

Lemma trunc_nonneg (q : R) : 0 <= q -> Math.trunc q <= q < Math.trunc q + 1.
Proof.
  intro H. unfold Math.trunc, Math.floor.
  destruct (Rle_dec 0 q); [|contradiction].
  pose proof (Zfloor_bound q). lra.
Qed.

Lemma trunc_neg (q : R) : q < 0 -> Math.trunc q - 1 < q <= Math.trunc q.
Proof.
  intro H. unfold Math.trunc, Math.floor.
  destruct (Rle_dec 0 q); [lra|].
  pose proof (Zfloor_bound (- q)). lra.
Qed.

Lemma div_scale (a n : R) : 0 < n -> a = n * (a / n).
Proof. intro H. field. lra. Qed.

(** The remainder has the sign of the dividend and is smaller than the
    divisor. *)
Lemma fmod_nonneg (a n : R) : 0 < n -> 0 <= a -> 0 <= Shader.fmod a n < n.
Proof.
  intros Hn Ha. unfold Shader.fmod.
  assert (0 <= a / n) as Hq.
  { apply Rmult_le_pos; [exact Ha | apply Rlt_le, Rinv_0_lt_compat; exact Hn]. }
  pose proof (trunc_nonneg _ Hq) as [H1 H2].
  pose proof (div_scale a n Hn) as E.
  set (q := a / n) in *. set (t := Math.trunc q) in *. rewrite E. split; nra.
Qed.

Lemma fmod_neg (a n : R) : 0 < n -> a < 0 -> - n < Shader.fmod a n <= 0.
Proof.
  intros Hn Ha. unfold Shader.fmod.
  assert (a / n < 0) as Hq.
  { pose proof (Rinv_0_lt_compat n Hn). unfold Rdiv. nra. }
  pose proof (trunc_neg _ Hq) as [H1 H2].
  pose proof (div_scale a n Hn) as E.
  set (q := a / n) in *. set (t := Math.trunc q) in *. rewrite E. split; nra.
Qed.

(** The remainder brought into [0, n): what the mappings and [doubleMod]
    compute. *)
Lemma fmod_fixed_range (a n : R) :
  0 < n ->
  0 <= (if Shader.fmod a n <? 0 then n + Shader.fmod a n else Shader.fmod a n) < n.
Proof.
  intro Hn. destruct (Rle_dec 0 a) as [Ha|Ha].
  - pose proof (fmod_nonneg a n Hn Ha) as H. rewrite Rltb_false by lra. exact H.
  - pose proof (fmod_neg a n Hn ltac:(lra)) as H.
    destruct (Rlt_dec (Shader.fmod a n) 0) as [L|L].
    + rewrite Rltb_true by exact L. lra.
    + rewrite Rltb_false by exact L. lra.
Qed.

Lemma trunc_of_unit_interval (q : R) : 0 <= q < 1 -> Math.trunc q = 0.
Proof.
  intro H. unfold Math.trunc, Math.floor.
  destruct (Rle_dec 0 q); [|lra].
  rewrite (Zfloor_eq 0 q); [reflexivity | simpl; lra].
Qed.

Lemma trunc_of_second_interval (q : R) : 1 <= q < 2 -> Math.trunc q = 1.
Proof.
  intro H. unfold Math.trunc, Math.floor.
  destruct (Rle_dec 0 q); [|lra].
  rewrite (Zfloor_eq 1 q); [reflexivity | simpl; lra].
Qed.

(** X19: [doubleMod(n, m)] with a positive modulus is the remainder of the
    floored division: it lies in [0, m), it differs from [n] by a multiple
    of [m], namely [floor(n / m)] times [m], also for negative [n], where
    [n % m] alone is negative. *)
Theorem doubleMod_is_floored_modulo (n m : R) :
  0 < m ->
  0 <= Utils.doubleMod n m < m
  /\ Utils.doubleMod n m = n - m * Math.floor (n / m).
Proof.
  intro Hm.
  assert (0 <= n - m * Math.floor (n / m) < m) as Hrange.
  { unfold Math.floor. pose proof (Zfloor_bound (n / m)) as [H1 H2].
    pose proof (div_scale n m Hm) as E. set (q := n / m) in *.
    set (f := IZR (Zfloor q)) in *. rewrite E. split; nra. }
  assert (Utils.doubleMod n m = n - m * Math.floor (n / m)) as Heq.
  { unfold Utils.doubleMod.
    destruct (Rle_dec 0 n) as [Hn|Hn].
    - pose proof (fmod_nonneg n m Hm Hn) as Ha.
      assert (Shader.fmod n m = n - m * Math.floor (n / m)) as E.
      { unfold Shader.fmod, Math.trunc. destruct (Rle_dec 0 (n / m)) as [_|H]; [reflexivity|].
        exfalso. apply H. apply Rmult_le_pos; [exact Hn|].
        apply Rlt_le, Rinv_0_lt_compat; exact Hm. }
      rewrite <- E. set (a := Shader.fmod n m) in *.
      unfold Shader.fmod. rewrite trunc_of_second_interval; [ring|].
      replace ((a + m) / m) with (a / m + 1) by (field; lra).
      pose proof (div_scale a m Hm) as Ea. set (q := a / m) in *. split; nra.
    - assert (n < 0) as Hn' by lra.
      pose proof (fmod_neg n m Hm Hn') as Ha.
      assert (n / m < 0) as Hq.
      { pose proof (Rinv_0_lt_compat m Hm). unfold Rdiv. nra. }
      assert (Shader.fmod n m = n + m * IZR (Zfloor (- (n / m)))) as E.
      { unfold Shader.fmod, Math.trunc, Math.floor.
        destruct (Rle_dec 0 (n / m)); [lra | ring]. }
      pose proof (Zfloor_bound (- (n / m))) as [F1 F2].
      pose proof (div_scale n m Hm) as En.
      set (a := Shader.fmod n m) in *. set (q := n / m) in *.
      set (k := Zfloor (- q)) in *.
      destruct (Req_dec_T a 0) as [Z0|NZ].
      + rewrite Z0. replace (0 + m) with m by ring.
        unfold Shader.fmod. replace (m / m) with 1 by (field; lra).
        rewrite trunc_of_second_interval by lra.
        assert (q = - IZR k) as Eq by nra.
        unfold Math.floor. rewrite (Zfloor_eq (- k) q) by (rewrite opp_IZR; lra).
        rewrite opp_IZR. rewrite En at 1. rewrite Eq. ring.
      + assert (a < 0) as La by lra.
        unfold Shader.fmod. rewrite trunc_of_unit_interval.
        * unfold Math.floor.
          rewrite (Zfloor_eq (- k - 1) q).
          -- rewrite minus_IZR, opp_IZR. rewrite E. ring.
          -- rewrite minus_IZR, opp_IZR. split; [lra|].
             assert (- q <> IZR k) as Hne by (intro Hq'; apply NZ; rewrite E, En; nra).
             lra.
        * replace ((a + m) / m) with (a / m + 1) by (field; lra).
          pose proof (div_scale a m Hm) as Ea. set (qa := a / m) in *. split; nra. }
  split; [rewrite Heq; exact Hrange | exact Heq].
Qed.

Lemma doubleMod_is_floored_modulo_witness :
  0 <= Utils.doubleMod (-7) 3 < 3
  /\ Utils.doubleMod (-7) 3 = -7 - 3 * Math.floor (-7 / 3).
Proof. exact (doubleMod_is_floored_modulo (-7) 3 ltac:(lra)). Defined.

(** ** The texture mappings give pixels of the texture *)

Lemma isInteger_IZR (k : Z) : isInteger (IZR k).
Proof. exists k. reflexivity. Qed.

Lemma isInteger_floor (e : R) : isInteger (Math.floor e).
Proof. apply isInteger_IZR. Qed.

Lemma isInteger_trunc (e : R) : isInteger (Math.trunc e).
Proof.
  unfold Math.trunc, Math.floor. destruct (Rle_dec 0 e).
  - apply isInteger_IZR.
  - exists (- Zfloor (- e))%Z. rewrite opp_IZR. reflexivity.
Qed.

Lemma isInteger_plus (a b : R) : isInteger a -> isInteger b -> isInteger (a + b).
Proof. intros [i ->] [j ->]. exists (i + j)%Z. rewrite plus_IZR. reflexivity. Qed.

Lemma isInteger_minus (a b : R) : isInteger a -> isInteger b -> isInteger (a - b).
Proof. intros [i ->] [j ->]. exists (i - j)%Z. rewrite minus_IZR. reflexivity. Qed.

Lemma isInteger_mult (a b : R) : isInteger a -> isInteger b -> isInteger (a * b).
Proof. intros [i ->] [j ->]. exists (i * j)%Z. rewrite mult_IZR. reflexivity. Qed.

Lemma isInteger_lt (a b : R) : isInteger a -> isInteger b -> a < b -> a <= b - 1.
Proof.
  intros [i ->] [j ->] H. apply lt_IZR in H.
  rewrite <- minus_IZR. apply IZR_le. lia.
Qed.

(** [floor(e) % size], with [size] added when negative: an integer between
    0 and [size - 1]. *)
Lemma wrapped_index (e size : R) :
  isInteger size -> 0 < size ->
  let x := Shader.fmod (Math.floor e) size in
  let x := if x <? 0 then size + x else x in
  isInteger x /\ 0 <= x <= size - 1.
Proof.
  intros Hi Hs x x'.
  assert (isInteger x) as Hx.
  { unfold x, Shader.fmod. apply isInteger_minus; [apply isInteger_floor|].
    apply isInteger_mult; [exact Hi | apply isInteger_trunc]. }
  assert (isInteger x') as Hx'.
  { unfold x'. destruct (x <? 0); [apply isInteger_plus|]; assumption. }
  split; [exact Hx'|].
  pose proof (fmod_fixed_range (Math.floor e) size Hs) as [H1 H2]. fold x in H1, H2.
  fold x' in H1, H2. split; [exact H1|]. apply isInteger_lt; assumption.
Qed.

(** X20: the constructor of [DiscMapping] throws when a size is zero.  For a
    texture of [sizeX] by [sizeY] pixels (positive integers) and an annulus
    with [rMin < rMax], [map] returns a pixel of the texture for every
    radius and every angle: integer coordinates with [0 <= x <= sizeX - 1]
    and [0 <= y <= sizeY - 1]. *)
Theorem disc_mapping_gives_a_pixel (rMin rMax : R) (sizeX sizeY : Z) (r theta phi : R) :
  (0 < sizeX)%Z -> (0 < sizeY)%Z -> rMin < rMax ->
  (exists this,
      DiscMapping.new rMin rMax (IZR sizeX) (IZR sizeY) = Ok this
      /\ isPixel (IZR sizeX) (IZR sizeY) (DiscMapping.map this r theta phi))
  /\ DiscMapping.new rMin rMax 0 (IZR sizeY) = Throw "Invalid texture dimensions"
  /\ DiscMapping.new rMin rMax (IZR sizeX) 0 = Throw "Invalid texture dimensions".
Proof.
  intros Hx Hy Hr.
  assert (0 < IZR sizeX) as Hsx by (apply IZR_lt; exact Hx).
  assert (0 < IZR sizeY) as Hsy by (apply IZR_lt; exact Hy).
  assert (1 <= IZR sizeX) as Hsx1 by (apply IZR_le; lia).
  assert (1 <= IZR sizeY) as Hsy1 by (apply IZR_le; lia).
  split; [|split].
  - eexists. split.
    + unfold DiscMapping.new. rewrite !Reqb_false by lra. reflexivity.
    + unfold DiscMapping.map. cbv zeta. simpl.
      destruct ((r <? rMin) || (r >? rMax)) eqn:Eout.
      * unfold isPixel; simpl. repeat split; try lra.
        -- apply (isInteger_IZR 0).
        -- apply isInteger_minus; [apply isInteger_IZR | apply (isInteger_IZR 1)].
      * apply orb_false_elim in Eout. destruct Eout as [E1 E2].
        assert (rMin <= r).
        { destruct (Rlt_dec r rMin) as [L|L]; [|lra].
          rewrite (Rltb_true _ _ L) in E1. discriminate. }
        destruct (wrapped_index (phi / (2 * PI) * IZR sizeX) (IZR sizeX)
                    (isInteger_IZR sizeX) Hsx) as [Ix Bx].
        unfold isPixel; simpl. split; [exact Ix|].
        set (y := Math.floor ((r - rMin) / (rMax - rMin) * IZR sizeY)).
        assert (0 <= y) as Hy0.
        { unfold y, Math.floor. apply (IZR_le 0). apply Zfloor_lub. simpl.
          apply Rmult_le_pos; [|lra].
          apply Rmult_le_pos; [lra | apply Rlt_le, Rinv_0_lt_compat; lra]. }
        destruct (Rlt_dec (IZR sizeY - 1) y) as [L|L].
        -- rewrite (Rltb_true _ _ L). split; [|split; [exact Bx | lra]].
           apply isInteger_minus; [apply isInteger_IZR | apply (isInteger_IZR 1)].
        -- rewrite (Rltb_false _ _ L). split; [apply isInteger_floor|].
           split; [exact Bx | lra].
  - unfold DiscMapping.new. rewrite Reqb_true by reflexivity. reflexivity.
  - unfold DiscMapping.new. rewrite (Reqb_true 0 0) by reflexivity.
    rewrite orb_true_r. reflexivity.
Qed.

Lemma disc_mapping_gives_a_pixel_witness :
  exists this,
    DiscMapping.new (26 / 10) 12 (IZR 512) (IZR 256) = Ok this
    /\ isPixel (IZR 512) (IZR 256) (DiscMapping.map this 5 0 (-1)).
Proof.
  exact (proj1 (disc_mapping_gives_a_pixel (26 / 10) 12 512 256 5 0 (-1)
                  ltac:(lia) ltac:(lia) ltac:(lra))).
Defined.

(** X21: the constructor of [SphericalMapping] throws when a size is zero.  For
    a texture of [sizeX] by [sizeY] pixels (positive integers), [map]
    returns a pixel of the texture for all angles, and so does
    [mapCartesian] for all [x] and [z] and every [y] between -1 and 1. *)
Theorem spherical_mapping_gives_a_pixel (sizeX sizeY : Z) (r theta phi x y z : R) :
  (0 < sizeX)%Z -> (0 < sizeY)%Z -> -1 <= y <= 1 ->
  (exists this,
      SphericalMapping.new (IZR sizeX) (IZR sizeY) = Ok this
      /\ isPixel (IZR sizeX) (IZR sizeY) (SphericalMapping.map this r theta phi)
      /\ isPixel (IZR sizeX) (IZR sizeY) (SphericalMapping.mapCartesian this x y z))
  /\ SphericalMapping.new 0 (IZR sizeY) = Throw "Invalid texture dimensions"
  /\ SphericalMapping.new (IZR sizeX) 0 = Throw "Invalid texture dimensions".
Proof.
  intros Hx Hy _.
  assert (0 < IZR sizeX) as Hsx by (apply IZR_lt; exact Hx).
  assert (0 < IZR sizeY) as Hsy by (apply IZR_lt; exact Hy).
  split; [|split].
  - eexists. split; [|split].
    + unfold SphericalMapping.new. rewrite !Reqb_false by lra. reflexivity.
    + unfold SphericalMapping.map. cbv zeta. simpl.
      destruct (wrapped_index (phi / (2 * PI) * IZR sizeX) (IZR sizeX)
                  (isInteger_IZR sizeX) Hsx) as [Ix Bx].
      destruct (wrapped_index (theta / PI * IZR sizeY) (IZR sizeY)
                  (isInteger_IZR sizeY) Hsy) as [Iy By].
      unfold isPixel; simpl. repeat split; tauto.
    + unfold SphericalMapping.mapCartesian. cbv zeta. simpl.
      destruct (wrapped_index ((5 / 10 + Math.atan2 z x / (2 * PI)) * IZR sizeX) (IZR sizeX)
                  (isInteger_IZR sizeX) Hsx) as [Ix Bx].
      destruct (wrapped_index ((5 / 10 - asin y / PI) * IZR sizeY) (IZR sizeY)
                  (isInteger_IZR sizeY) Hsy) as [Iy By].
      unfold isPixel; simpl. repeat split; tauto.
  - unfold SphericalMapping.new. rewrite Reqb_true by reflexivity. reflexivity.
  - unfold SphericalMapping.new. rewrite (Reqb_true 0 0) by reflexivity.
    rewrite orb_true_r. reflexivity.
Qed.

Lemma spherical_mapping_gives_a_pixel_witness :
  exists this,
    SphericalMapping.new (IZR 2048) (IZR 1024) = Ok this
    /\ isPixel (IZR 2048) (IZR 1024) (SphericalMapping.map this 30 2 (-4))
    /\ isPixel (IZR 2048) (IZR 1024) (SphericalMapping.mapCartesian this 1 (1 / 2) (-1)).
Proof.
  exact (proj1 (spherical_mapping_gives_a_pixel 2048 1024 30 2 (-4) 1 (1 / 2) (-1)
                  ltac:(lia) ltac:(lia) ltac:(lra))).
Defined.
(** ** The two implementations of [addColor] *)

Lemma capMin_Rmax (x : R) : Utils.capMin x 0 = Rmax x 0.
Proof.
  unfold Utils.capMin, Rmax. destruct (Rlt_dec x 0) as [L|L].
  - rewrite (Rltb_true _ _ L). destruct (Rle_dec x 0); lra.
  - rewrite (Rltb_false _ _ L). destruct (Rle_dec x 0); lra.
Qed.

Lemma Rmax_scale (x : R) : Rmax (x / 255) 0 = Rmax x 0 / 255.
Proof. unfold Rmax. destruct (Rle_dec (x / 255) 0); destruct (Rle_dec x 0); lra. Qed.

Lemma floor_of_capped (e : R) :
  Math.floor (255 * Rmin (e / 255) 1) = Utils.cap (Math.floor e) 255.
Proof.
  unfold Utils.cap, Math.floor. pose proof (Zfloor_bound e) as [H1 H2].
  destruct (Rlt_dec 255 (IZR (Zfloor e))) as [L|L].
  - rewrite (Rltb_true _ _ L). unfold Rmin. destruct (Rle_dec (e / 255) 1); [lra|].
    rewrite (Zfloor_eq 255 (255 * 1)); [reflexivity | lra].
  - rewrite (Rltb_false _ _ L).
    assert (Zfloor e <= 255)%Z as Hz by (apply le_IZR; lra).
    unfold Rmin. destruct (Rle_dec (e / 255) 1).
    + replace (255 * (e / 255)) with e by field. reflexivity.
    + assert (Zfloor e = 255%Z) as E.
      { apply Zfloor_eq. split; [lra|].
        assert (IZR (Zfloor e) <= 255) as Hle by (apply IZR_le; exact Hz). lra. }
      rewrite E. rewrite (Zfloor_eq 255 (255 * 1)); [reflexivity | lra].
Qed.

(** X22: the CPU [Utils.addColor] and the shader's [addColor] agree up to the
    scale and the rounding: for a tint whose alpha is not zero, each colour
    channel of the CPU result is the floor of 255 times the channel that the
    shader computes from the two colours divided by 255, and both results
    are opaque.  They part on a tint with alpha zero that is not the colour
    (0, 0, 0, 0): the shader tests the alpha alone and returns the hit
    colour, the CPU code compares all four channels and composites. *)
Theorem addColor_cpu_and_shader (hitColor tintColor : ArgbColor.t) :
  ArgbColor.a tintColor <> 0 ->
  let gpu := Shader.addColor (toUnit hitColor) (toUnit tintColor) in
  Utils.addColor hitColor tintColor
  = ArgbColor.mk (Math.floor (255 * Shader.r gpu)) (Math.floor (255 * Shader.g gpu))
      (Math.floor (255 * Shader.b gpu)) (255 * Shader.a gpu)
  /\ (forall tint,
        ArgbColor.a tint = 0 -> ArgbColor.equals tint ArgbColor.Transparent = false ->
        Shader.addColor (toUnit hitColor) (toUnit tint) = toUnit hitColor
        /\ ArgbColor.a (Utils.addColor hitColor tint) = 255).
Proof.
  intros Ha gpu. split.
  - unfold gpu, Utils.addColor, Shader.addColor. cbv zeta.
    assert (ArgbColor.equals tintColor ArgbColor.Transparent = false) as ->.
    { unfold ArgbColor.equals. simpl. rewrite (Reqb_false (ArgbColor.a tintColor) 0 Ha).
      apply andb_false_r. }
    assert (Shader.a (toUnit tintColor) <> 0) as Ha'.
    { simpl. intro E. apply Ha. lra. }
    rewrite (Reqb_false _ _ Ha').
    cbn [Shader.r Shader.g Shader.b Shader.a toUnit].
    rewrite !Rmax_scale, !capMin_Rmax.
    fold (Utils.getBrightness tintColor).
    change ((Rmax (Rmax (ArgbColor.r tintColor / 255) (ArgbColor.g tintColor / 255))
               (ArgbColor.b tintColor / 255)
             + Rmin (Rmin (ArgbColor.r tintColor / 255) (ArgbColor.g tintColor / 255))
                 (ArgbColor.b tintColor / 255)) / 2)
      with (Utils.getBrightness tintColor).
    set (B := Utils.getBrightness tintColor).
    rewrite <- !floor_of_capped.
    f_equal; try (f_equal; f_equal; f_equal; field); ring.
  - intros tint H0 Hne. split.
    + unfold Shader.addColor. cbv zeta.
      rewrite Reqb_true; [reflexivity|]. simpl. rewrite H0. field.
    + unfold Utils.addColor. rewrite Hne. reflexivity.
Qed.

Lemma addColor_cpu_and_shader_witness :
  Utils.addColor ArgbColor.White ArgbColor.Black
  = ArgbColor.mk
      (Math.floor
         (255 * Shader.r (Shader.addColor (toUnit ArgbColor.White) (toUnit ArgbColor.Black))))
      (Math.floor
         (255 * Shader.g (Shader.addColor (toUnit ArgbColor.White) (toUnit ArgbColor.Black))))
      (Math.floor
         (255 * Shader.b (Shader.addColor (toUnit ArgbColor.White) (toUnit ArgbColor.Black))))
      (255 * Shader.a (Shader.addColor (toUnit ArgbColor.White) (toUnit ArgbColor.Black))).
Proof.
  exact (proj1 (addColor_cpu_and_shader ArgbColor.White ArgbColor.Black
                  ltac:(simpl; lra))).
Defined.
(** ** Packing a colour into a number and back *)

Lemma wrap_mod (z : Z) : (Int32.wrap z mod 2 ^ 32 = z mod 2 ^ 32)%Z.
Proof.
  unfold Int32.wrap. cbv zeta.
  change 4294967296%Z with (2 ^ 32)%Z.
  destruct (z mod 2 ^ 32 <? 2147483648)%Z.
  - apply Z.mod_mod. discriminate.
  - replace (z mod 2 ^ 32 - 2 ^ 32)%Z with (z mod 2 ^ 32 + (-1) * 2 ^ 32)%Z by ring.
    rewrite Z.mod_add by discriminate. apply Z.mod_mod. discriminate.
Qed.

Lemma wrap_testbit (z n : Z) : (n < 32)%Z -> Z.testbit (Int32.wrap z) n = Z.testbit z n.
Proof.
  intro H.
  rewrite <- (Z.mod_pow2_bits_low (Int32.wrap z) 32 n H), wrap_mod.
  apply Z.mod_pow2_bits_low. exact H.
Qed.

Lemma int32_wrap_small (z : Z) : (-2147483648 <= z < 2147483648)%Z -> Int32.wrap z = z.
Proof.
  intro H. unfold Int32.wrap. cbv zeta.
  destruct (Z_lt_le_dec z 0) as [L|L].
  - assert (z mod 4294967296 = z + 4294967296)%Z as ->.
    { symmetry. apply (Z.mod_unique_pos _ _ (-1)); lia. }
    destruct (Z.ltb_spec (z + 4294967296) 2147483648); lia.
  - rewrite Z.mod_small by lia.
    destruct (Z.ltb_spec z 2147483648); lia.
Qed.

Lemma ToInt32_IZR (z : Z) : Int32.ToInt32 (IZR z) = Int32.wrap z.
Proof.
  unfold Int32.ToInt32. destruct (Rle_dec 0 (IZR z)).
  - rewrite ZfloorZ. reflexivity.
  - rewrite ZfloorNZ, Z.opp_involutive. reflexivity.
Qed.

(** The low byte that [x & 0xFF] extracts. *)
Lemma and_255 (x : R) : Int32.and x 255 = IZR (Int32.ToInt32 x mod 2 ^ 8).
Proof.
  unfold Int32.and. rewrite (ToInt32_IZR 255), (int32_wrap_small 255) by lia.
  change 255%Z with (Z.ones 8). rewrite Z.land_ones by lia. reflexivity.
Qed.

Lemma byte_high_bits (z n : Z) : (8 <= n)%Z -> Z.testbit (z mod 2 ^ 8) n = false.
Proof. intro H. apply Z.mod_pow2_bits_high. lia. Qed.

Lemma byte_mod (z : Z) : ((z mod 2 ^ 8) mod 2 ^ 8 = z mod 2 ^ 8)%Z.
Proof. apply Z.mod_mod. discriminate. Qed.

Ltac bits :=
  repeat first
    [ rewrite Z.lor_spec
    | rewrite wrap_testbit by lia
    | rewrite Z.shiftl_spec by lia
    | rewrite Z.shiftr_spec by lia
    | rewrite byte_high_bits by lia
    | rewrite Z.testbit_neg_r by lia
    | rewrite orb_false_r
    | rewrite orb_false_l ].

(** The four bytes of the packed colour, as [fromArgb] extracts them. *)
Lemma packed_byte (A R G B : Z) :
  let V :=
    Z.lor
      (Int32.wrap
         (Z.lor
            (Int32.wrap
               (Z.lor
                  (Int32.wrap (Int32.wrap (Z.shiftl (Int32.wrap (A mod 2 ^ 8)) 24)))
                  (Int32.wrap (Int32.wrap (Z.shiftl (Int32.wrap (R mod 2 ^ 8)) 16)))))
            (Int32.wrap (Int32.wrap (Z.shiftl (Int32.wrap (G mod 2 ^ 8)) 8)))))
      (Int32.wrap (B mod 2 ^ 8)) in
  ((Int32.wrap (Z.shiftr (Int32.wrap V) 24) mod 2 ^ 8 = A mod 2 ^ 8)
   /\ (Int32.wrap (Z.shiftr (Int32.wrap V) 16) mod 2 ^ 8 = R mod 2 ^ 8)
   /\ (Int32.wrap (Z.shiftr (Int32.wrap V) 8) mod 2 ^ 8 = G mod 2 ^ 8)
   /\ (Int32.wrap V mod 2 ^ 8 = B mod 2 ^ 8))%Z.
Proof.
  intro V. unfold V.
  repeat split;
    apply Z.bits_inj'; intros n Hn;
    rewrite (Z.testbit_mod_pow2 _ 8 n) by lia;
    symmetry; rewrite (Z.testbit_mod_pow2 _ 8 n) by lia; symmetry;
    (destruct (Z.ltb_spec n 8); [rewrite !andb_true_l | rewrite !andb_false_l; reflexivity]);
    bits; rewrite ?Z.mod_pow2_bits_low by lia;
    repeat (rewrite byte_high_bits by lia); rewrite ?orb_false_r; f_equal; lia.
Qed.

Lemma fromArgb_toArgb (this : ArgbColor.t) :
  ArgbColor.fromArgb (ArgbColor.Number (ArgbColor.toArgb this))
  = ArgbColor.mk (Int32.and (ArgbColor.r this) 255) (Int32.and (ArgbColor.g this) 255)
      (Int32.and (ArgbColor.b this) 255) (Int32.and (ArgbColor.a this) 255).
Proof.
  unfold ArgbColor.fromArgb, ArgbColor.toArgb. cbv zeta.
  rewrite !and_255.
  unfold Int32.or, Int32.shiftLeft, Int32.shiftRight.
  rewrite !ToInt32_IZR.
  change (24 mod 32)%Z with 24%Z. change (16 mod 32)%Z with 16%Z.
  change (8 mod 32)%Z with 8%Z.
  destruct (packed_byte (Int32.ToInt32 (ArgbColor.a this)) (Int32.ToInt32 (ArgbColor.r this))
              (Int32.ToInt32 (ArgbColor.g this)) (Int32.ToInt32 (ArgbColor.b this)))
    as (Ea & Er & Eg & Eb).
  rewrite Ea, Er, Eg, Eb. reflexivity.
Qed.

Lemma and_255_byte (k : Z) : (0 <= k <= 255)%Z -> Int32.and (IZR k) 255 = IZR k.
Proof.
  intro H. rewrite and_255, ToInt32_IZR, int32_wrap_small by lia.
  rewrite Z.mod_small; [reflexivity|]. change (2 ^ 8)%Z with 256%Z. lia.
Qed.

Lemma wrap_negative (z : Z) : Z.testbit z 31 = true -> (Int32.wrap z < 0)%Z.
Proof.
  intro H. rewrite <- (Z.mod_pow2_bits_low z 32 31) in H by lia.
  apply Z.testbit_true in H; [|lia].
  unfold Int32.wrap. cbv zeta. change 4294967296%Z with (2 ^ 32)%Z.
  pose proof (Z.mod_pos_bound z (2 ^ 32) ltac:(lia)) as Hm.
  set (m := (z mod 2 ^ 32)%Z) in *.
  destruct (Z.ltb_spec m 2147483648) as [L|L]; [|lia].
  exfalso. rewrite Z.div_small in H by (change (2 ^ 31)%Z with 2147483648%Z; lia).
  discriminate.
Qed.

Lemma toArgb_negative (this : ArgbColor.t) :
  Z.testbit (Int32.ToInt32 (ArgbColor.a this)) 7 = true -> ArgbColor.toArgb this < 0.
Proof.
  intro H. unfold ArgbColor.toArgb. rewrite !and_255.
  unfold Int32.or, Int32.shiftLeft. rewrite !ToInt32_IZR.
  change (24 mod 32)%Z with 24%Z. change (16 mod 32)%Z with 16%Z.
  change (8 mod 32)%Z with 8%Z.
  apply (IZR_lt _ 0). apply Z.lor_neg. left. apply wrap_negative.
  bits. rewrite ?Z.mod_pow2_bits_low by lia.
  replace (31 - 24)%Z with 7%Z by lia. rewrite H. reflexivity.
Qed.

(** X23: [fromArgb] undoes [toArgb]: unpacking the number into which a colour
    was packed gives, channel by channel, the low byte [c & 0xFF] of the
    channel; so a colour whose four channels are integers from 0 to 255 is
    returned unchanged.  This holds although the packed number is negative
    when alpha is 128 or more: [<<] and [|] work on signed 32-bit
    integers. *)
Theorem argb_round_trip (this : ArgbColor.t) (r g b a : Z) :
  (0 <= r <= 255)%Z -> (0 <= g <= 255)%Z -> (0 <= b <= 255)%Z -> (0 <= a <= 255)%Z ->
  ArgbColor.fromArgb (ArgbColor.Number (ArgbColor.toArgb this))
  = ArgbColor.mk (Int32.and (ArgbColor.r this) 255) (Int32.and (ArgbColor.g this) 255)
      (Int32.and (ArgbColor.b this) 255) (Int32.and (ArgbColor.a this) 255)
  /\ ArgbColor.fromArgb
       (ArgbColor.Number (ArgbColor.toArgb (ArgbColor.mk (IZR r) (IZR g) (IZR b) (IZR a))))
     = ArgbColor.mk (IZR r) (IZR g) (IZR b) (IZR a)
  /\ ((128 <= a)%Z -> ArgbColor.toArgb (ArgbColor.mk (IZR r) (IZR g) (IZR b) (IZR a)) < 0).
Proof.
  intros Hr Hg Hb Ha. split; [apply fromArgb_toArgb|]. split.
  - rewrite fromArgb_toArgb. simpl.
    rewrite !and_255_byte by assumption. reflexivity.
  - intro H128. apply toArgb_negative. cbn [ArgbColor.a].
    rewrite ToInt32_IZR, int32_wrap_small by lia.
    apply Z.testbit_true; [lia|].
    replace a with (a - 128 + 1 * 2 ^ 7)%Z by (change (2 ^ 7)%Z with 128%Z; ring).
    rewrite Z.div_add by lia. rewrite Z.div_small by (change (2 ^ 7)%Z with 128%Z; lia).
    reflexivity.
Qed.

Lemma argb_round_trip_witness :
  ArgbColor.fromArgb
    (ArgbColor.Number
       (ArgbColor.toArgb (ArgbColor.mk (IZR 12) (IZR 200) (IZR 0) (IZR 255))))
  = ArgbColor.mk (IZR 12) (IZR 200) (IZR 0) (IZR 255).
Proof.
  exact (proj1 (proj2 (argb_round_trip ArgbColor.White 12 200 0 255
                  ltac:(lia) ltac:(lia) ltac:(lia) ltac:(lia)))).
Defined.
(** ** Matrices *)

Lemma list16 (l : list R) :
  List.length l = 16%nat ->
  exists a0 a1 a2 a3 a4 a5 a6 a7 a8 a9 a10 a11 a12 a13 a14 a15,
    l = [a0; a1; a2; a3; a4; a5; a6; a7; a8; a9; a10; a11; a12; a13; a14; a15].
Proof.
  intro H.
  do 16 (destruct l as [|? l]; [discriminate|]).
  destruct l; [|discriminate].
  repeat eexists.
Qed.

(** The constructor always leaves sixteen numbers in [data]. *)
Lemma new_data (d : option (list R)) :
  exists a0 a1 a2 a3 a4 a5 a6 a7 a8 a9 a10 a11 a12 a13 a14 a15,
    Matrix4x4.new d
    = Matrix4x4.mk [a0; a1; a2; a3; a4; a5; a6; a7; a8; a9; a10; a11; a12; a13; a14; a15].
Proof.
  destruct d as [l|]; simpl.
  - destruct (Nat.eqb_spec (List.length l) 16) as [E|E].
    + destruct (list16 l E)
        as (a0 & a1 & a2 & a3 & a4 & a5 & a6 & a7 & a8 & a9 & a10 & a11 & a12 & a13
            & a14 & a15 & ->).
      repeat eexists.
    + repeat eexists.
  - repeat eexists.
Qed.

Ltac matrix_compute :=
  cbv [Matrix4x4.multiply Matrix4x4.new Matrix4x4.identity Matrix4x4.set Matrix4x4.get
       Matrix4x4.update Matrix4x4.data Matrix4x4.transform fold_left seq nth
       Nat.mul Nat.add Nat.eqb List.length Vector3D.x Vector3D.y Vector3D.z].

Ltac matrix_eq :=
  apply (f_equal Matrix4x4.mk);
  repeat (apply (f_equal2 (@cons R)); [ring|]); reflexivity.

Ltac matrix_explicit A :=
  let a0 := fresh "a" in let a1 := fresh "a" in let a2 := fresh "a" in
  let a3 := fresh "a" in let a4 := fresh "a" in let a5 := fresh "a" in
  let a6 := fresh "a" in let a7 := fresh "a" in let a8 := fresh "a" in
  let a9 := fresh "a" in let a10 := fresh "a" in let a11 := fresh "a" in
  let a12 := fresh "a" in let a13 := fresh "a" in let a14 := fresh "a" in
  let a15 := fresh "a" in let E := fresh "E" in
  destruct (new_data A)
    as (a0 & a1 & a2 & a3 & a4 & a5 & a6 & a7 & a8 & a9 & a10 & a11 & a12 & a13
        & a14 & a15 & E);
  rewrite E in *; clear E.

(** X24: [multiply] computes the matrix product: on the matrices that the
    constructor builds it is associative, and the matrix of the constructor
    without argument, the identity, is neutral on both sides. *)
Theorem multiply_is_associative_with_identity (a b c : option (list R)) :
  let A := Matrix4x4.new a in
  let B := Matrix4x4.new b in
  let C := Matrix4x4.new c in
  Matrix4x4.multiply (Matrix4x4.multiply A B) C
  = Matrix4x4.multiply A (Matrix4x4.multiply B C)
  /\ Matrix4x4.multiply (Matrix4x4.new None) A = A
  /\ Matrix4x4.multiply A (Matrix4x4.new None) = A
  /\ (forall i j, (i < 4)%nat -> (j < 4)%nat ->
        Matrix4x4.get (Matrix4x4.multiply A B) i j
        = Matrix4x4.get A i 0 * Matrix4x4.get B 0 j + Matrix4x4.get A i 1 * Matrix4x4.get B 1 j
          + Matrix4x4.get A i 2 * Matrix4x4.get B 2 j
          + Matrix4x4.get A i 3 * Matrix4x4.get B 3 j).
Proof.
  intros A B C. unfold A, B, C. clear A B C.
  matrix_explicit a. matrix_explicit b. matrix_explicit c.
  split; [|split; [|split]].
  - matrix_compute. matrix_eq.
  - matrix_compute. matrix_eq.
  - matrix_compute. matrix_eq.
  - intros i j Hi Hj.
    destruct i as [|[|[|[|i]]]]; try lia;
      destruct j as [|[|[|[|j]]]]; try lia; matrix_compute; ring.
Qed.

(** X25: a matrix whose last column is (0, 0, 0, 1), such as a translation, a
    scaling, a rotation or a view matrix, composes with any matrix as the
    product says: transforming by [A.multiply(B)] is transforming by [A]
    and then by [B]. *)
Theorem transform_of_a_product (a b : option (list R)) (v : Vector3D.t) :
  let A := Matrix4x4.new a in
  let B := Matrix4x4.new b in
  Matrix4x4.get A 0 3 = 0 -> Matrix4x4.get A 1 3 = 0 -> Matrix4x4.get A 2 3 = 0 ->
  Matrix4x4.get A 3 3 = 1 ->
  Matrix4x4.transform (Matrix4x4.multiply A B) v
  = Matrix4x4.transform B (Matrix4x4.transform A v).
Proof.
  intros A B. unfold A, B. clear A B.
  matrix_explicit a. matrix_explicit b.
  matrix_compute. intros H0 H1 H2 H3. subst.
  apply Vector3D_eq; simpl; ring.
Qed.

Lemma transform_of_a_product_witness :
  Matrix4x4.transform
    (Matrix4x4.multiply (Matrix4x4.translation 1 2 3) (Matrix4x4.scaling 2 2 2))
    (Vector3D.mk 1 0 0)
  = Matrix4x4.transform (Matrix4x4.scaling 2 2 2)
      (Matrix4x4.transform (Matrix4x4.translation 1 2 3) (Vector3D.mk 1 0 0)).
Proof.
  exact (transform_of_a_product
           (Some [1; 0; 0; 0; 0; 1; 0; 0; 0; 0; 1; 0; 1; 2; 3; 1])
           (Some [2; 0; 0; 0; 0; 2; 0; 0; 0; 0; 2; 0; 0; 0; 0; 1])
           (Vector3D.mk 1 0 0) eq_refl eq_refl eq_refl eq_refl).
Defined.

Lemma cos_sin_sqr (t : R) : cos t * cos t + sin t * sin t = 1.
Proof. pose proof (sin2_cos2 t) as H. unfold Rsqr in H. lra. Qed.

(** X26: the three rotation matrices keep the length of every vector, and
    rotations about the same axis compose by adding their angles. *)
Theorem rotations_are_isometries (angle angle' : R) (v : Vector3D.t) :
  (Vector3D.norm (Matrix4x4.transform (Matrix4x4.rotationX angle) v) = Vector3D.norm v
   /\ Vector3D.norm (Matrix4x4.transform (Matrix4x4.rotationY angle) v) = Vector3D.norm v
   /\ Vector3D.norm (Matrix4x4.transform (Matrix4x4.rotationZ angle) v) = Vector3D.norm v)
  /\ (Matrix4x4.multiply (Matrix4x4.rotationX angle) (Matrix4x4.rotationX angle')
      = Matrix4x4.rotationX (angle + angle')
      /\ Matrix4x4.multiply (Matrix4x4.rotationY angle) (Matrix4x4.rotationY angle')
         = Matrix4x4.rotationY (angle + angle')
      /\ Matrix4x4.multiply (Matrix4x4.rotationZ angle) (Matrix4x4.rotationZ angle')
         = Matrix4x4.rotationZ (angle + angle')).
Proof.
  pose proof (cos_sin_sqr angle) as H.
  split.
  - unfold Vector3D.norm, Vector3D.norm2, Matrix4x4.rotationX, Matrix4x4.rotationY,
      Matrix4x4.rotationZ. cbv zeta. matrix_compute.
    set (c := cos angle) in *. set (s := sin angle) in *.
    destruct v as [x y z]. cbv [Vector3D.x Vector3D.y Vector3D.z].
    repeat split; f_equal.
    + replace (x * x + y * y + z * z)
        with (x * x + (y * y + z * z) * (c * c + s * s)) by (rewrite H; ring). ring.
    + replace (x * x + y * y + z * z)
        with ((x * x + z * z) * (c * c + s * s) + y * y) by (rewrite H; ring). ring.
    + replace (x * x + y * y + z * z)
        with ((x * x + y * y) * (c * c + s * s) + z * z) by (rewrite H; ring). ring.
  - unfold Matrix4x4.rotationX, Matrix4x4.rotationY, Matrix4x4.rotationZ. cbv zeta.
    rewrite cos_plus, sin_plus. matrix_compute.
    repeat split; matrix_eq.
Qed.

(** What [normalize] returns is the vector times a factor [c] with
    [c * |v|^2 = |v|]. *)
Lemma normalize_factor (v : Vector3D.t) :
  exists c,
    Vector3D.normalize v = Ok (Vector3D.multiply v c)
    /\ c * Vector3D.norm2 v = Vector3D.norm v.
Proof.
  destruct (Req_dec_T (Vector3D.norm v) 0) as [E|E].
  - exists 0. unfold Vector3D.normalize. cbv zeta. rewrite Reqb_true by exact E. split.
    + f_equal. apply Vector3D_eq; simpl; ring.
    + rewrite E. ring.
  - exists (1 / Vector3D.norm v). split; [apply normalize_nonzero; exact E|].
    rewrite <- norm_sqr. field. exact E.
Qed.

(** X27: [lookAt] never throws, and the view matrix it returns takes the eye to
    the origin and the target to the point of the negative z axis at the
    distance of the target from the eye. *)
Theorem lookAt_places_eye_and_target (eye target up : Vector3D.t) :
  exists view,
    Matrix4x4.lookAt eye target up = Ok view
    /\ Matrix4x4.transform view eye = Vector3D.mk 0 0 0
    /\ Matrix4x4.transform view target
       = Vector3D.mk 0 0 (- Vector3D.norm (Vector3D.subtract eye target)).
Proof.
  unfold Matrix4x4.lookAt.
  destruct (normalize_factor (Vector3D.subtract eye target)) as (c1 & E1 & H1).
  rewrite E1.
  destruct (normalize_factor
              (Vector3D.cross up (Vector3D.multiply (Vector3D.subtract eye target) c1)))
    as (c2 & E2 & _).
  rewrite E2. cbv zeta.
  eexists. split; [reflexivity|].
  rewrite <- H1.
  destruct eye as [ex ey ez], target as [tx ty tz], up as [ux uy uz].
  matrix_compute.
  cbv [Vector3D.multiply Vector3D.subtract Vector3D.cross Vector3D.dot Vector3D.norm2
       Vector3D.x Vector3D.y Vector3D.z].
  split; apply Vector3D_eq; cbv [Vector3D.x Vector3D.y Vector3D.z]; ring.
Qed.
(** ** The bisection of [Disk.intersectionSearch] *)

Lemma intersectionSearchLoop_step fuel side prevPoint velocity equation stepLow stepHigh :
  DiskClass.intersectionSearchLoop (S fuel) side prevPoint velocity equation stepLow stepHigh
  = let stepMid := (stepLow + stepHigh) / 2 in
    if Rabs (stepHigh - stepLow) <? 1 / 100000 then Some (pointAt prevPoint velocity stepMid)
    else if side * Vector3D.y (pointAt prevPoint velocity stepMid) >? 0 then
      DiskClass.intersectionSearchLoop fuel side prevPoint velocity equation stepLow stepMid
    else
      DiskClass.intersectionSearchLoop fuel side prevPoint velocity equation stepMid stepHigh.
Proof. reflexivity. Qed.

Lemma Rabs_half (lo hi : R) :
  Rabs ((lo + hi) / 2 - lo) = Rabs (hi - lo) / 2
  /\ Rabs (hi - (lo + hi) / 2) = Rabs (hi - lo) / 2.
Proof.
  replace ((lo + hi) / 2 - lo) with ((hi - lo) / 2) by field.
  replace (hi - (lo + hi) / 2) with ((hi - lo) / 2) by field.
  unfold Rdiv. rewrite Rabs_mult, (Rabs_pos_eq (/ 2)) by lra. split; reflexivity.
Qed.

Lemma Rmin_Rmax_mid (lo hi : R) :
  Rmin lo hi <= (lo + hi) / 2 <= Rmax lo hi.
Proof. unfold Rmin, Rmax. destruct (Rle_dec lo hi); lra. Qed.

Lemma Rmin_Rmax_low_half (lo hi t : R) :
  Rmin lo ((lo + hi) / 2) <= t <= Rmax lo ((lo + hi) / 2) -> Rmin lo hi <= t <= Rmax lo hi.
Proof.
  unfold Rmin, Rmax.
  destruct (Rle_dec lo ((lo + hi) / 2)); destruct (Rle_dec lo hi); lra.
Qed.

Lemma Rmin_Rmax_high_half (lo hi t : R) :
  Rmin ((lo + hi) / 2) hi <= t <= Rmax ((lo + hi) / 2) hi -> Rmin lo hi <= t <= Rmax lo hi.
Proof.
  unfold Rmin, Rmax.
  destruct (Rle_dec ((lo + hi) / 2) hi); destruct (Rle_dec lo hi); lra.
Qed.

(** A bracket narrower than [2^k / 100000] is left within [k + 1] passes. *)
Lemma intersectionSearchLoop_returns k side prevPoint velocity equation :
  forall stepLow stepHigh,
    Rabs (stepHigh - stepLow) < 1 / 100000 * 2 ^ k ->
    exists t,
      Rmin stepLow stepHigh <= t <= Rmax stepLow stepHigh
      /\ forall fuel, (k < fuel)%nat ->
           DiskClass.intersectionSearchLoop fuel side prevPoint velocity equation
             stepLow stepHigh
           = Some (pointAt prevPoint velocity t).
Proof.
  induction k as [|k IH]; intros lo hi Hw.
  - exists ((lo + hi) / 2). split; [apply Rmin_Rmax_mid|].
    intros fuel Hf. destruct fuel as [|fuel]; [lia|].
    rewrite intersectionSearchLoop_step. cbv zeta.
    rewrite Rltb_true by (simpl in Hw; lra). reflexivity.
  - destruct (Rlt_dec (Rabs (hi - lo)) (1 / 100000)) as [L|L].
    + exists ((lo + hi) / 2). split; [apply Rmin_Rmax_mid|].
      intros fuel Hf. destruct fuel as [|fuel]; [lia|].
      rewrite intersectionSearchLoop_step. cbv zeta.
      rewrite Rltb_true by exact L. reflexivity.
    + destruct (Rabs_half lo hi) as [H1 H2].
      simpl pow in Hw.
      destruct (Rlt_dec 0 (side * Vector3D.y (pointAt prevPoint velocity ((lo + hi) / 2))))
        as [C|C].
      * destruct (IH lo ((lo + hi) / 2)) as (t & Ht & Hrun); [rewrite H1; lra|].
        exists t. split; [apply Rmin_Rmax_low_half; exact Ht|].
        intros fuel Hf. destruct fuel as [|fuel]; [lia|].
        rewrite intersectionSearchLoop_step. cbv zeta.
        rewrite (Rltb_false _ _ L), (Rltb_true _ _ C). apply Hrun. lia.
      * destruct (IH ((lo + hi) / 2) hi) as (t & Ht & Hrun); [rewrite H2; lra|].
        exists t. split; [apply Rmin_Rmax_high_half; exact Ht|].
        intros fuel Hf. destruct fuel as [|fuel]; [lia|].
        rewrite intersectionSearchLoop_step. cbv zeta.
        rewrite (Rltb_false _ _ L), (Rltb_false _ _ C). apply Hrun. lia.
Qed.

(** X28: for a step size below 0.32768 in absolute value, as the default
    0.16 and every position of the step-size slider are, the [while (true)]
    loop of [intersectionSearch] ends within 16 passes, for every [side] and
    every ray, whether the ray crosses the plane or not: the first bracket
    is narrower than 2^15 / 100000, every pass halves it, and the search
    returns once it is narrower than 1 / 100000.  What it returns is a
    point of the straight segment from [prevPoint] along [velocity], at a
    time between 0 and the step size. *)
Theorem intersectionSearch_terminates (side : R) (prevPoint velocity : Vector3D.t)
    (equation : SchwarzschildBlackHoleEquation.t) :
  let stepSize := SchwarzschildBlackHoleEquation.stepSize equation in
  Rabs stepSize < 32768 / 100000 ->
  exists t,
    Rmin 0 stepSize <= t <= Rmax 0 stepSize
    /\ forall fuel, (16 <= fuel)%nat ->
         DiskClass.intersectionSearch fuel side prevPoint velocity equation
         = Some (pointAt prevPoint velocity t).
Proof.
  intros stepSize Hsmall.
  destruct (intersectionSearchLoop_returns 15 side prevPoint velocity equation 0 stepSize)
    as (t & Ht & Hrun).
  - replace (stepSize - 0) with stepSize by ring. simpl. lra.
  - exists t. split; [exact Ht|]. intros fuel Hf. apply Hrun. lia.
Qed.

Lemma intersectionSearch_terminates_witness :
  exists t,
    Rmin 0 (16 / 100) <= t <= Rmax 0 (16 / 100)
    /\ forall fuel, (16 <= fuel)%nat ->
         DiskClass.intersectionSearch fuel 1 (Vector3D.mk 3 1 0) (Vector3D.mk 1 0 0)
           (SchwarzschildBlackHoleEquation.new (-15 / 10))
         = Some (pointAt (Vector3D.mk 3 1 0) (Vector3D.mk 1 0 0) t).
Proof.
  apply (intersectionSearch_terminates 1 (Vector3D.mk 3 1 0) (Vector3D.mk 1 0 0)
           (SchwarzschildBlackHoleEquation.new (-15 / 10))).
  unfold SchwarzschildBlackHoleEquation.new,
    SchwarzschildBlackHoleEquation.defaultStepSize; simpl.
  rewrite Rabs_pos_eq; lra.
Defined.

(** With the crossing of the plane inside the bracket, the bisection keeps
    it there. *)
Lemma intersectionSearchLoop_crossing k side prevPoint velocity equation :
  forall stepLow stepHigh,
    stepLow <= stepHigh ->
    stepHigh - stepLow < 1 / 100000 * 2 ^ k ->
    side * Vector3D.y (pointAt prevPoint velocity stepLow) <= 0 ->
    0 < side * Vector3D.y (pointAt prevPoint velocity stepHigh) ->
    exists t,
      stepLow <= t <= stepHigh
      /\ Rabs (Vector3D.y (pointAt prevPoint velocity t))
         < Rabs (Vector3D.y velocity) / 100000
      /\ forall fuel, (k < fuel)%nat ->
           DiskClass.intersectionSearchLoop fuel side prevPoint velocity equation
             stepLow stepHigh
           = Some (pointAt prevPoint velocity t).
Proof.
  assert (forall lo hi,
            lo <= hi -> hi - lo < 1 / 100000 ->
            side * Vector3D.y (pointAt prevPoint velocity lo) <= 0 ->
            0 < side * Vector3D.y (pointAt prevPoint velocity hi) ->
            Rabs (Vector3D.y (pointAt prevPoint velocity ((lo + hi) / 2)))
            < Rabs (Vector3D.y velocity) / 100000) as Hexit.
  { intros lo hi Hle Hw Hlo Hhi. unfold pointAt in *. simpl in *.
    set (y0 := Vector3D.y prevPoint) in *. set (vy := Vector3D.y velocity) in *.
    set (ylo := y0 + vy * lo) in *. set (yhi := y0 + vy * hi) in *.
    replace (y0 + vy * ((lo + hi) / 2)) with ((ylo + yhi) / 2)
      by (unfold ylo, yhi; field).
    assert (yhi - ylo = vy * (hi - lo)) as Ed by (unfold ylo, yhi; ring).
    destruct (Rtotal_order side 0) as [Neg | [Zero | Pos]].
    - assert (0 <= ylo) as H1 by nra. assert (yhi < 0) as H2 by nra.
      assert (vy < 0) as Hv by nra.
      assert (0 < - vy * (1 / 100000 - (hi - lo))) as Hp
        by (apply Rmult_lt_0_compat; lra).
      rewrite (Rabs_left vy Hv). unfold Rabs.
      destruct (Rcase_abs ((ylo + yhi) / 2)); lra.
    - subst side. lra.
    - assert (ylo <= 0) as H1 by nra. assert (0 < yhi) as H2 by nra.
      assert (0 < vy) as Hv by nra.
      assert (0 < vy * (1 / 100000 - (hi - lo))) as Hp
        by (apply Rmult_lt_0_compat; lra).
      rewrite (Rabs_pos_eq vy) by lra. unfold Rabs.
      destruct (Rcase_abs ((ylo + yhi) / 2)); lra. }
  induction k as [|k IH]; intros lo hi Hle Hw Hlo Hhi.
  - exists ((lo + hi) / 2). split; [lra|]. simpl in Hw.
    split; [apply Hexit; assumption || lra|].
    intros fuel Hf. destruct fuel as [|fuel]; [lia|].
    rewrite intersectionSearchLoop_step. cbv zeta.
    rewrite Rltb_true by (rewrite Rabs_pos_eq; lra). reflexivity.
  - destruct (Rlt_dec (Rabs (hi - lo)) (1 / 100000)) as [L|L].
    + exists ((lo + hi) / 2). split; [lra|].
      split; [apply Hexit; try assumption; rewrite Rabs_pos_eq in L; lra|].
      intros fuel Hf. destruct fuel as [|fuel]; [lia|].
      rewrite intersectionSearchLoop_step. cbv zeta.
      rewrite Rltb_true by exact L. reflexivity.
    + simpl pow in Hw.
      destruct (Rlt_dec 0 (side * Vector3D.y (pointAt prevPoint velocity ((lo + hi) / 2))))
        as [C|C].
      * destruct (IH lo ((lo + hi) / 2)) as (t & Ht & Hy & Hrun); try assumption; try lra.
        exists t. split; [lra|]. split; [exact Hy|].
        intros fuel Hf. destruct fuel as [|fuel]; [lia|].
        rewrite intersectionSearchLoop_step. cbv zeta.
        rewrite (Rltb_false _ _ L), (Rltb_true _ _ C). apply Hrun. lia.
      * destruct (IH ((lo + hi) / 2) hi) as (t & Ht & Hy & Hrun); try assumption; try lra.
        exists t. split; [lra|]. split; [exact Hy|].
        intros fuel Hf. destruct fuel as [|fuel]; [lia|].
        rewrite intersectionSearchLoop_step. cbv zeta.
        rewrite (Rltb_false _ _ L), (Rltb_false _ _ C). apply Hrun. lia.
Qed.

(** X29: when the ray is on the plane or on its own side of it at [prevPoint]
    and has crossed to the other side after the time [stepSize] (at most
    0.32768) along the straight line, [intersectionSearch] returns within
    16 passes a point of that line whose distance from the plane is below
    [|velocity.y| / 100000]. *)
Theorem intersectionSearch_finds_the_plane (side : R) (prevPoint velocity : Vector3D.t)
    (equation : SchwarzschildBlackHoleEquation.t) :
  let stepSize := SchwarzschildBlackHoleEquation.stepSize equation in
  0 <= stepSize < 32768 / 100000 ->
  side * Vector3D.y prevPoint <= 0 ->
  0 < side * Vector3D.y (pointAt prevPoint velocity stepSize) ->
  exists t,
    0 <= t <= stepSize
    /\ DiskClass.intersectionSearch 16 side prevPoint velocity equation
       = Some (pointAt prevPoint velocity t)
    /\ Rabs (Vector3D.y (pointAt prevPoint velocity t)) < Rabs (Vector3D.y velocity) / 100000.
Proof.
  intros stepSize Hs Hlo Hhi.
  destruct (intersectionSearchLoop_crossing 15 side prevPoint velocity equation 0 stepSize)
    as (t & Ht & Hy & Hrun).
  - lra.
  - simpl. lra.
  - unfold pointAt. simpl. replace (Vector3D.y prevPoint + Vector3D.y velocity * 0)
      with (Vector3D.y prevPoint) by ring. exact Hlo.
  - exact Hhi.
  - exists t. split; [exact Ht|]. split; [|exact Hy].
    apply Hrun. lia.
Qed.

Lemma intersectionSearch_finds_the_plane_witness :
  exists t,
    0 <= t <= 16 / 100
    /\ DiskClass.intersectionSearch 16 (-1) (Vector3D.mk 3 1 0) (Vector3D.mk 0 (-10) 0)
         (SchwarzschildBlackHoleEquation.new (-15 / 10))
       = Some (pointAt (Vector3D.mk 3 1 0) (Vector3D.mk 0 (-10) 0) t)
    /\ Rabs (Vector3D.y (pointAt (Vector3D.mk 3 1 0) (Vector3D.mk 0 (-10) 0) t))
       < Rabs (Vector3D.y (Vector3D.mk 0 (-10) 0)) / 100000.
Proof.
  apply (intersectionSearch_finds_the_plane (-1) (Vector3D.mk 3 1 0) (Vector3D.mk 0 (-10) 0)
           (SchwarzschildBlackHoleEquation.new (-15 / 10))).
  - unfold SchwarzschildBlackHoleEquation.new,
      SchwarzschildBlackHoleEquation.defaultStepSize; simpl. lra.
  - simpl. lra.
  - unfold SchwarzschildBlackHoleEquation.new,
      SchwarzschildBlackHoleEquation.defaultStepSize, pointAt; simpl. lra.
Defined.
(** ** Cloning a scene *)

(** X18: [Scene.clone] goes through the constructor, so the clone is a scene as
    the constructor builds it from the camera, the field of view, the
    hitables and the potential coefficient of the original: these are
    kept, while the step size of the clone is the default 0.16 and its
    tilt is 0, whatever the original held, and its camera angles are
    those of the camera position.  Cloning a clone changes nothing. *)
Theorem clone_goes_through_the_constructor (this : SceneClass.t) :
  let copy := SceneClass.clone this in
  (cameraPosition (SceneClass.scene copy) = cameraPosition (SceneClass.scene this)
   /\ cameraLookAt (SceneClass.scene copy) = cameraLookAt (SceneClass.scene this)
   /\ upVector (SceneClass.scene copy) = upVector (SceneClass.scene this)
   /\ fov (SceneClass.scene copy) = fov (SceneClass.scene this)
   /\ hitables (SceneClass.scene copy) = hitables (SceneClass.scene this)
   /\ SchwarzschildBlackHoleEquation.potentialCoefficient
        (schwarzschildEquation (SceneClass.scene copy))
      = SchwarzschildBlackHoleEquation.potentialCoefficient
          (schwarzschildEquation (SceneClass.scene this)))
  /\ SchwarzschildBlackHoleEquation.stepSize (schwarzschildEquation (SceneClass.scene copy))
     = 16 / 100
  /\ SceneClass.cameraTilt copy = 0
  /\ SceneClass.cameraDistance copy = Vector3D.norm (cameraPosition (SceneClass.scene this))
  /\ SceneClass.clone copy = copy.
Proof.
  intro copy. unfold copy, SceneClass.clone, SceneClass.new. cbv zeta.
  destruct this as [[[px py pz] [lx ly lz] [ux uy uz] f hs eq] d h v t].
  cbn [SceneClass.scene cameraPosition cameraLookAt upVector fov hitables
       schwarzschildEquation SceneClass.cameraTilt SceneClass.cameraDistance
       Vector3D.clone Vector3D.x Vector3D.y Vector3D.z
       SchwarzschildBlackHoleEquation.new SchwarzschildBlackHoleEquation.stepSize
       SchwarzschildBlackHoleEquation.potentialCoefficient].
  split; [repeat split|]. split; [reflexivity|]. split; [reflexivity|].
  split; [|reflexivity].
  unfold Utils.toSpherical, Vector3D.norm, Vector3D.norm2. cbv zeta.
  cbn [Vector3D.x Vector3D.y Vector3D.z].
  destruct (Req_dec_T (sqrt (px * px + py * py + pz * pz)) 0) as [E|E].
  - rewrite Reqb_true by exact E. simpl. symmetry. exact E.
  - rewrite Reqb_false by exact E. reflexivity.
Qed.
